(** * ClickUp API client: request / cache / invalidation contract

    Shallow embedding of [scripts/clickup-client.ts] and of handlers of its
    command line.  JavaScript values are
    modelled dynamically (the client handles parsed JSON and plain objects);
    numbers are integers ([Z]: fractional numbers, NaN and infinities are
    out of the model, and so are the integers from 1e21 on, which JavaScript
    writes with an exponent); strings are byte strings, exact for ASCII text (a
    character outside ASCII is several bytes here, one or two code units
    in JavaScript).  Asynchronous methods are sequential computations over
    an explicit world (cache, request log, clock), since the client awaits
    every promise as soon as it has it. *)

From Stdlib Require Import ZArith Ascii String List Bool Lia.
From stdpp Require Import base tactics option list strings pretty sorting gmap.

Open Scope string_scope.
Open Scope list_scope.
Open Scope Z_scope.

(** ** JavaScript values *)

Module JS.

#[warnings="-register-all"]
Inductive JValue : Type :=
| JUndefined
| JNull
| JBool (b : bool)
| JNum (n : Z)
| JStr (s : string)
| JArr (items : list JValue)
| JObj (fields : list (string * JValue)).

(** An object is its list of own properties in insertion order; the keys
    of an object are distinct. *)
Definition keys (fields : list (string * JValue)) : list string := fields.*1.

Definition is_undefined (v : JValue) : bool :=
  match v with JUndefined => true | _ => false end.

Definition nullish (v : JValue) : bool :=
  match v with JUndefined | JNull => true | _ => false end.

(** [Boolean(v)], the test of [if (v)], [!v], [v || w], [v ? a : b]. *)
Definition truthy (v : JValue) : bool :=
  match v with
  | JUndefined | JNull => false
  | JBool b => b
  | JNum n => negb (n =? 0)
  | JStr s => negb (String.eqb s "")
  | JArr _ | JObj _ => true
  end.

(** [v || w] *)
Definition or_else (v w : JValue) : JValue := if truthy v then v else w.

Fixpoint lookup_field (k : string) (fields : list (string * JValue)) : JValue :=
  match fields with
  | [] => JUndefined
  | (k', v) :: rest => if String.eqb k k' then v else lookup_field k rest
  end.

(** [o.k] for the property names the client reads (none of them is an
    inherited property such as [length]); [None] is the TypeError of
    reading a property of [null] or [undefined]. *)
Definition prop (k : string) (o : JValue) : option JValue :=
  match o with
  | JUndefined | JNull => None
  | JObj fields => Some (lookup_field k fields)
  | _ => Some JUndefined
  end.

(** [o?.k] *)
Definition opt_prop (k : string) (o : JValue) : JValue :=
  match o with
  | JObj fields => lookup_field k fields
  | _ => JUndefined
  end.

(** [o[k] = v] on an object literal under construction: an existing key
    keeps its position, a new key goes last. *)
Fixpoint set_field (k : string) (v : JValue) (fields : list (string * JValue))
  : list (string * JValue) :=
  match fields with
  | [] => [(k, v)]
  | (k', v') :: rest =>
      if String.eqb k k' then (k, v) :: rest else (k', v') :: set_field k v rest
  end.

(** Own enumerable properties copied by [{...o}]; nothing is copied from
    [undefined], [null] or a primitive (index properties of arrays and
    strings are out of the model). *)
Definition own_fields (o : JValue) : list (string * JValue) :=
  match o with JObj fields => fields | _ => [] end.

(** [{...base, ...o}] *)
Definition spread (base : list (string * JValue)) (o : JValue)
  : list (string * JValue) :=
  fold_left (fun acc kv => set_field kv.1 kv.2 acc) (own_fields o) base.

(** Text of ASCII characters: each byte is one code unit of the JavaScript
    string. *)
Fixpoint ascii_text (s : string) : bool :=
  match s with
  | "" => true
  | String c rest => (N_of_ascii c <? 128)%N && ascii_text rest
  end.

(** [parts.join(sep)] on strings. *)
Fixpoint join (sep : string) (parts : list string) : string :=
  match parts with
  | [] => ""
  | [p] => p
  | p :: rest => p +:+ sep +:+ join sep rest
  end.

(** [String(v)], also the conversion done by template literals and by
    [URLSearchParams]; numbers are written in decimal (as JavaScript does
    for integers below 1e21) and [Array.prototype.join] renders [null] and
    [undefined] elements as the empty string. *)
Fixpoint to_string (v : JValue) : string :=
  match v with
  | JUndefined => "undefined"
  | JNull => "null"
  | JBool true => "true"
  | JBool false => "false"
  | JNum n => pretty n
  | JStr s => s
  | JArr items =>
      join "," (map (fun x => if nullish x then "" else to_string x) items)
  | JObj _ => "[object Object]"
  end.

(** [items.join(sep)] on an array value. *)
Definition array_join (sep : string) (items : list JValue) : string :=
  join sep (map (fun x => if nullish x then "" else to_string x) items).

(** What the client can throw. *)
Inductive Exn : Type :=
| Error (message : string)      (* [new Error(message)] *)
| TypeError                     (* property or call on a wrong value *)
| SyntaxError                   (* [response.json()] or [new RegExp] rejecting its input *)
| Unmodelled.                   (* the input leaves the modelled fragment of JavaScript *)

Inductive Result (A : Type) : Type :=
| Ok (a : A)
| Throw (e : Exn).
Arguments Ok {A} a.
Arguments Throw {A} e.

End JS.
Export JS.

(** ** [URLSearchParams] (WHATWG URL standard) *)

Module URLSearchParams.

(** The parameter list: name/value pairs in order. *)
Definition t : Type := list (string * string).

Definition empty : t := [].

(** [params.append(name, value)] *)
Definition append (name value : string) (p : t) : t := (p ++ [(name, value)])%list.

(** [params.set(name, value)]: the first pair called [name] gets the value
    and the later ones are dropped; without such a pair it is appended. *)
Fixpoint set (name value : string) (p : t) : t :=
  match p with
  | [] => [(name, value)]
  | (n, v) :: rest =>
      if String.eqb n name
      then (n, value) :: List.filter (fun nv => negb (String.eqb nv.1 name)) rest
      else (n, v) :: set name value rest
  end.

Definition hex_digit (n : N) : ascii :=
  match n with
  | 0 => "0" | 1 => "1" | 2 => "2" | 3 => "3" | 4 => "4" | 5 => "5"
  | 6 => "6" | 7 => "7" | 8 => "8" | 9 => "9" | 10 => "A" | 11 => "B"
  | 12 => "C" | 13 => "D" | 14 => "E" | _ => "F"
  end%N%char.

(** Bytes the application/x-www-form-urlencoded serializer leaves alone:
    ASCII letters and digits, [*], [-], [.] and [_]. *)
Definition unreserved (c : ascii) : bool :=
  let n := N_of_ascii c in
  ((48 <=? n) && (n <=? 57) || (65 <=? n) && (n <=? 90) || (97 <=? n) && (n <=? 122)
   || (n =? 42) || (n =? 45) || (n =? 46) || (n =? 95))%N.

Definition encode_byte (c : ascii) : string :=
  if Ascii.eqb c " " then "+"
  else if unreserved c then String c ""
  else String "%" (String (hex_digit (N_of_ascii c / 16))
                     (String (hex_digit (N_of_ascii c mod 16)) "")).

Fixpoint encode (s : string) : string :=
  match s with
  | "" => ""
  | String c rest => encode_byte c +:+ encode rest
  end.

(** [params.toString()] *)
Definition toString (p : t) : string :=
  join "&" (map (fun nv => encode nv.1 +:+ "=" +:+ encode nv.2) p).

End URLSearchParams.

(** ** [RegExp]: the fragment of pattern syntax the client can build

    Patterns are sequences of literal characters and [.], each optionally
    followed by one of the quantifiers [*], [+], [?] (and a lazy mark [?],
    which does not change what [test] answers), with an optional leading
    [^].  Groups, classes, escapes, alternation, braces and inner
    assertions are outside the fragment. *)

Module RegExp.

Inductive Pattern : Type :=
| PFail
| PEmpty
| PChar (c : ascii)
| PAny
| PSeq (p q : Pattern)
| PAlt (p q : Pattern)
| PStar (p : Pattern).

Record t : Type := { anchored : bool; pattern : Pattern }.

Inductive Compiled : Type :=
| Regex (r : t)
| Invalid          (* [new RegExp] throws a SyntaxError *)
| Unsupported.     (* valid or not, the pattern is outside the fragment *)

(** The syntax characters of ECMAScript patterns. *)
Definition syntax_char (c : ascii) : bool :=
  existsb (Ascii.eqb c)
    ["^"; "$"; "\"; "."; "*"; "+"; "?"; "("; ")"; "["; "]"; "{"; "}"; "|"]%char.

(** [.] matches any character but a line terminator.  Of the four line
    terminators of ECMAScript, line feed and carriage return are ASCII
    characters; U+2028 and U+2029 are not, and text that is not ASCII text
    is outside what the matcher is exact on (see [exact]). *)
Definition line_terminator (c : ascii) : bool :=
  Ascii.eqb c "010" || Ascii.eqb c "013".

(** Parser state: the sequence read so far, the last atom (which a
    quantifier may still follow), and what followed that atom. *)
Inductive Quant : Type := Bare | Quantified | Lazy.

Record PState : Type :=
  { before : Pattern; last : option (Pattern * Quant) }.

Definition flush (st : PState) : Pattern :=
  match last st with
  | None => before st
  | Some (a, _) => PSeq (before st) a
  end.

Definition push_atom (a : Pattern) (st : PState) : PState :=
  {| before := flush st; last := Some (a, Bare) |}.

Definition step (c : ascii) (st : PState) : option (option PState) :=
  if Ascii.eqb c "." then Some (Some (push_atom PAny st))
  else if Ascii.eqb c "*" then
    match last st with
    | Some (a, Bare) => Some (Some {| before := before st; last := Some (PStar a, Quantified) |})
    | _ => Some None
    end
  else if Ascii.eqb c "+" then
    match last st with
    | Some (a, Bare) =>
        Some (Some {| before := before st; last := Some (PSeq a (PStar a), Quantified) |})
    | _ => Some None
    end
  else if Ascii.eqb c "?" then
    match last st with
    | Some (a, Bare) =>
        Some (Some {| before := before st; last := Some (PAlt PEmpty a, Quantified) |})
    | Some (a, Quantified) => Some (Some {| before := before st; last := Some (a, Lazy) |})
    | _ => Some None
    end
  else if syntax_char c then None
  else Some (Some (push_atom (PChar c) st)).

(** [Some (Some p)]: parsed; [Some None]: nothing to repeat (a
    SyntaxError); [None]: outside the fragment. *)
Fixpoint parse (s : string) (st : PState) : option (option Pattern) :=
  match s with
  | "" => Some (Some (flush st))
  | String c rest =>
      match step c st with
      | Some (Some st') => parse rest st'
      | Some None => Some None
      | None => None
      end
  end.

Definition start : PState := {| before := PEmpty; last := None |}.

(** [new RegExp(source)] *)
Definition compile (source : string) : Compiled :=
  let (anch, rest) :=
    match source with
    | String "^" rest => (true, rest)
    | _ => (false, source)
    end in
  match parse rest start with
  | Some (Some p) => Regex {| anchored := anch; pattern := p |}
  | Some None => Invalid
  | None => Unsupported
  end.

Fixpoint nullable (p : Pattern) : bool :=
  match p with
  | PFail | PChar _ | PAny => false
  | PEmpty | PStar _ => true
  | PSeq p q => nullable p && nullable q
  | PAlt p q => nullable p || nullable q
  end.

(** Brzozowski derivative: what remains to be matched after reading [c]. *)
Fixpoint deriv (c : ascii) (p : Pattern) : Pattern :=
  match p with
  | PFail | PEmpty => PFail
  | PChar a => if Ascii.eqb a c then PEmpty else PFail
  | PAny => if line_terminator c then PFail else PEmpty
  | PSeq p q =>
      if nullable p then PAlt (PSeq (deriv c p) q) (deriv c q)
      else PSeq (deriv c p) q
  | PAlt p q => PAlt (deriv c p) (deriv c q)
  | PStar p => PSeq (deriv c p) (PStar p)
  end.

(** Some prefix of [s] matches [p]. *)
Fixpoint matches_prefix (p : Pattern) (s : string) : bool :=
  nullable p ||
  match s with
  | "" => false
  | String c rest => matches_prefix (deriv c p) rest
  end.

(** Some substring of [s] matches [p]. *)
Fixpoint matches_somewhere (p : Pattern) (s : string) : bool :=
  matches_prefix p s ||
  match s with
  | "" => false
  | String _ rest => matches_somewhere p rest
  end.

(** [re.test(s)] *)
Definition test (re : t) (s : string) : bool :=
  if anchored re then matches_prefix (pattern re) s
  else matches_somewhere (pattern re) s.

(** [.] occurs in the pattern. *)
Fixpoint uses_any (p : Pattern) : bool :=
  match p with
  | PAny => true
  | PFail | PEmpty | PChar _ => false
  | PSeq p q | PAlt p q => uses_any p || uses_any q
  | PStar p => uses_any p
  end.

(** The matcher reads bytes where JavaScript reads code units.  The two
    agree when the source of the pattern and the text are ASCII text, a
    byte being a code unit there (and the line terminators line feed and
    carriage return alone; the separators U+2028 and U+2029, which [.]
    refuses as well, are not ASCII).  They also agree on every text when
    the source is ASCII text without [.], no byte of a character outside
    ASCII being an ASCII byte.  Elsewhere [test] is not what the program
    computes. *)
Definition exact (source : string) (re : t) (s : string) : bool :=
  ascii_text source && (negb (uses_any (pattern re)) || ascii_text s).

End RegExp.

(** ** The cache collaborator ([@local/plugin-cache]) *)

(** Modelled from the spec: the [TTL] table of [@local/plugin-cache], which
    is not part of the client's source.  The spec gives the lifetimes as one
    hour, fifteen minutes and five minutes; they are taken in milliseconds. *)
Module TTL.
Definition HOUR : Z := 3600000.
Definition FIFTEEN_MINUTES : Z := 900000.
Definition FIVE_MINUTES : Z := 300000.
End TTL.

(** Modelled from the spec: [createCacheKey] of [@local/plugin-cache], which
    is not part of the client's source.  The spec makes the key a
    deterministic function of the operation name and of the parameters with
    [undefined] values omitted, whatever the insertion order of the keys; the
    client's own patterns ([/^tasks/], [^comments.*task=<id>]) need the key
    to start with the operation name and to show each parameter as
    [name=value].  So: the operation name, and when some parameter is
    defined, [":"] and the defined parameters as [name=String(value)] in key
    order, joined by ["&"]. *)
Definition createCacheKey (operation : string) (params : list (string * JValue)) : string :=
  let present :=
    List.filter (fun k => negb (is_undefined (lookup_field k params))) (keys params) in
  let rendered :=
    map (fun k => k +:+ "=" +:+ to_string (lookup_field k params))
        (merge_sort String.le present) in
  match rendered with
  | [] => operation
  | _ => operation +:+ ":" +:+ join "&" rendered
  end.

(** Modelled from the spec: the [PluginCache] class of [@local/plugin-cache],
    which is not part of the client's source; section 4.2 of the spec gives
    its contract.  A disabled cache calls the producer and does not store. *)
Module PluginCache.

Record Entry : Type := { value : JValue; expires : Z }.

Record t : Type := { entries : gmap string Entry; enabled : bool }.

(** [new PluginCache(...)] *)
Definition create : t := {| entries := ∅; enabled := true |}.

(** The cached value under [key], if present and unexpired at [now]. *)
Definition peek (now : Z) (key : string) (c : t) : option JValue :=
  match entries c !! key with
  | Some e => if now <? expires e then Some (value e) else None
  | None => None
  end.

Definition store (key : string) (v : JValue) (exp : Z) (c : t) : t :=
  {| entries := <[key := {| value := v; expires := exp |}]> (entries c);
     enabled := enabled c |}.

(** [cache.invalidate(key)] *)
Definition invalidate (key : string) (c : t) : bool * t :=
  (bool_decide (is_Some (entries c !! key)),
   {| entries := delete key (entries c); enabled := enabled c |}).

(** [cache.invalidatePattern(re)] *)
Definition invalidatePattern (re : RegExp.t) (c : t) : nat * t :=
  let kept := filter (fun kv => RegExp.test re kv.1 = false) (entries c) in
  ((size (entries c) - size kept)%nat, {| entries := kept; enabled := enabled c |}).

(** [cache.clear()] *)
Definition clear (c : t) : nat * t :=
  (size (entries c), {| entries := ∅; enabled := enabled c |}).

Definition enable (c : t) : t := {| entries := entries c; enabled := true |}.
Definition disable (c : t) : t := {| entries := entries c; enabled := false |}.

End PluginCache.

(** ** The world of the client *)

Record Request : Type :=
  { req_method : string;
    req_url : string;
    req_headers : list (string * string);
    req_body : option JValue   (* the value handed to [JSON.stringify] *) }.

(** What [fetch] resolves to: the status, the body text ([response.text()])
    and what [response.json()] makes of it ([None]: it rejects). *)
Record Response : Type := { status : Z; text : string; json : option JValue }.

(** [response.ok] *)
Definition ok (r : Response) : bool := (200 <=? status r) && (status r <=? 299).

(** The remote service: its answer may depend on the requests it has
    already received. *)
Definition Network : Type := list Request -> Request -> Response.

Record ClickUpConfig : Type := { apiKey : JValue; teamId : JValue }.

(** The module-level [cache], the client's [cacheDisabled] field, the
    requests sent so far (oldest first) and the clock. *)
Record State : Type :=
  { cache : PluginCache.t;
    cacheDisabled : bool;
    sent : list Request;
    now : Z }.

Definition with_cache (c : PluginCache.t) (st : State) : State :=
  {| cache := c; cacheDisabled := cacheDisabled st; sent := sent st; now := now st |}.

Definition with_cacheDisabled (b : bool) (st : State) : State :=
  {| cache := cache st; cacheDisabled := b; sent := sent st; now := now st |}.

Definition with_sent (l : list Request) (st : State) : State :=
  {| cache := cache st; cacheDisabled := cacheDisabled st; sent := l; now := now st |}.

Definition with_now (t : Z) (st : State) : State :=
  {| cache := cache st; cacheDisabled := cacheDisabled st; sent := sent st; now := t |}.

(** A process that has just started: empty enabled cache, nothing sent. *)
Definition initial (t : Z) : State :=
  {| cache := PluginCache.create; cacheDisabled := false; sent := []; now := t |}.

(** Computations that may throw and that read and write the world. *)
Definition M (A : Type) : Type := State -> Result A * State.

Definition ret {A} (a : A) : M A := fun st => (Ok a, st).

Definition throw {A} (e : Exn) : M A := fun st => (Throw e, st).

Definition bind {A B} (m : M A) (k : A -> M B) : M B :=
  fun st =>
    match m st with
    | (Ok a, st') => k a st'
    | (Throw e, st') => (Throw e, st')
    end.

Definition lift {A} (r : Result A) : M A := fun st => (r, st).

Notation "'let*' x := m 'in' k" := (bind m (fun x => k))
  (at level 10, x name, m at level 100, k at level 200).
Notation "m >> k" := (bind m (fun _ => k))
  (at level 62, right associativity).

(** [o.k] as a computation: a TypeError on [null] and [undefined]. *)
Definition prop_r (k : string) (o : JValue) : Result JValue :=
  match prop k o with
  | Some v => Ok v
  | None => Throw TypeError
  end.

Definition bind_r {A B} (r : Result A) (k : A -> Result B) : Result B :=
  match r with
  | Ok a => k a
  | Throw e => Throw e
  end.

(** [for (const x of v)]: arrays give their elements, strings their
    characters, anything else is not iterable. *)
Definition iterate (v : JValue) : Result (list JValue) :=
  match v with
  | JArr items => Ok items
  | JStr s => Ok (map (fun c => JStr (String c "")) (list_ascii_of_string s))
  | _ => Throw TypeError
  end.

Fixpoint for_of {A} (items : list JValue) (body : JValue -> A -> M A) (acc : A) : M A :=
  match items with
  | [] => ret acc
  | x :: rest => let* acc' := body x acc in for_of rest body acc'
  end.

(** Modelled from the spec: [cache.getOrFetch(key, producer, {ttl,
    bypassCache})] of [@local/plugin-cache] (section 4.2): a fresh cached
    value is returned when the cache is enabled and not bypassed; otherwise
    the producer runs and its result is stored under [key] until [now + ttl]
    (a disabled cache stores nothing).  A producer that throws stores
    nothing. *)
Definition getOrFetch (key : string) (producer : M JValue) (ttl : Z) (bypassCache : bool)
  : M JValue :=
  fun st =>
    let hit :=
      if PluginCache.enabled (cache st) && negb bypassCache
      then PluginCache.peek (now st) key (cache st)
      else None in
    match hit with
    | Some v => (Ok v, st)
    | None =>
        match producer st with
        | (Ok v, st') =>
            (Ok v,
             if PluginCache.enabled (cache st')
             then with_cache (PluginCache.store key v (now st' + ttl) (cache st')) st'
             else st')
        | (Throw e, st') => (Throw e, st')
        end
    end.

(** [cache.getOrFetch(key, producer, { ttl, bypassCache: this.cacheDisabled })] *)
Definition cached (key : string) (ttl : Z) (producer : M JValue) : M JValue :=
  fun st => getOrFetch key producer ttl (cacheDisabled st) st.

(** [cache.invalidate(key)] on the module-level cache. *)
Definition cache_invalidate (key : string) : M bool :=
  fun st =>
    let (found, c) := PluginCache.invalidate key (cache st) in
    (Ok found, with_cache c st).

(** The matcher is exact on every key of the cache. *)
Definition exact_on_keys (source : string) (re : RegExp.t) (c : PluginCache.t) : bool :=
  forallb (fun kv => RegExp.exact source re kv.1) (map_to_list (PluginCache.entries c)).

(** [cache.invalidatePattern(new RegExp(source))]; a regular-expression
    literal [/source/] is its source compiled.  The call leaves the model
    when the pattern is outside the fragment, or when the matcher is not
    exact on some key of the cache. *)
Definition cache_invalidatePattern (source : string) : M nat :=
  fun st =>
    match RegExp.compile source with
    | RegExp.Regex re =>
        if exact_on_keys source re (cache st) then
          let (n, c) := PluginCache.invalidatePattern re (cache st) in
          (Ok n, with_cache c st)
        else (Throw Unmodelled, st)
    | RegExp.Invalid => (Throw SyntaxError, st)
    | RegExp.Unsupported => (Throw Unmodelled, st)
    end.

(** ** The client *)

(** The constructor of [ClickUpClient], from the parsed [config.json]. *)
Definition loadConfig (rawConfig : JValue) : Result ClickUpConfig :=
  bind_r (prop_r "clickup" rawConfig) (fun clickup =>
  bind_r
    (if truthy clickup then
       (* new format *)
       bind_r (prop_r "apiKey" clickup) (fun k =>
       bind_r (prop_r "teamId" clickup) (fun t => Ok (k, t)))
     else
       bind_r (prop_r "mcpServer" rawConfig) (fun mcpServer =>
       if truthy (opt_prop "env" mcpServer) then
         (* legacy MCP format *)
         bind_r (prop_r "env" mcpServer) (fun env =>
         bind_r (prop_r "CLICKUP_API_KEY" env) (fun k =>
         bind_r (prop_r "CLICKUP_TEAM_ID" env) (fun t =>
         if truthy t then Ok (k, t)
         else bind_r (prop_r "teamId" rawConfig) (fun t' => Ok (k, t')))))
       else Ok (JUndefined, JUndefined)))
    (fun kt =>
       if negb (truthy kt.1) || negb (truthy kt.2)
       then Throw (Error "Missing required config in config.json: clickup.apiKey, clickup.teamId")
       else Ok {| apiKey := kt.1; teamId := kt.2 |})).

(** [new ClickUpClient()] in the world: it reads the configuration and
    touches neither the network nor the cache. *)
Definition newClient (rawConfig : JValue) : M ClickUpConfig := lift (loadConfig rawConfig).

(** [v?.join(",")] *)
Definition opt_join (v : JValue) : Result JValue :=
  match v with
  | JUndefined | JNull => Ok JUndefined
  | JArr items => Ok (JStr (array_join "," items))
  | _ => Throw TypeError
  end.

(** [if (c) params.set(name, value)] *)
Definition set_when (c : bool) (name value : string) (p : URLSearchParams.t)
  : URLSearchParams.t :=
  if c then URLSearchParams.set name value p else p.

(** [if (v) v.forEach(x => params.append(name, x))] *)
Definition append_each (name : string) (v : JValue) (p : URLSearchParams.t)
  : Result URLSearchParams.t :=
  if truthy v then
    match v with
    | JArr items =>
        Ok (fold_left (fun acc x => URLSearchParams.append name (to_string x) acc) items p)
    | _ => Throw TypeError
    end
  else Ok p.

(** [`${path}${queryString ? `?${queryString}` : ""}`] *)
Definition with_query (path : string) (params : URLSearchParams.t) : string :=
  let queryString := URLSearchParams.toString params in
  path +:+ (if String.eqb queryString "" then "" else "?" +:+ queryString).

Definition getTasks_cacheParams (listId options : JValue) : Result (list (string * JValue)) :=
  let o k := opt_prop k options in
  bind_r (opt_join (o "statuses")) (fun statuses =>
  bind_r (opt_join (o "assignees")) (fun assignees =>
  Ok [ ("list", listId);
       ("archived", o "archived");
       ("include_closed", o "include_closed");
       ("page", o "page");
       ("order_by", o "order_by");
       ("reverse", o "reverse");
       ("subtasks", o "subtasks");
       ("statuses", statuses);
       ("assignees", assignees);
       ("due_date_gt", o "due_date_gt");
       ("due_date_lt", o "due_date_lt");
       ("date_created_gt", o "date_created_gt");
       ("date_created_lt", o "date_created_lt");
       ("date_updated_gt", o "date_updated_gt");
       ("date_updated_lt", o "date_updated_lt") ])).

Definition getTasks_params (options : JValue) : Result URLSearchParams.t :=
  let o k := opt_prop k options in
  let p := URLSearchParams.empty in
  let p := set_when (negb (is_undefined (o "archived"))) "archived" (to_string (o "archived")) p in
  let p := set_when (truthy (o "include_closed")) "include_closed" "true" p in
  let p := set_when (negb (is_undefined (o "page"))) "page" (to_string (o "page")) p in
  let p := set_when (truthy (o "order_by")) "order_by" (to_string (o "order_by")) p in
  let p := set_when (truthy (o "reverse")) "reverse" "true" p in
  let p := set_when (truthy (o "subtasks")) "subtasks" "true" p in
  bind_r (append_each "statuses[]" (o "statuses") p) (fun p =>
  bind_r (append_each "assignees[]" (o "assignees") p) (fun p =>
  let p := set_when (truthy (o "due_date_gt")) "due_date_gt" (to_string (o "due_date_gt")) p in
  let p := set_when (truthy (o "due_date_lt")) "due_date_lt" (to_string (o "due_date_lt")) p in
  let p := set_when (truthy (o "date_created_gt")) "date_created_gt"
             (to_string (o "date_created_gt")) p in
  let p := set_when (truthy (o "date_created_lt")) "date_created_lt"
             (to_string (o "date_created_lt")) p in
  let p := set_when (truthy (o "date_updated_gt")) "date_updated_gt"
             (to_string (o "date_updated_gt")) p in
  let p := set_when (truthy (o "date_updated_lt")) "date_updated_lt"
             (to_string (o "date_updated_lt")) p in
  Ok p)).

Definition getTasks_endpoint (listId options : JValue) : Result string :=
  bind_r (getTasks_params options) (fun params =>
  Ok (with_query ("/list/" +:+ to_string listId +:+ "/task") params)).

Definition searchTasks_cacheParams (query options : JValue) : Result (list (string * JValue)) :=
  let o k := opt_prop k options in
  bind_r (opt_join (o "list_ids")) (fun list_ids =>
  bind_r (opt_join (o "space_ids")) (fun space_ids =>
  bind_r (opt_join (o "folder_ids")) (fun folder_ids =>
  bind_r (opt_join (o "statuses")) (fun statuses =>
  Ok [ ("query", query);
       ("include_closed", o "include_closed");
       ("assigned_to_me", o "assigned_to_me");
       ("list_ids", list_ids);
       ("space_ids", space_ids);
       ("folder_ids", folder_ids);
       ("statuses", statuses);
       ("page", o "page") ])))).

Definition searchTasks_params (query options : JValue) : Result URLSearchParams.t :=
  let o k := opt_prop k options in
  let p := URLSearchParams.empty in
  let p := set_when (truthy query) "query" (to_string query) p in
  let p := set_when (truthy (o "include_closed")) "include_closed" "true" p in
  let p := set_when (negb (is_undefined (o "page"))) "page" (to_string (o "page")) p in
  bind_r (append_each "list_ids[]" (o "list_ids") p) (fun p =>
  bind_r (append_each "space_ids[]" (o "space_ids") p) (fun p =>
  bind_r (append_each "folder_ids[]" (o "folder_ids") p) (fun p =>
  bind_r (append_each "statuses[]" (o "statuses") p) (fun p =>
  Ok p)))).

Definition getTaskComments_params (options : JValue) : URLSearchParams.t :=
  let o k := opt_prop k options in
  let p := URLSearchParams.empty in
  let p := set_when (truthy (o "start")) "start" (to_string (o "start")) p in
  let p := set_when (truthy (o "start_id")) "start_id" (to_string (o "start_id")) p in
  p.

Definition getTimeEntries_params (options : JValue) : URLSearchParams.t :=
  let o k := opt_prop k options in
  let p := URLSearchParams.empty in
  let p := set_when (truthy (o "start_date")) "start_date" (to_string (o "start_date")) p in
  let p := set_when (truthy (o "end_date")) "end_date" (to_string (o "end_date")) p in
  let p := set_when (truthy (o "assignee")) "assignee" (to_string (o "assignee")) p in
  let p := set_when (truthy (o "include_task_tags")) "include_task_tags" "true" p in
  let p := set_when (truthy (o "include_location_names")) "include_location_names" "true" p in
  let p := set_when (truthy (o "space_id")) "space_id" (to_string (o "space_id")) p in
  let p := set_when (truthy (o "folder_id")) "folder_id" (to_string (o "folder_id")) p in
  let p := set_when (truthy (o "list_id")) "list_id" (to_string (o "list_id")) p in
  let p := set_when (truthy (o "task_id")) "task_id" (to_string (o "task_id")) p in
  p.

(** The key under which [getTask] caches. *)
Definition getTask_cacheKey (taskId : JValue) (includeMarkdown : bool) : string :=
  createCacheKey "task" [("id", taskId); ("markdown", JBool includeMarkdown)].

(** The key under which [getTaskComments] caches: [{ task: taskId, ...options }]. *)
Definition getTaskComments_cacheKey (taskId options : JValue) : string :=
  createCacheKey "comments" (spread [("task", taskId)] options).

Section ClickUpClient.

Context (net : Network) (config : ClickUpConfig).

Definition baseUrl : string := "https://api.clickup.com/api/v2".

(** [request(method, endpoint, body)]: one [fetch]; a response that is not
    [ok] throws an [Error] made of the status and the body text. *)
Definition request (method endpoint : string) (body : JValue) : M JValue :=
  fun st =>
    let req :=
      {| req_method := method;
         req_url := baseUrl +:+ endpoint;
         req_headers := [ ("Authorization", to_string (apiKey config));
                          ("Content-Type", "application/json") ];
         req_body := if truthy body then Some body else None |} in
    let response := net (sent st) req in
    let st' := with_sent (sent st ++ [req])%list st in
    if ok response then
      match json response with
      | Some v => (Ok v, st')
      | None => (Throw SyntaxError, st')
      end
    else
      (Throw (Error ("ClickUp API error (" +:+ pretty (status response) +:+ "): "
                     +:+ text response)), st').

(** [disableCache()], [enableCache()], [clearCache()], [invalidateCacheKey(key)] *)
Definition disableCache : M unit :=
  fun st => (Ok tt, with_cache (PluginCache.disable (cache st)) (with_cacheDisabled true st)).

Definition enableCache : M unit :=
  fun st => (Ok tt, with_cache (PluginCache.enable (cache st)) (with_cacheDisabled false st)).

Definition clearCache : M nat :=
  fun st => let (n, c) := PluginCache.clear (cache st) in (Ok n, with_cache c st).

Definition invalidateCacheKey (key : string) : M bool := cache_invalidate key.

(** [(await this.request("GET", endpoint)).field || []] *)
Definition fetch_list (endpoint field : string) : M JValue :=
  let* result := request "GET" endpoint JUndefined in
  let* items := lift (prop_r field result) in
  ret (or_else items (JArr [])).

Definition getSpaces : M JValue :=
  cached "spaces" TTL.HOUR
    (fetch_list ("/team/" +:+ to_string (teamId config) +:+ "/space") "spaces").

Definition getSpace (spaceId : JValue) : M JValue :=
  let cacheKey := createCacheKey "space" [("id", spaceId)] in
  cached cacheKey TTL.HOUR (request "GET" ("/space/" +:+ to_string spaceId) JUndefined).

Definition getFolders (spaceId : JValue) : M JValue :=
  let cacheKey := createCacheKey "folders" [("space", spaceId)] in
  cached cacheKey TTL.FIFTEEN_MINUTES
    (fetch_list ("/space/" +:+ to_string spaceId +:+ "/folder") "folders").

Definition getLists (folderId : JValue) : M JValue :=
  let cacheKey := createCacheKey "lists" [("folder", folderId)] in
  cached cacheKey TTL.FIFTEEN_MINUTES
    (fetch_list ("/folder/" +:+ to_string folderId +:+ "/list") "lists").

Definition getFolderlessLists (spaceId : JValue) : M JValue :=
  let cacheKey := createCacheKey "folderless_lists" [("space", spaceId)] in
  cached cacheKey TTL.FIFTEEN_MINUTES
    (fetch_list ("/space/" +:+ to_string spaceId +:+ "/list") "lists").

Definition getList (listId : JValue) : M JValue :=
  let cacheKey := createCacheKey "list" [("id", listId)] in
  cached cacheKey TTL.FIFTEEN_MINUTES (request "GET" ("/list/" +:+ to_string listId) JUndefined).

Definition getTasks (listId options : JValue) : M JValue :=
  let* cacheParams := lift (getTasks_cacheParams listId options) in
  let cacheKey := createCacheKey "tasks" cacheParams in
  cached cacheKey TTL.FIVE_MINUTES
    (let* endpoint := lift (getTasks_endpoint listId options) in
     fetch_list endpoint "tasks").

Definition getTask (taskId : JValue) (includeMarkdown : bool) : M JValue :=
  let cacheKey := getTask_cacheKey taskId includeMarkdown in
  cached cacheKey TTL.FIVE_MINUTES
    (let params := if includeMarkdown then "?include_markdown_description=true" else "" in
     request "GET" ("/task/" +:+ to_string taskId +:+ params) JUndefined).

Definition searchTasks_endpoint (query options : JValue) : Result string :=
  bind_r (searchTasks_params query options) (fun params =>
  Ok (with_query ("/team/" +:+ to_string (teamId config) +:+ "/task") params)).

Definition searchTasks (query options : JValue) : M JValue :=
  let* cacheParams := lift (searchTasks_cacheParams query options) in
  let cacheKey := createCacheKey "search" cacheParams in
  cached cacheKey TTL.FIVE_MINUTES
    (let* endpoint := lift (searchTasks_endpoint query options) in
     fetch_list endpoint "tasks").

Definition getTaskComments (taskId options : JValue) : M JValue :=
  let cacheKey := getTaskComments_cacheKey taskId options in
  cached cacheKey TTL.FIVE_MINUTES
    (fetch_list
       (with_query ("/task/" +:+ to_string taskId +:+ "/comment")
          (getTaskComments_params options))
       "comments").

Definition getTimeEntries (options : JValue) : M JValue :=
  let cacheKey := createCacheKey "time_entries" (own_fields (or_else options (JObj []))) in
  cached cacheKey TTL.FIVE_MINUTES
    (fetch_list
       (with_query ("/team/" +:+ to_string (teamId config) +:+ "/time_entries")
          (getTimeEntries_params options))
       "data").

Definition getAuthorizedUser : M JValue :=
  cached "authorized_user" TTL.HOUR
    (let* result := request "GET" "/user" JUndefined in
     lift (prop_r "user" result)).

(** [items.map(m => m.user)] *)
Fixpoint map_user (items : list JValue) : Result (list JValue) :=
  match items with
  | [] => Ok []
  | m :: rest =>
      bind_r (prop_r "user" m) (fun u =>
      bind_r (map_user rest) (fun us => Ok (u :: us)))
  end.

Definition getTeamMembers : M JValue :=
  cached "team_members" TTL.HOUR
    (let* result := request "GET" ("/team/" +:+ to_string (teamId config)) JUndefined in
     let* members := lift (prop_r "members" result) in
     match or_else members (JArr []) with
     | JArr items => let* users := lift (map_user items) in ret (JArr users)
     | _ => throw TypeError
     end).

(** *** Mutations *)

Definition createTask (listId data : JValue) : M JValue :=
  let* result := request "POST" ("/list/" +:+ to_string listId +:+ "/task") data in
  cache_invalidatePattern "^tasks" >>
  cache_invalidatePattern "^search" >>
  ret result.

Definition updateTask (taskId data : JValue) : M JValue :=
  let* result := request "PUT" ("/task/" +:+ to_string taskId) data in
  cache_invalidate (getTask_cacheKey taskId false) >>
  cache_invalidate (getTask_cacheKey taskId true) >>
  cache_invalidatePattern "^tasks" >>
  cache_invalidatePattern "^search" >>
  ret result.

Definition deleteTask (taskId : JValue) : M unit :=
  request "DELETE" ("/task/" +:+ to_string taskId) JUndefined >>
  cache_invalidatePattern "^task" >>
  cache_invalidatePattern "^search" >>
  ret tt.

Definition addComment (taskId commentText : JValue) (notifyAll : bool) : M JValue :=
  let* result :=
    request "POST" ("/task/" +:+ to_string taskId +:+ "/comment")
      (JObj [("comment_text", commentText); ("notify_all", JBool notifyAll)]) in
  cache_invalidatePattern ("^comments.*task=" +:+ to_string taskId) >>
  ret result.

Definition createTimeEntry (taskId data : JValue) : M JValue :=
  let* result :=
    request "POST" ("/team/" +:+ to_string (teamId config) +:+ "/time_entries")
      (JObj (set_field "tid" taskId (spread [] data))) in
  cache_invalidatePattern "^time_entries" >>
  ret result.

(** *** Helpers *)

(** [{ ...list, spaceName }] and [{ ...list, spaceName, folderName }] *)
Definition annotate_space (spaceName list : JValue) : JValue :=
  JObj (set_field "spaceName" spaceName (spread [] list)).

Definition annotate_folder (spaceName folderName list : JValue) : JValue :=
  JObj (set_field "folderName" folderName
          (set_field "spaceName" spaceName (spread [] list))).

(** [for (const list of lists) allLists.push(f(list))]; the annotation reads
    [space.name] (and [folder.name]) once per pushed list. *)
Definition push_each (f : JValue -> Result JValue) (lists : list JValue)
  : list JValue -> M (list JValue) :=
  for_of lists (fun list allLists =>
    let* item := lift (f list) in ret (allLists ++ [item])%list).

Definition getAllLists : M JValue :=
  let* spaces := getSpaces in
  let* spaces := lift (iterate spaces) in
  let* allLists :=
    for_of spaces (fun space allLists =>
      let* spaceId := lift (prop_r "id" space) in
      let* folderlessLists := getFolderlessLists spaceId in
      let* folderlessLists := lift (iterate folderlessLists) in
      let* allLists :=
        push_each (fun list =>
          bind_r (prop_r "name" space) (fun spaceName =>
          Ok (annotate_space spaceName list))) folderlessLists allLists in
      let* folders := getFolders spaceId in
      let* folders := lift (iterate folders) in
      for_of folders (fun folder allLists =>
        let* folderId := lift (prop_r "id" folder) in
        let* lists := getLists folderId in
        let* lists := lift (iterate lists) in
        push_each (fun list =>
          bind_r (prop_r "name" space) (fun spaceName =>
          bind_r (prop_r "name" folder) (fun folderName =>
          Ok (annotate_folder spaceName folderName list)))) lists allLists)
        allLists)
      [] in
  ret (JArr allLists).

End ClickUpClient.

(** ** The operations as data

    One constructor per method of the client that talks to the remote
    service, so that statements can range over "every operation". *)

Inductive ReadOp : Type :=
| GetSpaces
| GetSpace (spaceId : JValue)
| GetFolders (spaceId : JValue)
| GetLists (folderId : JValue)
| GetFolderlessLists (spaceId : JValue)
| GetList (listId : JValue)
| GetTasks (listId options : JValue)
| GetTask (taskId : JValue) (includeMarkdown : bool)
| SearchTasks (query options : JValue)
| GetTaskComments (taskId options : JValue)
| GetTimeEntries (options : JValue)
| GetAuthorizedUser
| GetTeamMembers.

Inductive WriteOp : Type :=
| CreateTask (listId data : JValue)
| UpdateTask (taskId data : JValue)
| DeleteTask (taskId : JValue)
| AddComment (taskId commentText : JValue) (notifyAll : bool)
| CreateTimeEntry (taskId data : JValue).

Definition read (net : Network) (config : ClickUpConfig) (op : ReadOp) : M JValue :=
  match op with
  | GetSpaces => getSpaces net config
  | GetSpace spaceId => getSpace net config spaceId
  | GetFolders spaceId => getFolders net config spaceId
  | GetLists folderId => getLists net config folderId
  | GetFolderlessLists spaceId => getFolderlessLists net config spaceId
  | GetList listId => getList net config listId
  | GetTasks listId options => getTasks net config listId options
  | GetTask taskId includeMarkdown => getTask net config taskId includeMarkdown
  | SearchTasks query options => searchTasks net config query options
  | GetTaskComments taskId options => getTaskComments net config taskId options
  | GetTimeEntries options => getTimeEntries net config options
  | GetAuthorizedUser => getAuthorizedUser net config
  | GetTeamMembers => getTeamMembers net config
  end.

Definition write (net : Network) (config : ClickUpConfig) (op : WriteOp) : M JValue :=
  match op with
  | CreateTask listId data => createTask net config listId data
  | UpdateTask taskId data => updateTask net config taskId data
  | DeleteTask taskId => deleteTask net config taskId >> ret JUndefined
  | AddComment taskId commentText notifyAll =>
      addComment net config taskId commentText notifyAll
  | CreateTimeEntry taskId data => createTimeEntry net config taskId data
  end.

(** The message of the [Error] that [request] throws on a response. *)
Definition api_error_message (r : Response) : string :=
  "ClickUp API error (" +:+ pretty (status r) +:+ "): " +:+ text r.

(** The request that [request(method, endpoint, body)] sends. *)
Definition request_of (config : ClickUpConfig) (method endpoint : string) (body : JValue)
  : Request :=
  {| req_method := method;
     req_url := baseUrl +:+ endpoint;
     req_headers := [ ("Authorization", to_string (apiKey config));
                      ("Content-Type", "application/json") ];
     req_body := if truthy body then Some body else None |}.

(** A computation surfaces remote errors when, in each of its runs, a
    response that is not [ok] ends it: the request that got it is the last
    one sent and the run throws the [Error] made from that response. *)
Definition surfaces (net : Network) {A} (m : M A) : Prop :=
  forall st r st', m st = (r, st') ->
    exists new, sent st' = sent st ++ new /\
      forall i req, new !! i = Some req ->
        let response := net (sent st ++ take i new) req in
        ok response = false ->
        S i = length new /\ r = Throw (Error (api_error_message response)).

(** ** The two configuration shapes, as the documentation names them *)

(** [{ clickup: { apiKey, teamId } }] *)
Definition direct_shape (rawConfig : JValue) : JValue * JValue :=
  let clickup := opt_prop "clickup" rawConfig in
  (opt_prop "apiKey" clickup, opt_prop "teamId" clickup).

(** [{ mcpServer: { env: { CLICKUP_API_KEY, CLICKUP_TEAM_ID } } }], the
    workspace falling back to a top-level [teamId]. *)
Definition legacy_shape (rawConfig : JValue) : JValue * JValue :=
  let env := opt_prop "env" (opt_prop "mcpServer" rawConfig) in
  (opt_prop "CLICKUP_API_KEY" env,
   or_else (opt_prop "CLICKUP_TEAM_ID" env) (opt_prop "teamId" rawConfig)).

(** A shape yields both values when neither is missing or empty. *)
Definition yields_both (shape : JValue * JValue) : bool :=
  truthy shape.1 && truthy shape.2.

Definition config_of (shape : JValue * JValue) : ClickUpConfig :=
  {| apiKey := shape.1; teamId := shape.2 |}.

Definition missing_config : Exn :=
  Error "Missing required config in config.json: clickup.apiKey, clickup.teamId".

(** ** Concrete worlds used in examples *)

Module Examples.

Definition config : ClickUpConfig := {| apiKey := JStr "pk_1"; teamId := JStr "9001" |}.

(** A service that knows no task. *)
Definition net_404 : Network :=
  fun _ _ => {| status := 404; text := "Task not found"; json := None |}.

(** A service that answers every request with an object holding empty
    collections. *)
Definition empty_result : JValue := JObj [("tasks", JArr []); ("comments", JArr [])].

Definition net_empty : Network :=
  fun _ _ => {| status := 200; text := "{}"; json := Some empty_result |}.

(** A direct shape without workspace next to a complete legacy shape. *)
Definition shadowed_config : JValue :=
  JObj [ ("clickup", JObj [("apiKey", JStr "pk_1")]);
         ("mcpServer",
          JObj [("env", JObj [ ("CLICKUP_API_KEY", JStr "pk_2");
                               ("CLICKUP_TEAM_ID", JStr "9001") ])]) ].

Definition direct_config : JValue :=
  JObj [ ("clickup", JObj [("apiKey", JStr "pk_1"); ("teamId", JStr "9001")]) ].

(** States of a process that started at time 0 and made one read. *)
Definition tasks_cached : State :=
  (getTasks net_empty config (JStr "L1") (JObj []) (initial 0)).2.

Definition task_cached : State :=
  (getTask net_empty config (JStr "t1") true (initial 0)).2.

Definition comments_cached (taskId : string) : State :=
  (getTaskComments net_empty config (JStr taskId) JUndefined (initial 0)).2.

Definition new_task : JValue := JObj [("name", JStr "x")].

(** A workspace with one space, one folderless list and two folders; the
    folderless list is also reported under the first folder, and both
    folders report the same list. *)
Definition workspace_answer (url : string) : JValue :=
  let inbox := JObj [("id", JStr "l1"); ("name", JStr "Inbox")] in
  let roadmap := JObj [("id", JStr "l2"); ("name", JStr "Roadmap")] in
  if String.eqb url "https://api.clickup.com/api/v2/team/9001/space" then
    JObj [("spaces", JArr [JObj [("id", JStr "s1"); ("name", JStr "Ops")]])]
  else if String.eqb url "https://api.clickup.com/api/v2/space/s1/list" then
    JObj [("lists", JArr [inbox])]
  else if String.eqb url "https://api.clickup.com/api/v2/space/s1/folder" then
    JObj [("folders", JArr [ JObj [("id", JStr "f1"); ("name", JStr "Q1")];
                             JObj [("id", JStr "f2"); ("name", JStr "Q2")] ])]
  else if String.eqb url "https://api.clickup.com/api/v2/folder/f1/list" then
    JObj [("lists", JArr [roadmap; inbox])]
  else if String.eqb url "https://api.clickup.com/api/v2/folder/f2/list" then
    JObj [("lists", JArr [roadmap])]
  else JObj [].

Definition net_workspace : Network :=
  fun _ req => {| status := 200; text := ""; json := Some (workspace_answer (req_url req)) |}.

(** Two option objects that differ only in how an array of statuses is cut:
    one status [a,b], or the two statuses [a] and [b]. *)
Definition one_status : JValue := JObj [("statuses", JArr [JStr "a,b"])].
Definition two_statuses : JValue := JObj [("statuses", JArr [JStr "a"; JStr "b"])].

End Examples.

(** ** Vocabulary for query strings *)

(** [needle] occurs in [hay]. *)
Fixpoint is_infix (needle hay : string) : bool :=
  String.prefix needle hay ||
  match hay with
  | "" => false
  | String _ rest => is_infix needle rest
  end.

(** [params.getAll(name)] *)
Definition getAll (name : string) (p : URLSearchParams.t) : list string :=
  map snd (List.filter (fun nv => String.eqb nv.1 name) p).

(** The filters of [getTasks]: the scalar ones are sent under their own
    name, the array-valued ones under [name[]]. *)
Definition scalar_filters : list string :=
  [ "archived"; "include_closed"; "page"; "order_by"; "reverse"; "subtasks";
    "due_date_gt"; "due_date_lt"; "date_created_gt"; "date_created_lt";
    "date_updated_gt"; "date_updated_lt" ].

Definition array_filters : list string := [ "statuses"; "assignees" ].

Definition example_options : JValue :=
  JObj [ ("statuses", JArr [JStr "open"; JStr "review"]);
         ("due_date_lt", JNum 1700000000000) ].


(** Which query parameters [getTasks] sends: each name with the test the
    method makes before sending it. *)
Definition getTasks_presence (options : JValue) : list (string * bool) :=
  let o k := opt_prop k options in
  let is_array v := match v with JArr (_ :: _) => true | _ => false end in
  [ ("archived", negb (is_undefined (o "archived")));
    ("include_closed", truthy (o "include_closed"));
    ("page", negb (is_undefined (o "page")));
    ("order_by", truthy (o "order_by"));
    ("reverse", truthy (o "reverse"));
    ("subtasks", truthy (o "subtasks"));
    ("statuses[]", is_array (o "statuses"));
    ("assignees[]", is_array (o "assignees"));
    ("due_date_gt", truthy (o "due_date_gt"));
    ("due_date_lt", truthy (o "due_date_lt"));
    ("date_created_gt", truthy (o "date_created_gt"));
    ("date_created_lt", truthy (o "date_created_lt"));
    ("date_updated_gt", truthy (o "date_updated_gt"));
    ("date_updated_lt", truthy (o "date_updated_lt")) ].


(** ** The read operations, taken apart

    Every cached read has the same anatomy: a cache key, a lifetime, and a
    producer that sends one GET request to an endpoint and decodes the
    parsed response. *)

Definition read_key (op : ReadOp) : Result string :=
  match op with
  | GetSpaces => Ok "spaces"
  | GetSpace spaceId => Ok (createCacheKey "space" [("id", spaceId)])
  | GetFolders spaceId => Ok (createCacheKey "folders" [("space", spaceId)])
  | GetLists folderId => Ok (createCacheKey "lists" [("folder", folderId)])
  | GetFolderlessLists spaceId => Ok (createCacheKey "folderless_lists" [("space", spaceId)])
  | GetList listId => Ok (createCacheKey "list" [("id", listId)])
  | GetTasks listId options =>
      bind_r (getTasks_cacheParams listId options) (fun p => Ok (createCacheKey "tasks" p))
  | GetTask taskId includeMarkdown => Ok (getTask_cacheKey taskId includeMarkdown)
  | SearchTasks query options =>
      bind_r (searchTasks_cacheParams query options) (fun p => Ok (createCacheKey "search" p))
  | GetTaskComments taskId options => Ok (getTaskComments_cacheKey taskId options)
  | GetTimeEntries options =>
      Ok (createCacheKey "time_entries" (own_fields (or_else options (JObj []))))
  | GetAuthorizedUser => Ok "authorized_user"
  | GetTeamMembers => Ok "team_members"
  end.

Definition read_ttl (op : ReadOp) : Z :=
  match op with
  | GetSpaces | GetSpace _ | GetAuthorizedUser | GetTeamMembers => TTL.HOUR
  | GetFolders _ | GetLists _ | GetFolderlessLists _ | GetList _ => TTL.FIFTEEN_MINUTES
  | GetTasks _ _ | GetTask _ _ | SearchTasks _ _ | GetTaskComments _ _
  | GetTimeEntries _ => TTL.FIVE_MINUTES
  end.

Definition read_endpoint (config : ClickUpConfig) (op : ReadOp) : Result string :=
  match op with
  | GetSpaces => Ok ("/team/" +:+ to_string (teamId config) +:+ "/space")
  | GetSpace spaceId => Ok ("/space/" +:+ to_string spaceId)
  | GetFolders spaceId => Ok ("/space/" +:+ to_string spaceId +:+ "/folder")
  | GetLists folderId => Ok ("/folder/" +:+ to_string folderId +:+ "/list")
  | GetFolderlessLists spaceId => Ok ("/space/" +:+ to_string spaceId +:+ "/list")
  | GetList listId => Ok ("/list/" +:+ to_string listId)
  | GetTasks listId options => getTasks_endpoint listId options
  | GetTask taskId includeMarkdown =>
      Ok ("/task/" +:+ to_string taskId +:+
          (if includeMarkdown then "?include_markdown_description=true" else ""))
  | SearchTasks query options => searchTasks_endpoint config query options
  | GetTaskComments taskId options =>
      Ok (with_query ("/task/" +:+ to_string taskId +:+ "/comment")
            (getTaskComments_params options))
  | GetTimeEntries options =>
      Ok (with_query ("/team/" +:+ to_string (teamId config) +:+ "/time_entries")
            (getTimeEntries_params options))
  | GetAuthorizedUser => Ok "/user"
  | GetTeamMembers => Ok ("/team/" +:+ to_string (teamId config))
  end.

(** [result.field || []] *)
Definition list_field (field : string) (result : JValue) : Result JValue :=
  bind_r (prop_r field result) (fun items => Ok (or_else items (JArr []))).

Definition read_decode (op : ReadOp) (result : JValue) : Result JValue :=
  match op with
  | GetSpaces => list_field "spaces" result
  | GetFolders _ => list_field "folders" result
  | GetLists _ | GetFolderlessLists _ => list_field "lists" result
  | GetTasks _ _ | SearchTasks _ _ => list_field "tasks" result
  | GetTaskComments _ _ => list_field "comments" result
  | GetTimeEntries _ => list_field "data" result
  | GetSpace _ | GetList _ | GetTask _ _ => Ok result
  | GetAuthorizedUser => prop_r "user" result
  | GetTeamMembers =>
      bind_r (prop_r "members" result) (fun members =>
      match or_else members (JArr []) with
      | JArr items => bind_r (map_user items) (fun users => Ok (JArr users))
      | _ => Throw TypeError
      end)
  end.

(** What [request] makes of the answer to [req] after the requests [history]. *)
Definition answer (net : Network) (history : list Request) (req : Request) : Result JValue :=
  let response := net history req in
  if ok response then
    match json response with
    | Some v => Ok v
    | None => Throw SyntaxError
    end
  else Throw (Error (api_error_message response)).

(** The producer of a read: what the operation does on a cache miss. *)
Definition fetch (net : Network) (config : ClickUpConfig) (op : ReadOp) : M JValue :=
  let* endpoint := lift (read_endpoint config op) in
  let* result := request net config "GET" endpoint JUndefined in
  lift (read_decode op result).

(** A clock that moved on by [d]. *)
Definition later (d : Z) (st : State) : State := with_now (now st + d) st.


(** Caching switched off, as [disableCache()] leaves it. *)
Definition caching_off (st : State) : Prop :=
  cacheDisabled st = true /\ PluginCache.enabled (cache st) = false.

(** A fresh cache in use. *)
Definition fresh_cache (st : State) : Prop :=
  cache st = PluginCache.create /\ cacheDisabled st = false.


(** ** What a pattern matches *)

(** [Matches p s]: the whole of [s] matches [p]. *)
Inductive Matches : RegExp.Pattern -> string -> Prop :=
| MEmpty : Matches RegExp.PEmpty ""
| MChar c : Matches (RegExp.PChar c) (String c "")
| MAny c : RegExp.line_terminator c = false -> Matches RegExp.PAny (String c "")
| MSeq p q s1 s2 :
    Matches p s1 -> Matches q s2 -> Matches (RegExp.PSeq p q) (s1 +:+ s2)
| MAltL p q s : Matches p s -> Matches (RegExp.PAlt p q) s
| MAltR p q s : Matches q s -> Matches (RegExp.PAlt p q) s
| MStarNil p : Matches (RegExp.PStar p) ""
| MStarApp p s1 s2 :
    Matches p s1 -> Matches (RegExp.PStar p) s2 -> Matches (RegExp.PStar p) (s1 +:+ s2).

(** The pattern of a literal text read after [p]. *)
Fixpoint seq_literal (p : RegExp.Pattern) (text : string) : RegExp.Pattern :=
  match text with
  | "" => p
  | String c rest => seq_literal (RegExp.PSeq p (RegExp.PChar c)) rest
  end.

(** No character of [text] has a meaning in pattern syntax. *)
Fixpoint literal (text : string) : bool :=
  match text with
  | "" => true
  | String c rest => negb (RegExp.syntax_char c) && literal rest
  end.


(** ** Vocabulary for invalidation *)

(** The operation name under which a read caches. *)
Definition family (op : ReadOp) : string :=
  match op with
  | GetSpaces => "spaces"
  | GetSpace _ => "space"
  | GetFolders _ => "folders"
  | GetLists _ => "lists"
  | GetFolderlessLists _ => "folderless_lists"
  | GetList _ => "list"
  | GetTasks _ _ => "tasks"
  | GetTask _ _ => "task"
  | SearchTasks _ _ => "search"
  | GetTaskComments _ _ => "comments"
  | GetTimeEntries _ => "time_entries"
  | GetAuthorizedUser => "authorized_user"
  | GetTeamMembers => "team_members"
  end.

(** [c'] is [c] without the keys that [dropped] selects. *)
Definition without (dropped : string -> bool) (c c' : PluginCache.t) : Prop :=
  PluginCache.enabled c' = PluginCache.enabled c /\
  forall key,
    PluginCache.entries c' !! key =
    if dropped key then None else PluginCache.entries c !! key.

(** A [getOrFetch] that has to run its producer. *)
Definition must_refetch (key : string) (st : State) : Prop :=
  forall producer ttl bypass d,
    getOrFetch key producer ttl bypass (later d st) =
    match producer (later d st) with
    | (Ok v, st') =>
        (Ok v,
         if PluginCache.enabled (cache st')
         then with_cache (PluginCache.store key v (now st' + ttl) (cache st')) st'
         else st')
    | (Throw e, st') => (Throw e, st')
    end.

(** [re.test(key)] for the pattern source [source], when it compiles. *)
Definition pattern_test (source key : string) : bool :=
  match RegExp.compile source with
  | RegExp.Regex re => RegExp.test re key
  | _ => false
  end.


(** Which keys each mutation drops from the cache. *)
Definition dropped_by (op : WriteOp) (key : string) : bool :=
  match op with
  | CreateTask _ _ => String.prefix "tasks" key || String.prefix "search" key
  | UpdateTask taskId _ =>
      String.eqb (getTask_cacheKey taskId false) key
      || String.eqb (getTask_cacheKey taskId true) key
      || String.prefix "tasks" key || String.prefix "search" key
  | DeleteTask _ => String.prefix "task" key || String.prefix "search" key
  | AddComment taskId _ _ => pattern_test ("^comments.*task=" +:+ to_string taskId) key
  | CreateTimeEntry _ _ => String.prefix "time_entries" key
  end.


(** The families whose entries a mutation leaves alone. *)
Definition kept_families (op : WriteOp) : list string :=
  match op with
  | CreateTask _ _ =>
      [ "spaces"; "space"; "folders"; "lists"; "folderless_lists"; "list"; "task";
        "comments"; "time_entries"; "authorized_user"; "team_members" ]
  | UpdateTask _ _ =>
      [ "spaces"; "space"; "folders"; "lists"; "folderless_lists"; "list";
        "comments"; "time_entries"; "authorized_user"; "team_members" ]
  | DeleteTask _ =>
      [ "spaces"; "space"; "folders"; "lists"; "folderless_lists"; "list";
        "comments"; "time_entries"; "authorized_user"; "team_members" ]
  | AddComment _ _ _ =>
      [ "spaces"; "space"; "folders"; "lists"; "folderless_lists"; "list"; "tasks";
        "task"; "search"; "time_entries"; "authorized_user"; "team_members" ]
  | CreateTimeEntry _ _ =>
      [ "spaces"; "space"; "folders"; "lists"; "folderless_lists"; "list"; "tasks";
        "task"; "search"; "comments"; "authorized_user"; "team_members" ]
  end.


(** ** Vocabulary for cache keys *)

(** An options argument is [undefined] or an object with distinct keys. *)
Definition wf_options (options : JValue) : Prop :=
  match options with
  | JObj fields => NoDup (keys fields)
  | _ => True
  end.

(** Two options arguments with the same values: every property reads the
    same in both, whatever the order of the keys and whether a property
    is absent or present with the value [undefined]. *)
Definition same_options (o1 o2 : JValue) : Prop :=
  wf_options o1 /\ wf_options o2 /\ forall k, opt_prop k o1 = opt_prop k o2.

(** Two calls of the same read with the same parameters.  The options of
    [getTaskComments] are spread after [task] into one object, so they must
    not define [task] themselves (their type has [start] and [start_id]
    only). *)
Inductive same_call : ReadOp -> ReadOp -> Prop :=
| same_GetSpaces : same_call GetSpaces GetSpaces
| same_GetSpace spaceId : same_call (GetSpace spaceId) (GetSpace spaceId)
| same_GetFolders spaceId : same_call (GetFolders spaceId) (GetFolders spaceId)
| same_GetLists folderId : same_call (GetLists folderId) (GetLists folderId)
| same_GetFolderlessLists spaceId :
    same_call (GetFolderlessLists spaceId) (GetFolderlessLists spaceId)
| same_GetList listId : same_call (GetList listId) (GetList listId)
| same_GetTasks listId o1 o2 :
    same_options o1 o2 -> same_call (GetTasks listId o1) (GetTasks listId o2)
| same_GetTask taskId includeMarkdown :
    same_call (GetTask taskId includeMarkdown) (GetTask taskId includeMarkdown)
| same_SearchTasks query o1 o2 :
    same_options o1 o2 -> same_call (SearchTasks query o1) (SearchTasks query o2)
| same_GetTaskComments taskId o1 o2 :
    same_options o1 o2 ->
    ~ In "task" (keys (own_fields o1)) -> ~ In "task" (keys (own_fields o2)) ->
    same_call (GetTaskComments taskId o1) (GetTaskComments taskId o2)
| same_GetTimeEntries o1 o2 :
    same_options o1 o2 -> same_call (GetTimeEntries o1) (GetTimeEntries o2)
| same_GetAuthorizedUser : same_call GetAuthorizedUser GetAuthorizedUser
| same_GetTeamMembers : same_call GetTeamMembers GetTeamMembers.


(** No character of [s] is [c]. *)
Fixpoint free_of (c : ascii) (s : string) : bool :=
  match s with
  | "" => true
  | String d rest => negb (Ascii.eqb d c) && free_of c rest
  end.

(** The declared types of the optional filters. *)
Inductive FieldType : Type := TBool | TNum | TStr | TStrArr.

(** An element of an array-valued filter that survives being joined with
    [","] into a key written with ["&"]: a non-empty string without either
    character. *)
Definition plain_element (v : JValue) : bool :=
  match v with
  | JStr s => negb (String.eqb s "") && free_of "," s && free_of "&" s
  | _ => false
  end.

(** [v] is [undefined] or a value of the declared type, strings being free
    of ["&"]. *)
Definition has_type (ty : FieldType) (v : JValue) : bool :=
  match v, ty with
  | JUndefined, _ => true
  | JBool _, TBool => true
  | JNum _, TNum => true
  | JStr s, TStr => free_of "&" s
  | JArr items, TStrArr => forallb plain_element items
  | _, _ => false
  end.

(** The declared parameters of [getTasks] and [searchTasks], in the order
    of their cache parameters. *)
Definition getTasks_schema : list (string * FieldType) :=
  [ ("list", TStr); ("archived", TBool); ("include_closed", TBool); ("page", TNum);
    ("order_by", TStr); ("reverse", TBool); ("subtasks", TBool); ("statuses", TStrArr);
    ("assignees", TStrArr); ("due_date_gt", TNum); ("due_date_lt", TNum);
    ("date_created_gt", TNum); ("date_created_lt", TNum); ("date_updated_gt", TNum);
    ("date_updated_lt", TNum) ].

Definition searchTasks_schema : list (string * FieldType) :=
  [ ("query", TStr); ("include_closed", TBool); ("assigned_to_me", TBool);
    ("list_ids", TStrArr); ("space_ids", TStrArr); ("folder_ids", TStrArr);
    ("statuses", TStrArr); ("page", TNum) ].

(** The arguments of a call as one record of named values: the first
    argument under the name its cache parameter has, the options under
    their own names. *)
Definition argument (first : string) (x options : JValue) (name : string) : JValue :=
  if String.eqb name first then x else opt_prop name options.

Definition well_typed (schema : list (string * FieldType)) (args : string -> JValue) : bool :=
  forallb (fun ft => has_type ft.2 (args ft.1)) schema.

(** How a cache parameter shows in the key: not at all when [undefined]. *)
Definition shown (v : JValue) : option string :=
  if is_undefined v then None else Some (to_string v).

(** The cache parameter made of an argument: arrays are joined. *)
Definition cache_param (ty : FieldType) (v : JValue) : JValue :=
  match ty, v with
  | TStrArr, JArr items => JStr (array_join "," items)
  | TStrArr, _ => JUndefined
  | _, _ => v
  end.


(** ** Vocabulary for the workspace traversal *)

(** The reads that [getAllLists] makes. *)
Definition hierarchy (op : ReadOp) : Prop :=
  match op with
  | GetSpaces | GetFolderlessLists _ | GetFolders _ | GetLists _ => True
  | _ => False
  end.

(** A service whose answers do not depend on what it was asked before. *)
Definition stateless (net : Network) : Prop :=
  forall history1 history2 req, net history1 req = net history2 req.

(** What the reads of the hierarchy return in a state. *)
Definition served (net : Network) (config : ClickUpConfig) (st : State) (op : ReadOp)
  : Result JValue :=
  (read net config op st).1.

(** The requests of a sequence of reads that all reach the network. *)
Definition requests (config : ClickUpConfig) (ops : list ReadOp) : list Request :=
  flat_map (fun op =>
              match read_endpoint config op with
              | Ok endpoint => [request_of config "GET" endpoint JUndefined]
              | Throw _ => []
              end) ops.

(** [items.map(f)] for an [f] that may throw: the first failure wins. *)
Fixpoint map_r {A B} (f : A -> Result B) (items : list A) : Result (list B) :=
  match items with
  | [] => Ok []
  | x :: rest => bind_r (f x) (fun y => bind_r (map_r f rest) (fun ys => Ok (y :: ys)))
  end.

Section Traversal.

(** What each read of the hierarchy returns. *)
Context (view : ReadOp -> Result JValue).

(** The lists of one folder, annotated with the space and folder names. *)
Definition lists_of_folder (space folder : JValue) : Result (list JValue) :=
  bind_r (prop_r "id" folder) (fun folderId =>
  bind_r (view (GetLists folderId)) (fun lists =>
  bind_r (iterate lists) (fun lists =>
  map_r (fun list =>
           bind_r (prop_r "name" space) (fun spaceName =>
           bind_r (prop_r "name" folder) (fun folderName =>
           Ok (annotate_folder spaceName folderName list)))) lists))).

(** The lists of one space: its folderless lists, annotated with the space
    name, then the lists of each of its folders in order. *)
Definition lists_of_space (space : JValue) : Result (list JValue) :=
  bind_r (prop_r "id" space) (fun spaceId =>
  bind_r (view (GetFolderlessLists spaceId)) (fun folderless =>
  bind_r (iterate folderless) (fun folderless =>
  bind_r (map_r (fun list =>
                   bind_r (prop_r "name" space) (fun spaceName =>
                   Ok (annotate_space spaceName list))) folderless) (fun direct =>
  bind_r (view (GetFolders spaceId)) (fun folders =>
  bind_r (iterate folders) (fun folders =>
  bind_r (map_r (lists_of_folder space) folders) (fun nested =>
  Ok (direct ++ concat nested)))))))).

(** All lists: those of each space, in the order of the spaces. *)
Definition all_lists : Result JValue :=
  bind_r (view GetSpaces) (fun spaces =>
  bind_r (iterate spaces) (fun spaces =>
  bind_r (map_r lists_of_space spaces) (fun per_space =>
  Ok (JArr (concat per_space))))).

(** The elements of what a read returned, and the [id] of a record. *)
Definition items_of (r : Result JValue) : list JValue :=
  match bind_r r iterate with
  | Ok items => items
  | Throw _ => []
  end.

Definition id_of (record : JValue) : JValue := opt_prop "id" record.

(** The reads of a traversal that succeeds, in order. *)
Definition reads_of_space (space : JValue) : list ReadOp :=
  GetFolderlessLists (id_of space) :: GetFolders (id_of space) ::
  map (fun folder => GetLists (id_of folder)) (items_of (view (GetFolders (id_of space)))).

Definition all_reads : list ReadOp :=
  GetSpaces :: flat_map reads_of_space (items_of (view GetSpaces)).

End Traversal.


(** The cached value a read would use, if any. *)
Definition hit (st : State) (key : string) : option JValue :=
  if PluginCache.enabled (cache st) && negb (cacheDisabled st)
  then PluginCache.peek (now st) key (cache st)
  else None.

(** What a read gets from a stateless service. *)
Definition fetched (net : Network) (config : ClickUpConfig) (op : ReadOp) : Result JValue :=
  bind_r (read_endpoint config op) (fun endpoint =>
  bind_r (answer net [] (request_of config "GET" endpoint JUndefined)) (read_decode op)).

(** The reads of the hierarchy return in [st] what [view] says. *)
Definition agrees (net : Network) (config : ClickUpConfig) (view : ReadOp -> Result JValue)
  (st : State) : Prop :=
  forall op, hierarchy op -> served net config st op = view op.

Definition from_ok {A B} (r : Result A) (f : A -> list B) : list B :=
  match r with
  | Ok a => f a
  | Throw _ => []
  end.

(** A computation tracks [view] when, from any state that agrees with
    [view], it returns [r], ends in a state that agrees with [view], and,
    caching being off and [r] a result, has sent exactly the requests of
    [reads] and left caching off. *)
Definition tracks (net : Network) (config : ClickUpConfig) (view : ReadOp -> Result JValue)
  {A} (m : M A) (r : Result A) (reads : list ReadOp) : Prop :=
  forall st, agrees net config view st ->
    (m st).1 = r /\
    agrees net config view (m st).2 /\
    (caching_off st ->
     caching_off (m st).2 /\
     forall a, r = Ok a -> sent (m st).2 = sent st ++ requests config reads).

(** ** Helper methods: [searchSpaces] *)

(** [s.toLowerCase()] on ASCII text: the letters [A] to [Z] become [a] to
    [z], every other character stays. *)
Definition lower_char (c : ascii) : ascii :=
  let n := N_of_ascii c in
  if ((65 <=? n) && (n <=? 90))%N then ascii_of_N (n + 32) else c.

Fixpoint lowercase (s : string) : string :=
  match s with
  | "" => ""
  | String c rest => String (lower_char c) (lowercase rest)
  end.

(** [v.toLowerCase()]: a TypeError unless [v] is a string; the case mapping
    of text outside ASCII is Unicode's, which is outside the model. *)
Definition toLowerCase (v : JValue) : Result string :=
  match v with
  | JStr s => if ascii_text s then Ok (lowercase s) else Throw Unmodelled
  | _ => Throw TypeError
  end.

(** [text.includes(needle)] *)
Definition includes (text needle : string) : bool := is_infix needle text.

(** [items.filter(f)] for an [f] that may throw: the first failure wins. *)
Fixpoint filter_r (f : JValue -> Result bool) (items : list JValue) : Result (list JValue) :=
  match items with
  | [] => Ok []
  | x :: rest =>
      bind_r (f x) (fun keep =>
      bind_r (filter_r f rest) (fun kept => Ok (if keep then x :: kept else kept)))
  end.

Section Helpers.

Context (net : Network) (config : ClickUpConfig).

Definition searchSpaces (query : JValue) : M JValue :=
  let* spaces := getSpaces net config in
  if negb (truthy query) then ret spaces
  else
    let* lowerQuery := lift (toLowerCase query) in
    match spaces with
    | JArr items =>
        let* kept :=
          lift (filter_r (fun s =>
                  bind_r (prop_r "name" s) (fun name =>
                  bind_r (toLowerCase name) (fun lowerName =>
                  Ok (includes lowerName lowerQuery)))) items) in
        ret (JArr kept)
    | _ => throw TypeError
    end.

End Helpers.

(** ** Vocabulary for the requests an operation sends *)

(** Every request of a run satisfies [P], and the run takes nothing off
    the log of requests. *)
Definition emits (P : Request -> Prop) {A} (m : M A) : Prop :=
  forall st r st', m st = (r, st') ->
    exists new, sent st' = sent st ++ new /\ Forall P new.

(** A request that only reads: a GET without body, to an address under the
    base URL, with the headers of [request]. *)
Definition read_only (config : ClickUpConfig) (req : Request) : Prop :=
  exists endpoint, req = request_of config "GET" endpoint JUndefined.

(** The one request of each mutation. *)
Definition write_request (config : ClickUpConfig) (op : WriteOp) : Request :=
  match op with
  | CreateTask listId data =>
      request_of config "POST" ("/list/" +:+ to_string listId +:+ "/task") data
  | UpdateTask taskId data =>
      request_of config "PUT" ("/task/" +:+ to_string taskId) data
  | DeleteTask taskId =>
      request_of config "DELETE" ("/task/" +:+ to_string taskId) JUndefined
  | AddComment taskId commentText notifyAll =>
      request_of config "POST" ("/task/" +:+ to_string taskId +:+ "/comment")
        (JObj [("comment_text", commentText); ("notify_all", JBool notifyAll)])
  | CreateTimeEntry taskId data =>
      request_of config "POST" ("/team/" +:+ to_string (teamId config) +:+ "/time_entries")
        (JObj (set_field "tid" taskId (spread [] data)))
  end.

(** Some part of [text] is [query] up to the case of ASCII letters. *)
Definition contains_ignoring_case (query text : string) : Prop :=
  exists before part after,
    text = before +:+ part +:+ after /\ lowercase part = lowercase query.

(** ** Vocabulary for query parameters *)

(** One optional parameter: sent when its test passes. *)
Definition param_if (c : bool) (name value : string) : URLSearchParams.t :=
  if c then [(name, value)] else [].

(** One parameter per element of an array-valued filter. *)
Definition params_each (name : string) (v : JValue) : URLSearchParams.t :=
  match v with
  | JArr items => map (fun x => (name, to_string x)) items
  | _ => []
  end.

(** What [if (v) v.forEach(...)] accepts: a falsy value or an array. *)
Definition listable (v : JValue) : bool :=
  match v with
  | JArr _ => true
  | _ => negb (truthy v)
  end.

(** ** Vocabulary for the pattern of [addComment] *)

(** No character of [s] is a line terminator: [.*] can run over [s]. *)
Fixpoint no_break (s : string) : bool :=
  match s with
  | "" => true
  | String c rest => negb (RegExp.line_terminator c) && no_break rest
  end.

(** The keys that the pattern [^comments.*task=<taskId>] selects when
    [taskId] is plain text: [comments], anything on one line, [task=<taskId>],
    anything. *)
Definition comments_key_of (taskId key : string) : Prop :=
  exists mid rest,
    no_break mid = true /\ key = "comments" +:+ mid +:+ "task=" +:+ taskId +:+ rest.

(** Pagination options whose names and values are on one line. *)
Definition one_line_options (options : JValue) : Prop :=
  forall k, In k (keys (own_fields options)) ->
    no_break k = true /\ no_break (to_string (opt_prop k options)) = true.

(** ** The command line ([clickup-cli])

    The handlers of [search], [get-task-description], [update-task] and
    [get-list], as functions of the parsed arguments and of the client, and
    the schema of [get-list] (schemas are written with zod: [z.string()]
    accepts strings and nothing else, [.optional()] also a missing value,
    and [.refine(p)] then asks for [p]).  Of the other commands,
    [get-time-entries] and [create-time-entry] compute with fractions of a
    number, which the integers of the model do not have, and the rest hand
    their arguments to one method of the client. *)

(** The property reads of one value, as in [const { a, b } = v] or in a
    row of reads [v.a], [v.b]: a TypeError on [null] and [undefined]. *)
Definition props (v : JValue) : Result (string -> JValue) :=
  if nullish v then Throw TypeError else Ok (fun k => opt_prop k v).

(** [if (c) o[k] = v] *)
Definition assign_when (c : bool) (k : string) (v : JValue)
    (fields : list (string * JValue)) : list (string * JValue) :=
  if c then set_field k v fields else fields.

Module Commands.

Section Handlers.

Context (net : Network) (config : ClickUpConfig).

(** [new Date(parseInt(v)).toISOString()], which the platform provides. *)
Context (iso_date : JValue -> Result JValue).

(** [(a) => a.username || a.email] *)
Definition assignee_name (a : JValue) : Result JValue :=
  bind_r (props a) (fun a => Ok (or_else (a "username") (a "email"))).

(** One row of the answer of [search]. *)
Definition task_summary (t : JValue) : Result JValue :=
  bind_r (props t) (fun t =>
  bind_r (if truthy (t "due_date") then iso_date (t "due_date") else Ok JNull)
    (fun due_date =>
  bind_r (match t "assignees" with
          | JUndefined | JNull => Ok JUndefined
          | JArr items => bind_r (map_r assignee_name items) (fun names => Ok (JArr names))
          | _ => Throw TypeError
          end) (fun assignees =>
  Ok (JObj [ ("id", t "id");
             ("name", t "name");
             ("status", opt_prop "status" (t "status"));
             ("priority", opt_prop "priority" (t "priority"));
             ("list", opt_prop "name" (t "list"));
             ("url", t "url");
             ("due_date", due_date);
             ("assignees", assignees) ])))).

(** The options that [search] hands to [searchTasks]. *)
Definition search_options (arg : string -> JValue) : JValue :=
  let includeClosed := negb (truthy (arg "excludeClosed")) in
  JObj [ ("include_closed", JBool includeClosed);
         ("list_ids", if truthy (arg "list") then JArr [arg "list"] else JUndefined);
         ("space_ids", if truthy (arg "space") then JArr [arg "space"] else JUndefined) ].

Definition search (args : JValue) : M JValue :=
  let* arg := lift (props args) in
  let* result :=
    searchTasks net config (or_else (arg "query") (JStr "")) (search_options arg) in
  match result with
  | JArr items =>
      let* tasks := lift (map_r task_summary items) in
      ret (JObj [("count", JNum (Z.of_nat (length items))); ("tasks", JArr tasks)])
  | _ => throw TypeError
  end.

Definition get_task_description (args : JValue) : M JValue :=
  let* arg := lift (props args) in
  let* task := getTask net config (arg "id") true in
  let* task := lift (props task) in
  ret (JObj [ ("id", task "id");
              ("name", task "name");
              ("description", or_else (task "description") (JStr ""));
              ("markdown_description",
               or_else (or_else (task "markdown_description") (task "description"))
                 (JStr ""));
              ("url", task "url");
              ("status", opt_prop "status" (task "status")) ]).

(** The object that [update-task] fills before it calls [updateTask]. *)
Definition update_task_updates (arg : string -> JValue) : list (string * JValue) :=
  let updates := [] in
  let updates := assign_when (truthy (arg "name")) "name" (arg "name") updates in
  let updates :=
    assign_when (truthy (arg "description")) "description" (arg "description") updates in
  let updates := assign_when (truthy (arg "priority")) "priority" (arg "priority") updates in
  let updates := assign_when (truthy (arg "status")) "status" (arg "status") updates in
  let updates := assign_when (truthy (arg "dueDate")) "due_date" (arg "dueDate") updates in
  let updates := assign_when (truthy (arg "list")) "list_id" (arg "list") updates in
  updates.

Definition update_task (args : JValue) : M JValue :=
  let* arg := lift (props args) in
  updateTask net config (arg "id") (JObj (update_task_updates arg)).

(** [z.string().optional()]: a string, or nothing. *)
Definition optional_string (v : JValue) : bool :=
  match v with
  | JUndefined | JStr _ => true
  | _ => false
  end.

(** The schema of [get-list],
    [z.object({ id: z.string().optional(), list: z.string().optional() })
      .refine((data) => data.id !== undefined || data.list !== undefined)]:
    an object whose [id] and [list] are strings when given, and on which
    the refinement holds. *)
Definition get_list_schema (args : JValue) : bool :=
  match args with
  | JObj _ =>
      optional_string (opt_prop "id" args) && optional_string (opt_prop "list" args)
      && (negb (is_undefined (opt_prop "id" args))
          || negb (is_undefined (opt_prop "list" args)))
  | _ => false
  end.

Definition get_list (args : JValue) : M JValue :=
  let* arg := lift (props args) in
  getList net config (or_else (arg "id") (arg "list")).

End Handlers.

End Commands.

(** The names under which [update-task] sends its arguments. *)
Definition update_task_fields : list (string * string) :=
  [ ("name", "name"); ("description", "description"); ("priority", "priority");
    ("status", "status"); ("due_date", "dueDate"); ("list_id", "list") ].

(** ** Vocabulary for a traversal served from the cache *)

(** The cache holds an entry under [key], alive or not. *)
Definition present (st : State) (key : string) : Prop :=
  is_Some (PluginCache.entries (cache st) !! key).

(** The cache holds an entry under the key of [op]. *)
Definition holds (st : State) (op : ReadOp) : Prop :=
  exists key, read_key op = Ok key /\ present st key.

(** [op] would be served from the cache. *)
Definition is_hit (st : State) (op : ReadOp) : Prop :=
  exists key v, read_key op = Ok key /\ hit st key = Some v.

(** Caching is on, the clock shows [t0], and every entry lives for at least
    fifteen minutes from [t0]. *)
Definition warm (t0 : Z) (st : State) : Prop :=
  PluginCache.enabled (cache st) = true /\
  cacheDisabled st = false /\
  now st = t0 /\
  forall key e,
    PluginCache.entries (cache st) !! key = Some e ->
    t0 + TTL.FIFTEEN_MINUTES <= PluginCache.expires e.

(** A computation that makes the reads [reads] when it returns [r]: from a
    warm state it leaves a warm state that still holds what it held and
    holds the entries of [reads]; and from a state in which all of [reads]
    would be served from the cache it changes nothing. *)
Definition replays (net : Network) (config : ClickUpConfig) (view : ReadOp -> Result JValue)
    (t0 : Z) {A} (m : M A) (r : Result A) (reads : list ReadOp) : Prop :=
  forall st, agrees net config view st ->
    (warm t0 st ->
     warm t0 (m st).2 /\
     (forall key, present st key -> present (m st).2 key) /\
     (forall a, r = Ok a -> forall op, In op reads -> holds (m st).2 op)) /\
    (forall a, r = Ok a -> (forall op, In op reads -> is_hit st op) -> m st = (Ok a, st)).

(** ** Vocabulary for the safety of the cache keys *)

(** The declared parameters of [getTaskComments], the task id under the
    name it has in the key, and of [getTimeEntries]. *)
Definition getTaskComments_schema : list (string * FieldType) :=
  [ ("task", TStr); ("start", TNum); ("start_id", TStr) ].

Definition getTimeEntries_schema : list (string * FieldType) :=
  [ ("start_date", TNum); ("end_date", TNum); ("assignee", TNum);
    ("include_task_tags", TBool); ("include_location_names", TBool);
    ("space_id", TStr); ("folder_id", TStr); ("list_id", TStr); ("task_id", TStr) ].

(** [options] is left out, or is an object that has each of its properties
    once and only properties among [names]. *)
Definition declared (names : list string) (options : JValue) : Prop :=
  match options with JUndefined | JObj _ => True | _ => False end /\
  NoDup (keys (own_fields options)) /\
  forall k, In k (keys (own_fields options)) -> In k names.

(** The arguments of a read have their declared types.  The reads of one
    identifier take any value; the options of [getTaskComments] and of
    [getTimeEntries], which go into the key as they are, have declared
    properties only. *)
Definition typed_call (op : ReadOp) : Prop :=
  match op with
  | GetTasks listId options =>
      well_typed getTasks_schema (argument "list" listId options) = true
  | SearchTasks query options =>
      well_typed searchTasks_schema (argument "query" query options) = true
  | GetTaskComments taskId options =>
      declared ["start"; "start_id"] options /\
      well_typed getTaskComments_schema (argument "task" taskId options) = true
  | GetTimeEntries options =>
      declared getTimeEntries_schema.*1 options /\
      well_typed getTimeEntries_schema (fun k => opt_prop k options) = true
  | _ => True
  end.

(** ** Vocabulary for the limits of the pattern fragment *)

(** Every key of the cache is ASCII text. *)
Definition ascii_keys (st : State) : bool :=
  forallb (fun kv => ascii_text kv.1) (map_to_list (PluginCache.entries (cache st))).

(** A character that the fragment of [RegExp] reads: an ASCII character
    other than [^], [$], the backslash, [(], [)], the square brackets, the
    braces and [|]. *)
Definition fragment_char (c : ascii) : bool :=
  (N_of_ascii c <? 128)%N &&
  negb (existsb (Ascii.eqb c) ["^"; "$"; "\"; "("; ")"; "["; "]"; "{"; "}"; "|"]%char).

Fixpoint fragment_text (s : string) : bool :=
  match s with
  | "" => true
  | String c rest => fragment_char c && fragment_text rest
  end.

(** The calls whose invalidation the model covers.  The task id of
    [updateTask] and of [addComment] is a string, as declared; that of
    [addComment], which becomes pattern text, is text of the fragment, and
    the keys of the cache are then ASCII text. *)
Definition in_model (w : WriteOp) (st : State) : bool :=
  match w with
  | UpdateTask (JStr _) _ => true
  | UpdateTask _ _ => false
  | AddComment (JStr taskId) _ _ => fragment_text taskId && ascii_keys st
  | AddComment _ _ _ => false
  | _ => true
  end.

(** A computation that, run from [st], stays in the model: it returns, or
    throws what the program throws. *)
Definition covered {A} (m : M A) (st : State) : Prop :=
  forall e st', m st = (Throw e, st') -> e <> Unmodelled.

(** ** Vocabulary for the traversal as a sequence of reads *)

(** The reads of [trace], made one after the other from [st], each from the
    state the one before left, returned the values paired with them and
    left [st']. *)
Fixpoint sequence (net : Network) (config : ClickUpConfig)
    (trace : list (ReadOp * JValue)) (st st' : State) : Prop :=
  match trace with
  | [] => st' = st
  | (op, v) :: rest =>
      (read net config op st).1 = Ok v /\
      sequence net config rest (read net config op st).2 st'
  end.

(** What a traversal met at a folder: the folder, and what [getLists]
    returned for it. *)
Record FolderVisit : Type := { visited_folder : JValue; lists_read : JValue }.

(** What a traversal met at a space: the space, what [getFolderlessLists]
    and [getFolders] returned for it, and its folders in order. *)
Record SpaceVisit : Type :=
  { visited_space : JValue;
    folderless_read : JValue;
    folders_read : JValue;
    folder_visits : list FolderVisit }.

(** The reads made at a folder and at a space, in order, with what they
    returned. *)
Definition folder_reads (f : FolderVisit) : list (ReadOp * JValue) :=
  [ (GetLists (id_of (visited_folder f)), lists_read f) ].

Definition space_reads (s : SpaceVisit) : list (ReadOp * JValue) :=
  (GetFolderlessLists (id_of (visited_space s)), folderless_read s) ::
  (GetFolders (id_of (visited_space s)), folders_read s) ::
  flat_map folder_reads (folder_visits s).

(** The lists of a folder, each with the names of the space and of the
    folder; the lists of a space: its folderless lists, each with the name
    of the space, then the lists of each of its folders in order. *)
Definition folder_lists (space : JValue) (f : FolderVisit) : list JValue :=
  map (annotate_folder (opt_prop "name" space) (opt_prop "name" (visited_folder f)))
      (items_of (Ok (lists_read f))).

Definition space_lists (s : SpaceVisit) : list JValue :=
  map (annotate_space (opt_prop "name" (visited_space s)))
      (items_of (Ok (folderless_read s)))
  ++ flat_map (folder_lists (visited_space s)) (folder_visits s).

(** A value that [for ... of] can run over. *)
Definition iterable (v : JValue) : Prop := exists items, iterate v = Ok items.

(** The visits hold together: spaces and folders are neither [null] nor
    [undefined], what was read can be run over, and the folders visited are
    those that [getFolders] returned, in order. *)
Definition folder_visited (f : FolderVisit) : Prop :=
  nullish (visited_folder f) = false /\ iterable (lists_read f).

Definition space_visited (s : SpaceVisit) : Prop :=
  nullish (visited_space s) = false /\
  iterable (folderless_read s) /\
  iterate (folders_read s) = Ok (map visited_folder (folder_visits s)) /\
  Forall folder_visited (folder_visits s).

(** A traversal from [st] to [st']: [getSpaces] returned [spaces], whose
    elements are the spaces visited, in order, and the reads were made one
    after the other. *)
Definition traversed (net : Network) (config : ClickUpConfig) (st : State)
    (spaces : JValue) (visits : list SpaceVisit) (st' : State) : Prop :=
  iterate spaces = Ok (map visited_space visits) /\
  Forall space_visited visits /\
  sequence net config ((GetSpaces, spaces) :: flat_map space_reads visits) st st'.

(** ** More concrete worlds *)

Module Scenarios.

(** A workspace in which one space has no name. *)
Definition nameless_spaces : list JValue :=
  [ JObj [("id", JStr "s1"); ("name", JStr "Ops")]; JObj [("id", JStr "s2")] ].

Definition net_nameless : Network :=
  fun _ _ =>
    {| status := 200; text := ""; json := Some (JObj [("spaces", JArr nameless_spaces)]) |}.

(** The state of a process that started at time 0 and read its time
    entries once. *)
Definition time_entries_cached : State :=
  (getTimeEntries Examples.net_empty Examples.config JUndefined (initial 0)).2.

Definition one_hour : JValue := JObj [("start", JNum 0); ("duration", JNum 3600000)].

(** A service that remembers: the one list of its one space is called
    [Early] as long as nothing has been asked, and [Late] from then on. *)
Definition net_remembering : Network :=
  fun history req =>
    let answer :=
      if String.eqb (req_url req) "https://api.clickup.com/api/v2/team/9001/space" then
        JObj [("spaces", JArr [JObj [("id", JStr "s1"); ("name", JStr "Ops")]])]
      else if String.eqb (req_url req) "https://api.clickup.com/api/v2/space/s1/list" then
        JObj [("lists",
               JArr [JObj [("id", JStr "l1");
                           ("name", JStr (match history with [] => "Early" | _ => "Late" end))]])]
      else JObj [] in
    {| status := 200; text := ""; json := Some answer |}.

(** A service that finds one task, without due date. *)
Definition found_task : JValue :=
  JObj [ ("id", JStr "t1"); ("name", JStr "Fix rates");
         ("status", JObj [("status", JStr "open")]);
         ("url", JStr "https://app.clickup.com/t/t1") ].

Definition net_one_task : Network :=
  fun _ _ => {| status := 200; text := ""; json := Some (JObj [("tasks", JArr [found_task])]) |}.

End Scenarios.

(* ===================================================================== *)
(** * Properties *)

(** ** The monad *)

Lemma bind_Ok {A B} (m : M A) (k : A -> M B) st a st' :
  m st = (Ok a, st') -> bind m k st = k a st'.
Proof. unfold bind. intros ->. reflexivity. Qed.

Lemma bind_Throw {A B} (m : M A) (k : A -> M B) st e st' :
  m st = (Throw e, st') -> bind m k st = (Throw e, st').
Proof. unfold bind. intros ->. reflexivity. Qed.

Lemma bind_inv {A B} (m : M A) (k : A -> M B) st r st' :
  bind m k st = (r, st') ->
  (exists a st1, m st = (Ok a, st1) /\ k a st1 = (r, st')) \/
  (exists e, m st = (Throw e, st') /\ r = Throw e).
Proof.
  unfold bind. destruct (m st) as [[a|e] st1]; intros H.
  - left. eauto.
  - right. inversion H; subst. eauto.
Qed.

(** ** Error surfacing *)

Lemma request_run net config method endpoint body st :
  request net config method endpoint body st =
  let req := request_of config method endpoint body in
  let response := net (sent st) req in
  (if ok response then
     match json response with
     | Some v => Ok v
     | None => Throw SyntaxError
     end
   else Throw (Error (api_error_message response)),
   with_sent (sent st ++ [req]) st).
Proof.
  unfold request, request_of, api_error_message. cbv zeta.
  destruct (ok _); [destruct (json _)|]; reflexivity.
Qed.

Section Surfaces.

Context (net : Network).

Lemma surfaces_silent {A} (m : M A) :
  (forall st, sent (m st).2 = sent st) -> surfaces net m.
Proof.
  intros Hm st r st' Hrun. exists []. split.
  - rewrite app_nil_r. specialize (Hm st). rewrite Hrun in Hm. exact Hm.
  - intros i req Hi. rewrite lookup_nil in Hi. discriminate.
Qed.

Lemma surfaces_ret {A} (a : A) : surfaces net (ret a).
Proof. apply surfaces_silent. reflexivity. Qed.

Lemma surfaces_throw {A} e : surfaces net (@throw A e).
Proof. apply surfaces_silent. reflexivity. Qed.

Lemma surfaces_lift {A} (r : Result A) : surfaces net (lift r).
Proof. apply surfaces_silent. reflexivity. Qed.

Lemma surfaces_bind {A B} (m : M A) (k : A -> M B) :
  surfaces net m -> (forall a, surfaces net (k a)) -> surfaces net (bind m k).
Proof.
  intros Hm Hk st r st' Hrun.
  apply bind_inv in Hrun as [(a & st1 & Hm1 & Hk1)|(e & Hm1 & ->)].
  - destruct (Hm _ _ _ Hm1) as (new1 & Hs1 & Hok1).
    destruct (Hk a _ _ _ Hk1) as (new2 & Hs2 & Hok2).
    exists (new1 ++ new2). split.
    { rewrite Hs2, Hs1, app_assoc. reflexivity. }
    intros i req Hi response Hbad.
    destruct (decide (i < length new1)%nat) as [Hlt|Hge].
    + rewrite lookup_app_l in Hi by exact Hlt.
      subst response. rewrite take_app_le in Hbad by lia.
      destruct (Hok1 i req Hi Hbad) as [_ Habs]. discriminate.
    + rewrite lookup_app_r in Hi by lia.
      subst response.
      rewrite take_app_ge in * by lia.
      rewrite app_assoc, <- Hs1 in *.
      destruct (Hok2 _ req Hi Hbad) as [Hlen ->].
      split; [rewrite length_app; lia | reflexivity].
  - destruct (Hm _ _ _ Hm1) as (new1 & Hs1 & Hok1).
    exists new1. split; [exact Hs1|].
    intros i req Hi response Hbad.
    destruct (Hok1 i req Hi Hbad) as [Hlen Heq].
    split; [exact Hlen|]. subst response. inversion Heq. reflexivity.
Qed.

Lemma surfaces_request config method endpoint body :
  surfaces net (request net config method endpoint body).
Proof.
  intros st r st' Hrun. rewrite request_run in Hrun. cbv zeta in Hrun.
  inversion Hrun; subst; clear Hrun.
  exists [request_of config method endpoint body]. split; [reflexivity|].
  intros [|i] req Hi response Hbad; simplify_eq/=.
  subst response. rewrite app_nil_r in *. rewrite Hbad. split; reflexivity.
Qed.

Lemma surfaces_getOrFetch key producer ttl bypass :
  surfaces net producer -> surfaces net (getOrFetch key producer ttl bypass).
Proof.
  intros Hp st r st' Hrun. unfold getOrFetch in Hrun. cbv zeta in Hrun.
  destruct (if PluginCache.enabled (cache st) && negb bypass
            then PluginCache.peek (now st) key (cache st) else None) as [v|].
  - inversion Hrun; subst. exists []. split; [by rewrite app_nil_r|].
    intros i req Hi. by rewrite lookup_nil in Hi.
  - destruct (producer st) as [[v|e] st1] eqn:Hprod;
      destruct (Hp _ _ _ Hprod) as (new & Hs & Hok);
      inversion Hrun; subst; exists new; split; auto.
    destruct (PluginCache.enabled _); exact Hs.
Qed.

Lemma surfaces_cached key ttl producer :
  surfaces net producer -> surfaces net (cached key ttl producer).
Proof.
  intros Hp st r st' Hrun. unfold cached in Hrun.
  exact (surfaces_getOrFetch _ _ _ _ Hp _ _ _ Hrun).
Qed.

Lemma surfaces_cache_invalidate key : surfaces net (cache_invalidate key).
Proof. apply surfaces_silent. reflexivity. Qed.

Lemma surfaces_cache_invalidatePattern source :
  surfaces net (cache_invalidatePattern source).
Proof.
  apply surfaces_silent. intros st. unfold cache_invalidatePattern.
  destruct (RegExp.compile source); try reflexivity.
  destruct (exact_on_keys _ _ _); reflexivity.
Qed.

Lemma surfaces_for_of {A} items (body : JValue -> A -> M A) acc :
  (forall x a, surfaces net (body x a)) -> surfaces net (for_of items body acc).
Proof.
  intros Hb. revert acc. induction items as [|x items IH]; intros acc; simpl.
  - apply surfaces_ret.
  - apply surfaces_bind; auto.
Qed.

End Surfaces.

Create HintDb surfaces.
#[export] Hint Resolve surfaces_ret surfaces_throw surfaces_lift surfaces_request
  surfaces_cached surfaces_getOrFetch surfaces_cache_invalidate
  surfaces_cache_invalidatePattern : surfaces.

Ltac surfaces_step :=
  first
    [ apply surfaces_bind; [|intros ?]
    | apply surfaces_cached
    | apply surfaces_for_of; intros ? ?
    | solve [auto with surfaces] ].

Ltac prove_surfaces := repeat surfaces_step.

Lemma surfaces_read net config op : surfaces net (read net config op).
Proof.
  destruct op; unfold read, getSpaces, getSpace, getFolders, getLists,
    getFolderlessLists, getList, getTasks, getTask, searchTasks, getTaskComments,
    getTimeEntries, getAuthorizedUser, getTeamMembers, fetch_list;
    prove_surfaces.
  match goal with
  | |- surfaces _ (match ?v with JArr _ => _ | _ => _ end) => destruct v
  end; prove_surfaces.
Qed.

Lemma surfaces_write net config op : surfaces net (write net config op).
Proof.
  destruct op; unfold write, createTask, updateTask, deleteTask, addComment,
    createTimeEntry; prove_surfaces.
Qed.

Lemma surfaces_getAllLists net config : surfaces net (getAllLists net config).
Proof.
  pose proof (surfaces_read net config GetSpaces) as Hs.
  pose proof (fun x => surfaces_read net config (GetFolderlessLists x)) as Hfl.
  pose proof (fun x => surfaces_read net config (GetFolders x)) as Hfo.
  pose proof (fun x => surfaces_read net config (GetLists x)) as Hl.
  simpl in Hs, Hfl, Hfo, Hl.
  unfold getAllLists, push_each. prove_surfaces.
Qed.

(** C6. Error surfacing.  The transport primitive sends exactly one request;
    a response whose status is not 2xx makes it throw the error whose
    message is made of the status code and the raw body text; a 2xx response
    makes it return the parsed body.  Every operation of the client
    surfaces such an error: in any run, a request answered with a non-2xx
    status is the last request sent (nothing is retried, nothing follows)
    and the run throws the error made from that response. *)
Theorem error_surfacing (net : Network) (config : ClickUpConfig) :
  (forall method endpoint body st,
     let req := request_of config method endpoint body in
     let response := net (sent st) req in
     let run := request net config method endpoint body st in
     sent run.2 = sent st ++ [req] /\
     (ok response = false ->
      run.1 = Throw (Error ("ClickUp API error (" +:+ pretty (status response) +:+ "): "
                            +:+ text response))) /\
     (forall v, ok response = true -> json response = Some v -> run.1 = Ok v)) /\
  (forall op, surfaces net (read net config op)) /\
  (forall op, surfaces net (write net config op)) /\
  surfaces net (getAllLists net config).
Proof.
  split; [|auto using surfaces_read, surfaces_write, surfaces_getAllLists].
  intros method endpoint body st req response run.
  subst run. rewrite request_run. subst req response. cbv zeta.
  split; [reflexivity|]. split.
  - intros Hbad. cbn [fst]. rewrite Hbad. reflexivity.
  - intros v Hok Hjson. cbn [fst]. rewrite Hok, Hjson. reflexivity.
Qed.

Lemma error_surfacing_witness :
  (getTask Examples.net_404 Examples.config (JStr "missing-id") false (initial 0)).1
  = Throw (Error "ClickUp API error (404): Task not found").
Proof.
  destruct (error_surfacing Examples.net_404 Examples.config) as [Hrequest _].
  destruct (Hrequest "GET" "/task/missing-id" JUndefined (initial 0)) as (_ & Hbad & _).
  exact (Hbad eq_refl).
Defined.

(** ** Configuration *)

Lemma truthy_not_nullish v : truthy v = true -> nullish v = false.
Proof. destruct v; cbn; congruence. Qed.

Lemma prop_r_defined k v : nullish v = false -> prop_r k v = Ok (opt_prop k v).
Proof. destruct v; cbn; congruence. Qed.

Lemma opt_prop_truthy_receiver k v : truthy (opt_prop k v) = true -> nullish v = false.
Proof. destruct v; cbn; congruence. Qed.

Lemma opt_prop_falsy_receiver k v : truthy v = false -> truthy (opt_prop k v) = false.
Proof. destruct v; cbn; congruence. Qed.

Lemma loadConfig_run rawConfig :
  nullish rawConfig = false ->
  loadConfig rawConfig =
  let shape :=
    if truthy (opt_prop "clickup" rawConfig) then direct_shape rawConfig
    else legacy_shape rawConfig in
  if yields_both shape then Ok (config_of shape) else Throw missing_config.
Proof.
  intros Hraw. unfold loadConfig, direct_shape, legacy_shape, yields_both, config_of,
    missing_config, or_else. cbv zeta.
  rewrite (prop_r_defined "clickup") by exact Hraw. cbn [bind_r].
  destruct (truthy (opt_prop "clickup" rawConfig)) eqn:Hclickup.
  - rewrite !prop_r_defined by (apply truthy_not_nullish; exact Hclickup).
    cbn [bind_r fst snd]. rewrite <- negb_andb.
    destruct (truthy _ && truthy _); reflexivity.
  - rewrite (prop_r_defined "mcpServer") by exact Hraw. cbn [bind_r].
    set (env := opt_prop "env" (opt_prop "mcpServer" rawConfig)).
    destruct (truthy env) eqn:Henv.
    + rewrite (prop_r_defined "env") by (eapply opt_prop_truthy_receiver; exact Henv).
      fold env. cbn [bind_r].
      rewrite !prop_r_defined by (apply truthy_not_nullish; exact Henv).
      cbn [bind_r].
      destruct (truthy (opt_prop "CLICKUP_TEAM_ID" env)) eqn:Hteam.
      * cbn [bind_r fst snd]. rewrite <- negb_andb.
        destruct (truthy _ && truthy _); reflexivity.
      * rewrite (prop_r_defined "teamId") by exact Hraw. cbn [bind_r fst snd].
        rewrite <- negb_andb.
        destruct (truthy _ && truthy _); reflexivity.
    + cbn [bind_r fst snd truthy negb orb].
      rewrite (opt_prop_falsy_receiver "CLICKUP_API_KEY" env Henv). reflexivity.
Qed.

(** C7 (as amended).  Configuration fail-fast: when neither the direct shape
    nor the legacy shape yields both values, construction fails with the
    error naming [clickup.apiKey] and [clickup.teamId]; when the direct shape
    yields both values, or the [clickup] entry is absent or falsy and the
    legacy shape yields both, construction succeeds with those values.  The
    legacy shape is not consulted when the [clickup] entry is truthy:
    construction then fails when the direct shape is incomplete, whatever
    the legacy shape holds, and two configurations with the same truthy
    [clickup] entry have the same outcome.  In every case nothing is sent
    and the cache is not touched. *)
Theorem configuration_fail_fast (rawConfig : JValue) :
  (nullish rawConfig = false ->
   yields_both (direct_shape rawConfig) = false ->
   yields_both (legacy_shape rawConfig) = false ->
   loadConfig rawConfig = Throw missing_config) /\
  (yields_both (direct_shape rawConfig) = true ->
   loadConfig rawConfig = Ok (config_of (direct_shape rawConfig))) /\
  (truthy (opt_prop "clickup" rawConfig) = false ->
   yields_both (legacy_shape rawConfig) = true ->
   loadConfig rawConfig = Ok (config_of (legacy_shape rawConfig))) /\
  (truthy (opt_prop "clickup" rawConfig) = true ->
   (yields_both (direct_shape rawConfig) = false ->
    loadConfig rawConfig = Throw missing_config) /\
   (forall other,
      opt_prop "clickup" other = opt_prop "clickup" rawConfig ->
      loadConfig other = loadConfig rawConfig)) /\
  (forall st, (newClient rawConfig st).2 = st).
Proof.
  assert (forall raw, truthy (opt_prop "clickup" raw) = true ->
            loadConfig raw
            = if yields_both (direct_shape raw) then Ok (config_of (direct_shape raw))
              else Throw missing_config) as Hdirect_only.
  { intros raw Hclickup.
    rewrite loadConfig_run by (eapply opt_prop_truthy_receiver; exact Hclickup).
    cbv zeta. rewrite Hclickup. reflexivity. }
  split; [|split; [|split; [|split]]].
  - intros Hraw Hdirect Hlegacy. rewrite loadConfig_run by exact Hraw. cbv zeta.
    destruct (truthy (opt_prop "clickup" rawConfig)).
    + rewrite Hdirect. reflexivity.
    + rewrite Hlegacy. reflexivity.
  - intros Hdirect.
    assert (truthy (opt_prop "apiKey" (opt_prop "clickup" rawConfig)) = true) as Hkey.
    { unfold yields_both, direct_shape in Hdirect. cbn in Hdirect.
      apply andb_true_iff in Hdirect. tauto. }
    assert (truthy (opt_prop "clickup" rawConfig) = true) as Hclickup.
    { destruct (truthy (opt_prop "clickup" rawConfig)) eqn:E; [reflexivity|].
      rewrite (opt_prop_falsy_receiver _ _ E) in Hkey. discriminate. }
    rewrite (Hdirect_only _ Hclickup), Hdirect. reflexivity.
  - intros Hclickup Hlegacy.
    assert (nullish rawConfig = false) as Hraw.
    { destruct rawConfig; try reflexivity; discriminate Hlegacy. }
    rewrite loadConfig_run by exact Hraw. cbv zeta.
    rewrite Hclickup, Hlegacy. reflexivity.
  - intros Hclickup. split.
    + intros Hdirect. rewrite (Hdirect_only _ Hclickup), Hdirect. reflexivity.
    + intros other Hsame.
      rewrite (Hdirect_only rawConfig Hclickup), (Hdirect_only other)
        by (rewrite Hsame; exact Hclickup).
      unfold direct_shape. rewrite Hsame. reflexivity.
  - intros st. reflexivity.
Qed.

Lemma configuration_fail_fast_witness :
  loadConfig Examples.direct_config
  = Ok {| apiKey := JStr "pk_1"; teamId := JStr "9001" |} /\
  loadConfig Examples.shadowed_config = Throw missing_config.
Proof.
  split.
  - destruct (configuration_fail_fast Examples.direct_config) as (_ & Hdirect & _).
    exact (Hdirect eq_refl).
  - destruct (configuration_fail_fast Examples.shadowed_config) as (_ & _ & _ & Hshadow & _).
    exact (proj1 (Hshadow eq_refl) eq_refl).
Defined.

(** C7, as first stated, fails: a complete legacy shape is not used when an
    incomplete direct shape is present. *)
Lemma legacy_shape_shadowed :
  yields_both (legacy_shape Examples.shadowed_config) = true /\
  loadConfig Examples.shadowed_config = Throw missing_config.
Proof. split; reflexivity. Qed.

(** ** Query strings *)

Lemma names_set n0 name value (p : URLSearchParams.t) :
  In n0 (URLSearchParams.set name value p).*1 <-> n0 = name \/ In n0 p.*1.
Proof.
  induction p as [|[n v] p IH]; cbn.
  - intuition congruence.
  - destruct (String.eqb n name) eqn:E; cbn.
    + apply String.eqb_eq in E. subst n. split.
      * intros [H|H]; [auto|]. right. right.
        apply in_map_iff in H as ([n1 v1] & Hn1 & Hin).
        apply filter_In in Hin as [Hin _]. cbn in Hn1. subst.
        apply in_map_iff. exists (n0, v1). auto.
      * intros [H|[H|H]]; [auto..|].
        destruct (String.eqb n0 name) eqn:E0.
        { apply String.eqb_eq in E0. auto. }
        right. apply in_map_iff in H as ([n1 v1] & Hn1 & Hin). cbn in Hn1. subst.
        apply in_map_iff. exists (n0, v1). split; [reflexivity|].
        apply filter_In. split; [exact Hin|]. cbn. rewrite E0. reflexivity.
    + rewrite IH. tauto.
Qed.

Lemma names_set_when n0 c name value (p : URLSearchParams.t) :
  In n0 (set_when c name value p).*1 <-> (c = true /\ n0 = name) \/ In n0 p.*1.
Proof.
  unfold set_when. destruct c.
  - rewrite names_set. tauto.
  - split; [tauto|]. intros [[? _]|?]; [discriminate|assumption].
Qed.

Lemma append_fold name (items : list JValue) (p : URLSearchParams.t) :
  fold_left (fun acc x => URLSearchParams.append name (to_string x) acc) items p
  = p ++ map (fun x => (name, to_string x)) items.
Proof.
  revert p. induction items as [|x items IH]; intros p; cbn.
  - rewrite app_nil_r. reflexivity.
  - rewrite IH. unfold URLSearchParams.append. rewrite <- app_assoc. reflexivity.
Qed.

Lemma append_each_inv name v p p' :
  append_each name v p = Ok p' ->
  (truthy v = false /\ p' = p) \/
  (exists items, v = JArr items /\ p' = p ++ map (fun x => (name, to_string x)) items).
Proof.
  unfold append_each. destruct (truthy v) eqn:Hv.
  - destruct v; try discriminate. intros [= <-]. right.
    eexists. split; [reflexivity|]. apply append_fold.
  - intros [= <-]. auto.
Qed.

Lemma getAll_set_ne name n value (p : URLSearchParams.t) :
  name <> n -> getAll name (URLSearchParams.set n value p) = getAll name p.
Proof.
  intros Hne. unfold getAll. induction p as [|[n1 v1] p IH]; cbn.
  - destruct (String.eqb_spec n name); [congruence|reflexivity].
  - destruct (String.eqb_spec n1 n) as [->|Hn1]; cbn.
    + destruct (String.eqb_spec n name); [congruence|].
      clear IH. induction p as [|[n2 v2] p IH]; cbn; [reflexivity|].
      destruct (String.eqb_spec n2 n) as [->|Hn2]; cbn.
      * destruct (String.eqb_spec n name); [congruence|]. exact IH.
      * destruct (String.eqb n2 name); cbn; rewrite IH; reflexivity.
    + destruct (String.eqb n1 name); cbn; rewrite IH; reflexivity.
Qed.

Lemma getAll_set_when_ne name c n value (p : URLSearchParams.t) :
  name <> n -> getAll name (set_when c n value p) = getAll name p.
Proof. intros H. unfold set_when. destruct c; [apply getAll_set_ne; exact H|reflexivity]. Qed.

Lemma getAll_app name (p q : URLSearchParams.t) :
  getAll name (p ++ q) = getAll name p ++ getAll name q.
Proof. unfold getAll. rewrite List.filter_app, map_app. reflexivity. Qed.

Lemma getAll_same name (vs : list string) :
  getAll name (map (fun v => (name, v)) vs) = vs.
Proof.
  unfold getAll. induction vs as [|v vs IH]; cbn; [reflexivity|].
  rewrite String.eqb_refl. cbn. rewrite IH. reflexivity.
Qed.

Lemma getAll_other name n (vs : list string) :
  name <> n -> getAll name (map (fun v => (n, v)) vs) = [].
Proof.
  intros Hne. unfold getAll. induction vs as [|v vs IH]; cbn; [reflexivity|].
  destruct (String.eqb_spec n name); [congruence|exact IH].
Qed.

Lemma names_append_each_nonempty n0 name v p p' :
  append_each name v p = Ok p' ->
  In n0 p'.*1 ->
  (n0 = name /\ match v with JArr (_ :: _) => true | _ => false end = true) \/ In n0 p.*1.
Proof.
  intros H Hin. apply append_each_inv in H as [[_ ->]|(items & -> & ->)]; [auto|].
  rewrite fmap_app in Hin. apply in_app_iff in Hin as [Hin|Hin]; [auto|].
  left. destruct items as [|x items]; [destruct Hin|]. split; [|reflexivity].
  apply in_map_iff in Hin as (nv & <- & Hnv).
  apply in_map_iff in Hnv as (y & <- & _). reflexivity.
Qed.

Lemma getTasks_params_inv options params :
  getTasks_params options = Ok params ->
  exists p1 p2,
    let o k := opt_prop k options in
    let p0 :=
      set_when (truthy (o "subtasks")) "subtasks" "true"
        (set_when (truthy (o "reverse")) "reverse" "true"
           (set_when (truthy (o "order_by")) "order_by" (to_string (o "order_by"))
              (set_when (negb (is_undefined (o "page"))) "page" (to_string (o "page"))
                 (set_when (truthy (o "include_closed")) "include_closed" "true"
                    (set_when (negb (is_undefined (o "archived"))) "archived"
                       (to_string (o "archived")) URLSearchParams.empty))))) in
    append_each "statuses[]" (o "statuses") p0 = Ok p1 /\
    append_each "assignees[]" (o "assignees") p1 = Ok p2 /\
    params =
      set_when (truthy (o "date_updated_lt")) "date_updated_lt" (to_string (o "date_updated_lt"))
        (set_when (truthy (o "date_updated_gt")) "date_updated_gt"
           (to_string (o "date_updated_gt"))
           (set_when (truthy (o "date_created_lt")) "date_created_lt"
              (to_string (o "date_created_lt"))
              (set_when (truthy (o "date_created_gt")) "date_created_gt"
                 (to_string (o "date_created_gt"))
                 (set_when (truthy (o "due_date_lt")) "due_date_lt"
                    (to_string (o "due_date_lt"))
                    (set_when (truthy (o "due_date_gt")) "due_date_gt"
                       (to_string (o "due_date_gt")) p2))))).
Proof.
  unfold getTasks_params. cbv zeta. intros H.
  destruct (append_each "statuses[]" _ _) as [p1|] eqn:H1; [|discriminate].
  cbn [bind_r] in H.
  destruct (append_each "assignees[]" _ _) as [p2|] eqn:H2; [|discriminate].
  cbn [bind_r] in H. injection H as <-.
  exists p1, p2. auto.
Qed.

Lemma getTasks_params_names options params name :
  getTasks_params options = Ok params ->
  In name params.*1 -> In (name, true) (getTasks_presence options).
Proof.
  intros H Hin. apply getTasks_params_inv in H as (p1 & p2 & H1 & H2 & ->).
  cbv zeta in *.
  rewrite !names_set_when in Hin.
  assert (In name p2.*1 -> In (name, true) (getTasks_presence options)) as Hp2.
  { intros Hin2.
    apply (names_append_each_nonempty _ _ _ _ _ H2) in Hin2 as [[-> Hv]|Hin1].
    { unfold getTasks_presence. rewrite Hv. cbn. tauto. }
    apply (names_append_each_nonempty _ _ _ _ _ H1) in Hin1 as [[-> Hv]|Hin0].
    { unfold getTasks_presence. rewrite Hv. cbn. tauto. }
    rewrite !names_set_when in Hin0. unfold getTasks_presence.
    repeat destruct Hin0 as [[-> ->]|Hin0]; cbn; tauto. }
  unfold getTasks_presence in *.
  repeat destruct Hin as [[-> ->]|Hin]; cbn; try tauto.
Qed.

Lemma getTasks_params_getAll options params f items :
  In f array_filters ->
  getTasks_params options = Ok params ->
  opt_prop f options = JArr items ->
  getAll (f +:+ "[]") params = map to_string items.
Proof.
  intros Hf H Hitems. apply getTasks_params_inv in H as (p1 & p2 & H1 & H2 & ->).
  cbv zeta in *.
  assert (forall name, getAll name URLSearchParams.empty = []) as Hempty by reflexivity.
  destruct Hf as [<-|[<-|[]]];
    [change ("statuses" +:+ "[]") with "statuses[]"
    |change ("assignees" +:+ "[]") with "assignees[]"];
    rewrite !getAll_set_when_ne by discriminate;
    rewrite Hitems in *;
    apply append_each_inv in H1 as [[Ht1 ->]|(items1 & E1 & ->)];
    apply append_each_inv in H2 as [[Ht2 ->]|(items2 & E2 & ->)];
    try discriminate;
    rewrite ?getAll_app, ?getAll_set_when_ne, ?Hempty by discriminate;
    try (injection E1 as <-); try (injection E2 as <-);
    rewrite <- ?(map_map to_string (fun v => ("statuses[]", v)));
    rewrite <- ?(map_map to_string (fun v => ("assignees[]", v)));
    rewrite ?getAll_same, ?getAll_other by discriminate;
    rewrite ?app_nil_r; reflexivity.
Qed.

(** ** The cache *)

Lemma peek_create t key : PluginCache.peek t key PluginCache.create = None.
Proof. unfold PluginCache.peek, PluginCache.create. cbn. rewrite lookup_empty. reflexivity. Qed.

Lemma peek_absent t key c :
  PluginCache.entries c !! key = None -> PluginCache.peek t key c = None.
Proof. unfold PluginCache.peek. intros ->. reflexivity. Qed.

Lemma peek_store t key key' v exp c :
  PluginCache.peek t key' (PluginCache.store key v exp c) =
  if decide (key = key') then (if t <? exp then Some v else None)
  else PluginCache.peek t key' c.
Proof.
  unfold PluginCache.peek, PluginCache.store. cbn. rewrite lookup_insert.
  destruct (decide (key = key')); reflexivity.
Qed.

Lemma getOrFetch_miss key producer ttl bypass st :
  PluginCache.enabled (cache st) && negb bypass = false \/
  PluginCache.peek (now st) key (cache st) = None ->
  getOrFetch key producer ttl bypass st =
  match producer st with
  | (Ok v, st') =>
      (Ok v,
       if PluginCache.enabled (cache st')
       then with_cache (PluginCache.store key v (now st' + ttl) (cache st')) st'
       else st')
  | (Throw e, st') => (Throw e, st')
  end.
Proof.
  intros H. unfold getOrFetch. cbv zeta.
  destruct H as [-> | ->]; [reflexivity|].
  destruct (_ && _); reflexivity.
Qed.

Lemma getOrFetch_hit key producer ttl st v :
  PluginCache.enabled (cache st) = true ->
  PluginCache.peek (now st) key (cache st) = Some v ->
  getOrFetch key producer ttl false st = (Ok v, st).
Proof. intros He Hp. unfold getOrFetch. cbv zeta. rewrite He, Hp. reflexivity. Qed.

Lemma request_answer net config method endpoint body st :
  request net config method endpoint body st =
  (answer net (sent st) (request_of config method endpoint body),
   with_sent (sent st ++ [request_of config method endpoint body]) st).
Proof. rewrite request_run. reflexivity. Qed.

Lemma fetch_run net config op st :
  fetch net config op st =
  match read_endpoint config op with
  | Throw e => (Throw e, st)
  | Ok endpoint =>
      let req := request_of config "GET" endpoint JUndefined in
      (bind_r (answer net (sent st) req) (read_decode op),
       with_sent (sent st ++ [req]) st)
  end.
Proof.
  unfold fetch, bind, lift. destruct (read_endpoint config op) as [endpoint|e]; [|reflexivity].
  rewrite request_answer. cbv zeta.
  destruct (answer _ _ _); reflexivity.
Qed.

Lemma read_unfold net config op st :
  read net config op st =
  match read_key op with
  | Ok key => cached key (read_ttl op) (fetch net config op) st
  | Throw e => (Throw e, st)
  end.
Proof.
  assert (forall key ttl (p q : M JValue),
            (forall s, p s = q s) -> cached key ttl p st = cached key ttl q st) as Hext.
  { intros key ttl p q Hpq. unfold cached, getOrFetch. rewrite Hpq. reflexivity. }
  destruct op; cbn [read read_key read_ttl];
    unfold getSpaces, getSpace, getFolders, getLists, getFolderlessLists, getList,
      getTasks, getTask, searchTasks, getTaskComments, getTimeEntries,
      getAuthorizedUser, getTeamMembers;
    try (unfold bind at 1, lift at 1;
         match goal with |- context [bind_r ?r _] => destruct r end; cbn [bind_r];
         [|reflexivity]);
    apply Hext; intros s; rewrite fetch_run; cbn [read_endpoint read_decode];
    unfold fetch_list, bind, lift, ret, throw, list_field;
    try match goal with |- context [getTasks_endpoint ?l ?o] =>
          destruct (getTasks_endpoint l o) end;
    try match goal with |- context [searchTasks_endpoint ?c ?l ?o] =>
          destruct (searchTasks_endpoint c l o) end;
    try reflexivity;
    rewrite request_answer; cbv zeta;
    destruct (answer _ _ _) as [result|]; cbn [bind_r read_decode]; try reflexivity;
    unfold list_field;
    try (destruct (prop_r _ result) as [v|]; cbn [bind_r]; try reflexivity).
  destruct (or_else v (JArr [])) as [| | | | |members|]; try reflexivity.
  destruct (map_user members); reflexivity.
Qed.

(** ** Read-through *)

Lemma read_fresh net config op st :
  fresh_cache st ->
  read net config op st =
  match read_key op with
  | Throw e => (Throw e, st)
  | Ok key =>
      match fetch net config op st with
      | (Ok v, st') =>
          (Ok v, with_cache (PluginCache.store key v (now st' + read_ttl op) (cache st')) st')
      | (Throw e, st') => (Throw e, st')
      end
  end.
Proof.
  intros [Hcache Hflag]. rewrite read_unfold.
  destruct (read_key op) as [key|e]; [|reflexivity].
  unfold cached. rewrite getOrFetch_miss.
  2:{ right. rewrite Hcache. apply peek_create. }
  rewrite fetch_run. destruct (read_endpoint config op); [|reflexivity].
  cbv zeta. destruct (bind_r _ _); [|reflexivity].
  cbn. rewrite Hcache. reflexivity.
Qed.

Lemma read_caching_off net config op st key :
  caching_off st ->
  read_key op = Ok key ->
  read net config op st = getOrFetch key (fetch net config op) (read_ttl op) true st /\
  read net config op st = fetch net config op st /\
  caching_off (read net config op st).2.
Proof.
  intros [Hflag Hoff] Hkey. rewrite read_unfold, Hkey. unfold cached. rewrite Hflag.
  split; [reflexivity|].
  rewrite getOrFetch_miss by (left; rewrite Hoff; reflexivity).
  rewrite fetch_run. destruct (read_endpoint config op); cbv zeta.
  - destruct (bind_r _ _); cbn [cache with_sent]; rewrite ?Hoff;
      (split; [reflexivity|split; [exact Hflag|exact Hoff]]).
  - split; [reflexivity|split; [exact Hflag|exact Hoff]].
Qed.



(** ** The query string of [getTasks] *)

Lemma example_params :
  getTasks_params example_options
  = Ok [ ("statuses[]", "open"); ("statuses[]", "review");
         ("due_date_lt", "1700000000000") ].
Proof. vm_compute. reflexivity. Qed.

Lemma example_query :
  URLSearchParams.toString
    [ ("statuses[]", "open"); ("statuses[]", "review"); ("due_date_lt", "1700000000000") ]
  = "statuses%5B%5D=open&statuses%5B%5D=review&due_date_lt=1700000000000".
Proof. vm_compute. reflexivity. Qed.

(** C5 (as amended).  [getTasks(listId, {statuses: ["open","review"],
    due_date_lt: 1700000000000})] on a fresh cache sends one GET request to
    the list's task endpoint whose query parameters are [statuses[]=open],
    [statuses[]=review] and [due_date_lt=1700000000000] and nothing else,
    serialized with the brackets percent-encoded:
    [statuses%5B%5D=open&statuses%5B%5D=review&due_date_lt=1700000000000].
    For every options object, every parameter sent is one of the filters,
    a filter that is omitted is not sent, and an array-valued filter is
    sent as one [name[]] parameter per element, in order. *)
Theorem getTasks_query_string :
  (forall net config listId st,
     fresh_cache st ->
     getTasks_params example_options
     = Ok [ ("statuses[]", "open"); ("statuses[]", "review");
            ("due_date_lt", "1700000000000") ] /\
     sent (getTasks net config listId example_options st).2
     = sent st ++
       [ request_of config "GET"
           (("/list/" +:+ to_string listId +:+ "/task") +:+
            "?statuses%5B%5D=open&statuses%5B%5D=review&due_date_lt=1700000000000")
           JUndefined ]) /\
  (forall options params,
     getTasks_params options = Ok params ->
     (forall name, In name params.*1 ->
        In name scalar_filters \/ exists f, In f array_filters /\ name = f +:+ "[]") /\
     (forall f, In f scalar_filters ->
        opt_prop f options = JUndefined -> ~ In f params.*1) /\
     (forall f, In f array_filters ->
        opt_prop f options = JUndefined ->
        ~ In f params.*1 /\ ~ In (f +:+ "[]") params.*1) /\
     (forall f items, In f array_filters ->
        opt_prop f options = JArr items ->
        getAll (f +:+ "[]") params = map to_string items)).
Proof.
  split.
  - intros net config listId st Hfresh. split; [exact example_params|].
    change (getTasks net config listId example_options)
      with (read net config (GetTasks listId example_options)).
    rewrite read_fresh by exact Hfresh.
    change (read_key (GetTasks listId example_options))
      with (Ok (createCacheKey "tasks"
                  [ ("list", listId); ("archived", JUndefined);
                    ("include_closed", JUndefined); ("page", JUndefined);
                    ("order_by", JUndefined); ("reverse", JUndefined);
                    ("subtasks", JUndefined); ("statuses", JStr "open,review");
                    ("assignees", JUndefined); ("due_date_gt", JUndefined);
                    ("due_date_lt", JNum 1700000000000);
                    ("date_created_gt", JUndefined); ("date_created_lt", JUndefined);
                    ("date_updated_gt", JUndefined); ("date_updated_lt", JUndefined) ])).
    rewrite fetch_run. cbn [read_endpoint]. unfold getTasks_endpoint.
    rewrite example_params. cbn [bind_r]. unfold with_query.
    rewrite example_query. cbn [String.eqb Ascii.eqb Bool.eqb].
    cbv zeta. destruct (bind_r _ _); reflexivity.
  - intros options params Hparams. split; [|split; [|split]].
    + intros name Hin.
      pose proof (getTasks_params_names _ _ _ Hparams Hin) as Htable.
      unfold getTasks_presence in Htable. cbn [In] in Htable.
      unfold scalar_filters, array_filters. cbn [In].
      repeat destruct Htable as [[= <- _]|Htable]; try tauto.
      * right. exists "statuses". auto.
      * right. exists "assignees". auto.
    + intros f Hf Hundef Hin.
      pose proof (getTasks_params_names _ _ _ Hparams Hin) as Htable.
      unfold getTasks_presence in Htable. cbn [In] in Htable.
      unfold scalar_filters in Hf. cbn [In] in Hf.
      repeat destruct Hf as [<-|Hf]; try (destruct Hf);
        rewrite ?Hundef in Htable; cbn in Htable;
        repeat destruct Htable as [[=]|Htable]; destruct Htable.
    + intros f Hf Hundef. split; intros Hin;
        pose proof (getTasks_params_names _ _ _ Hparams Hin) as Htable;
        unfold getTasks_presence in Htable; cbn [In] in Htable;
        destruct Hf as [<-|[<-|[]]];
        change ("statuses" +:+ "[]") with "statuses[]" in *;
        change ("assignees" +:+ "[]") with "assignees[]" in *;
        rewrite ?Hundef in Htable; cbn in Htable;
        repeat destruct Htable as [[=]|Htable]; destruct Htable.
    + intros f items Hf Hitems. eapply getTasks_params_getAll; eassumption.
Qed.

Lemma getTasks_query_string_witness :
  ~ In "archived"
      [ ("statuses[]", "open"); ("statuses[]", "review");
        ("due_date_lt", "1700000000000") ].*1.
Proof.
  destruct getTasks_query_string as [_ Hgeneral].
  destruct (Hgeneral example_options _ example_params) as (_ & Homitted & _).
  exact (Homitted "archived" (or_introl eq_refl) eq_refl).
Defined.

(** C5, as first stated, fails: the query string sent does not contain the
    text [statuses[]=open&statuses[]=review&due_date_lt=1700000000000]. *)
Lemma query_string_brackets_encoded :
  getTasks_endpoint (JStr "L1") example_options
  = Ok "/list/L1/task?statuses%5B%5D=open&statuses%5B%5D=review&due_date_lt=1700000000000"
  /\ is_infix "statuses[]=open&statuses[]=review&due_date_lt=1700000000000"
       "/list/L1/task?statuses%5B%5D=open&statuses%5B%5D=review&due_date_lt=1700000000000"
     = false.
Proof. split; vm_compute; reflexivity. Qed.

(** ** Strings *)

Lemma str_app_nil_r s : s +:+ "" = s.
Proof. induction s as [|c s IH]; [reflexivity|]. change (String c (s +:+ "") = String c s). by rewrite IH. Qed.

Lemma str_app_cons c s t : String c s +:+ t = String c (s +:+ t).
Proof. reflexivity. Qed.

Lemma str_app_nil_l s : "" +:+ s = s.
Proof. reflexivity. Qed.

Lemma str_app_assoc a b c : (a +:+ b) +:+ c = a +:+ (b +:+ c).
Proof.
  induction a as [|x a IH]; [reflexivity|].
  rewrite !str_app_cons, IH. reflexivity.
Qed.

Lemma str_app_eq_nil a b : a +:+ b = "" -> a = "" /\ b = "".
Proof. destruct a; [rewrite str_app_nil_l; auto|rewrite str_app_cons; discriminate]. Qed.

Lemma prefix_spec p s : String.prefix p s = true <-> exists rest, s = p +:+ rest.
Proof.
  revert s. induction p as [|c p IH]; intros s.
  - split; [intros _; exists s; reflexivity|intros _; destruct s; reflexivity].
  - destruct s as [|d s]; cbn.
    + split; [discriminate|intros [rest H]; discriminate].
    + destruct (ascii_dec c d) as [->|Hne].
      * rewrite IH. split; intros [rest H]; exists rest.
        -- rewrite str_app_cons, H. reflexivity.
        -- rewrite str_app_cons in H. congruence.
      * split; [discriminate|]. intros [rest H]. rewrite str_app_cons in H. congruence.
Qed.

(** ** Patterns *)

Lemma nullable_spec p : RegExp.nullable p = true <-> Matches p "".
Proof.
  induction p; cbn.
  - split; [discriminate|inversion 1].
  - split; [constructor|reflexivity].
  - split; [discriminate|inversion 1].
  - split; [discriminate|inversion 1].
  - rewrite andb_true_iff, IHp1, IHp2. split.
    + intros [H1 H2]. exact (MSeq _ _ "" "" H1 H2).
    + inversion 1; subst.
      match goal with H : _ +:+ _ = "" |- _ => apply str_app_eq_nil in H as [-> ->] end.
      auto.
  - rewrite orb_true_iff, IHp1, IHp2. split.
    + intros [H|H]; [apply MAltL|apply MAltR]; exact H.
    + inversion 1; subst; auto.
  - split; [constructor|reflexivity].
Qed.

Lemma Matches_seq_inv p q s :
  Matches (RegExp.PSeq p q) s ->
  exists s1 s2, s = s1 +:+ s2 /\ Matches p s1 /\ Matches q s2.
Proof. inversion 1; subst; eauto. Qed.

Lemma Matches_alt_inv p q s :
  Matches (RegExp.PAlt p q) s -> Matches p s \/ Matches q s.
Proof. inversion 1; subst; auto. Qed.

Lemma Matches_char_inv c s : Matches (RegExp.PChar c) s -> s = String c "".
Proof. inversion 1; reflexivity. Qed.

Lemma Matches_empty_inv s : Matches RegExp.PEmpty s -> s = "".
Proof. inversion 1; reflexivity. Qed.

Lemma star_cons p c s :
  Matches (RegExp.PStar p) (String c s) ->
  exists s1 s2, s = s1 +:+ s2 /\ Matches p (String c s1) /\ Matches (RegExp.PStar p) s2.
Proof.
  intros H. remember (RegExp.PStar p) as q eqn:Hq. remember (String c s) as t eqn:Ht.
  revert s Ht. induction H as [| | | | | | |p' s1 s2 H1 _ H2 IH2]; intros u Hu;
    try discriminate.
  injection Hq as ->. destruct s1 as [|d s1].
  - rewrite str_app_nil_l in Hu. exact (IH2 eq_refl u Hu).
  - rewrite str_app_cons in Hu. injection Hu as -> <-. eauto.
Qed.

Lemma deriv_spec c p s : Matches (RegExp.deriv c p) s <-> Matches p (String c s).
Proof.
  revert s. induction p as [| |a| |p1 IH1 p2 IH2|p1 IH1 p2 IH2|p IH]; intros s; cbn.
  - split; inversion 1.
  - split; inversion 1.
  - destruct (Ascii.eqb_spec a c) as [->|Hne].
    + split; inversion 1; subst; constructor.
    + split; inversion 1; subst; congruence.
  - destruct (RegExp.line_terminator c) eqn:Hc.
    + split; inversion 1; subst; congruence.
    + split; inversion 1; subst; constructor; exact Hc.
  - assert (Matches (RegExp.PSeq (RegExp.deriv c p1) p2) s \/
            (RegExp.nullable p1 = true /\ Matches (RegExp.deriv c p2) s)
            <-> Matches (RegExp.PSeq p1 p2) (String c s)) as Hseq.
    { split.
      - intros [H|[Hn H]].
        + apply Matches_seq_inv in H as (s1 & s2 & -> & Hs1 & Hs2).
          apply IH1 in Hs1. exact (MSeq _ _ _ _ Hs1 Hs2).
        + apply nullable_spec in Hn. apply IH2 in H. exact (MSeq _ _ "" _ Hn H).
      - intros H. apply Matches_seq_inv in H as (s1 & s2 & Hs & Hs1 & Hs2).
        destruct s1 as [|d s1].
        + rewrite str_app_nil_l in Hs. subst s2. right.
          split; [apply nullable_spec; exact Hs1|apply IH2; exact Hs2].
        + rewrite str_app_cons in Hs. injection Hs as -> ->. left.
          apply IH1 in Hs1. exact (MSeq _ _ _ _ Hs1 Hs2). }
    rewrite <- Hseq. destruct (RegExp.nullable p1).
    + split.
      * intros H. apply Matches_alt_inv in H as [H|H]; auto.
      * intros [H|[_ H]]; [apply MAltL|apply MAltR]; exact H.
    + split; [auto|]. intros [H|[Hn _]]; [exact H|discriminate].
  - split; intros H; apply Matches_alt_inv in H as [H|H];
      solve [apply MAltL, IH1; exact H | apply MAltR, IH2; exact H].
  - split.
    + intros H. apply Matches_seq_inv in H as (s1 & s2 & -> & Hs1 & Hs2).
      apply IH in Hs1. exact (MStarApp _ _ _ Hs1 Hs2).
    + intros H. apply star_cons in H as (s1 & s2 & -> & Hs1 & Hs2).
      apply IH in Hs1. exact (MSeq _ _ _ _ Hs1 Hs2).
Qed.

Lemma matches_prefix_spec p s :
  RegExp.matches_prefix p s = true <-> exists s1 s2, s = s1 +:+ s2 /\ Matches p s1.
Proof.
  revert p. induction s as [|c s IH]; intros p; cbn [RegExp.matches_prefix].
  - rewrite orb_false_r, nullable_spec. split.
    + intros H. exists "", "". auto.
    + intros (s1 & s2 & Hs & H). symmetry in Hs.
      apply str_app_eq_nil in Hs as [-> _]. exact H.
  - rewrite orb_true_iff, nullable_spec, IH. split.
    + intros [H|(s1 & s2 & -> & H)].
      * exists "", (String c s). auto.
      * exists (String c s1), s2. split; [reflexivity|]. apply deriv_spec. exact H.
    + intros (s1 & s2 & Hs & H). destruct s1 as [|d s1]; [auto|].
      rewrite str_app_cons in Hs. injection Hs as <- ->. right.
      exists s1, s2. split; [reflexivity|]. apply deriv_spec. exact H.
Qed.

Lemma syntax_char_false c :
  RegExp.syntax_char c = false ->
  Ascii.eqb c "." = false /\ Ascii.eqb c "*" = false /\
  Ascii.eqb c "+" = false /\ Ascii.eqb c "?" = false.
Proof.
  unfold RegExp.syntax_char. cbn [existsb]. intros H.
  repeat (apply orb_false_iff in H as [? H]). auto.
Qed.

Lemma parse_literal text st :
  literal text = true ->
  RegExp.parse text st = Some (Some (seq_literal (RegExp.flush st) text)).
Proof.
  revert st. induction text as [|c text IH]; intros st Hlit;
    cbn [literal] in Hlit; cbn [RegExp.parse seq_literal].
  - reflexivity.
  - apply andb_true_iff in Hlit as [Hc Hlit]. apply negb_true_iff in Hc.
    unfold RegExp.step.
    destruct (syntax_char_false c Hc) as (-> & -> & -> & ->). rewrite Hc.
    rewrite IH by exact Hlit. reflexivity.
Qed.

Lemma Matches_seq_literal p text s :
  Matches (seq_literal p text) s <-> exists s0, Matches p s0 /\ s = s0 +:+ text.
Proof.
  revert p s. induction text as [|c text IH]; intros p s; cbn.
  - split.
    + intros H. exists s. rewrite str_app_nil_r. auto.
    + intros (s0 & H & ->). rewrite str_app_nil_r. exact H.
  - rewrite IH. split.
    + intros (s0 & H & ->). apply Matches_seq_inv in H as (s1 & s2 & -> & H1 & H2).
      apply Matches_char_inv in H2 as ->. exists s1. split; [exact H1|].
      rewrite str_app_assoc. reflexivity.
    + intros (s0 & H & ->). exists (s0 +:+ String c ""). split.
      * apply MSeq; [exact H|constructor].
      * rewrite str_app_assoc. reflexivity.
Qed.

(** A literal pattern anchored at the start tests for a prefix. *)
Lemma literal_pattern_test text key :
  literal text = true ->
  pattern_test (String "^" text) key = String.prefix text key.
Proof.
  intros Hlit. unfold pattern_test, RegExp.compile.
  rewrite parse_literal by exact Hlit. cbn [RegExp.test RegExp.anchored RegExp.pattern].
  apply eq_true_iff_eq. rewrite matches_prefix_spec, prefix_spec. split.
  - intros (s1 & s2 & -> & H). apply Matches_seq_literal in H as (s0 & H0 & ->).
    apply Matches_empty_inv in H0 as ->. exists s2. reflexivity.
  - intros [rest ->]. exists text, rest. split; [reflexivity|].
    apply Matches_seq_literal. exists "". split; [constructor|reflexivity].
Qed.

Lemma lookup_invalidatePattern re c key :
  PluginCache.entries (PluginCache.invalidatePattern re c).2 !! key =
  if RegExp.test re key then None else PluginCache.entries c !! key.
Proof.
  unfold PluginCache.invalidatePattern. cbn.
  destruct (RegExp.test re key) eqn:Htest.
  - apply map_lookup_filter_None. right. intros x _. cbn. congruence.
  - destruct (PluginCache.entries c !! key) as [e|] eqn:Hk.
    + apply map_lookup_filter_Some. split; [exact Hk|exact Htest].
    + apply map_lookup_filter_None. left. exact Hk.
Qed.

Lemma cache_invalidatePattern_run source st n st' :
  cache_invalidatePattern source st = (Ok n, st') ->
  sent st' = sent st /\ now st' = now st /\ cacheDisabled st' = cacheDisabled st /\
  without (pattern_test source) (cache st) (cache st').
Proof.
  unfold cache_invalidatePattern, pattern_test, without.
  destruct (RegExp.compile source) as [re| |]; try discriminate.
  destruct (exact_on_keys source re (cache st)); [|discriminate].
  pose proof (lookup_invalidatePattern re (cache st)) as Hlookup.
  destruct (PluginCache.invalidatePattern re (cache st)) as [m c] eqn:Hinv.
  intros [= <- <-]. cbn in *. repeat split; try reflexivity.
  - unfold PluginCache.invalidatePattern in Hinv. injection Hinv as _ <-. reflexivity.
  - exact Hlookup.
Qed.

(** An invalidation that returns was in the model: the pattern compiled and
    the matcher is exact on the keys of the cache. *)
Lemma cache_invalidatePattern_exact source st n st' :
  cache_invalidatePattern source st = (Ok n, st') ->
  exists re, RegExp.compile source = RegExp.Regex re /\
             exact_on_keys source re (cache st) = true.
Proof.
  unfold cache_invalidatePattern.
  destruct (RegExp.compile source) as [re| |]; try discriminate.
  destruct (exact_on_keys source re (cache st)) eqn:E; [|discriminate].
  intros _. exists re. split; [reflexivity|exact E].
Qed.

Lemma cache_invalidate_run key st found st' :
  cache_invalidate key st = (Ok found, st') ->
  sent st' = sent st /\ now st' = now st /\ cacheDisabled st' = cacheDisabled st /\
  without (String.eqb key) (cache st) (cache st').
Proof.
  unfold cache_invalidate, PluginCache.invalidate, without. cbn.
  intros [= _ <-]. cbn. repeat split.
  intros k. destruct (String.eqb_spec key k) as [->|Hne].
  - apply lookup_delete_eq.
  - apply lookup_delete_ne. exact Hne.
Qed.

Lemma without_trans f g c1 c2 c3 :
  without f c1 c2 -> without g c2 c3 -> without (fun k => f k || g k) c1 c3.
Proof.
  intros [He1 H1] [He2 H2]. split; [congruence|].
  intros k. rewrite H2, H1. destruct (f k), (g k); reflexivity.
Qed.

Lemma without_ext f g c c' :
  (forall k, f k = g k) -> without f c c' -> without g c c'.
Proof. intros Hfg [He H]. split; [exact He|]. intros k. rewrite <- Hfg. apply H. Qed.

Lemma request_frame net config method endpoint body st r st' :
  request net config method endpoint body st = (r, st') ->
  cache st' = cache st /\ now st' = now st /\ cacheDisabled st' = cacheDisabled st.
Proof. rewrite request_answer. intros [= _ <-]. auto. Qed.

Lemma must_refetch_absent key st :
  PluginCache.entries (cache st) !! key = None -> must_refetch key st.
Proof.
  intros Habs producer ttl bypass d. apply getOrFetch_miss. right.
  apply peek_absent. exact Habs.
Qed.

(** ** What the mutations do to the cache *)

Ltac invert_bind H :=
  let a := fresh "a" in
  let st1 := fresh "st" in
  let Hstep := fresh "Hstep" in
  let e := fresh "e" in
  apply bind_inv in H as [(a & st1 & Hstep & H)|(e & _ & H)]; [|discriminate H].

Lemma write_run net config op st result st' :
  write net config op st = (Ok result, st') ->
  without (dropped_by op) (cache st) (cache st') /\
  now st' = now st /\ cacheDisabled st' = cacheDisabled st.
Proof.
  assert (forall source key, literal source = true ->
            pattern_test (String "^" source) key = String.prefix source key) as Hlit
    by (intros; apply literal_pattern_test; assumption).
  destruct op; cbn [write dropped_by];
    unfold createTask, updateTask, deleteTask, addComment, createTimeEntry; intros H.
  - invert_bind H. invert_bind H. invert_bind H. injection H as <- <-.
    apply request_frame in Hstep as (Hc & Hn & Hd).
    apply cache_invalidatePattern_run in Hstep0 as (_ & Hn0 & Hd0 & Hw0).
    apply cache_invalidatePattern_run in Hstep1 as (_ & Hn1 & Hd1 & Hw1).
    split; [|split; congruence].
    rewrite <- Hc. eapply without_ext; [|exact (without_trans _ _ _ _ _ Hw0 Hw1)].
    intros k. cbn beta. change "^tasks" with (String "^" "tasks").
    change "^search" with (String "^" "search"). rewrite !Hlit by reflexivity. reflexivity.
  - invert_bind H. invert_bind H. invert_bind H. invert_bind H. invert_bind H.
    injection H as <- <-.
    apply request_frame in Hstep as (Hc & Hn & Hd).
    apply cache_invalidate_run in Hstep0 as (_ & Hn0 & Hd0 & Hw0).
    apply cache_invalidate_run in Hstep1 as (_ & Hn1 & Hd1 & Hw1).
    apply cache_invalidatePattern_run in Hstep2 as (_ & Hn2 & Hd2 & Hw2).
    apply cache_invalidatePattern_run in Hstep3 as (_ & Hn3 & Hd3 & Hw3).
    split; [|split; congruence].
    rewrite <- Hc.
    eapply without_ext;
      [|exact (without_trans _ _ _ _ _ (without_trans _ _ _ _ _
                 (without_trans _ _ _ _ _ Hw0 Hw1) Hw2) Hw3)].
    intros k. cbn beta. change "^tasks" with (String "^" "tasks").
    change "^search" with (String "^" "search"). rewrite !Hlit by reflexivity. reflexivity.
  - invert_bind H. injection H as _ <-.
    invert_bind Hstep. invert_bind Hstep. invert_bind Hstep. injection Hstep as _ <-.
    apply request_frame in Hstep0 as (Hc & Hn & Hd).
    apply cache_invalidatePattern_run in Hstep1 as (_ & Hn1 & Hd1 & Hw1).
    apply cache_invalidatePattern_run in Hstep2 as (_ & Hn2 & Hd2 & Hw2).
    split; [|split; congruence].
    rewrite <- Hc. eapply without_ext; [|exact (without_trans _ _ _ _ _ Hw1 Hw2)].
    intros k. cbn beta. change "^task" with (String "^" "task").
    change "^search" with (String "^" "search"). rewrite !Hlit by reflexivity. reflexivity.
  - invert_bind H. invert_bind H. injection H as <- <-.
    apply request_frame in Hstep as (Hc & Hn & Hd).
    apply cache_invalidatePattern_run in Hstep0 as (_ & Hn0 & Hd0 & Hw0).
    split; [|split; congruence]. rewrite <- Hc. exact Hw0.
  - invert_bind H. invert_bind H. injection H as <- <-.
    apply request_frame in Hstep as (Hc & Hn & Hd).
    apply cache_invalidatePattern_run in Hstep0 as (_ & Hn0 & Hd0 & Hw0).
    split; [|split; congruence]. rewrite <- Hc.
    eapply without_ext; [|exact Hw0].
    intros k. change "^time_entries" with (String "^" "time_entries").
    rewrite Hlit by reflexivity. reflexivity.
Qed.

Lemma createCacheKey_shape operation params :
  createCacheKey operation params = operation \/
  exists r, createCacheKey operation params = operation +:+ ":" +:+ r.
Proof.
  unfold createCacheKey. cbv zeta. destruct (map _ _); [left|right; eexists]; reflexivity.
Qed.

Lemma read_key_shape op key :
  read_key op = Ok key ->
  key = family op \/ exists r, key = family op +:+ ":" +:+ r.
Proof.
  destruct op; cbn [read_key family]; unfold getTask_cacheKey, getTaskComments_cacheKey;
    try (intros [= <-]; first [left; reflexivity | apply createCacheKey_shape]).
  - destruct (getTasks_cacheParams listId options); cbn [bind_r]; [|discriminate].
    intros [= <-]. apply createCacheKey_shape.
  - destruct (searchTasks_cacheParams query options); cbn [bind_r]; [|discriminate].
    intros [= <-]. apply createCacheKey_shape.
Qed.

Lemma parse_before text st p s :
  RegExp.parse text st = Some (Some p) ->
  Matches p s ->
  exists s1 s2, s = s1 +:+ s2 /\ Matches (RegExp.before st) s1.
Proof.
  assert (forall st s, Matches (RegExp.flush st) s ->
            exists s1 s2, s = s1 +:+ s2 /\ Matches (RegExp.before st) s1) as Hflush.
  { intros st0 s0. unfold RegExp.flush. destruct (RegExp.last st0) as [[a q]|].
    - intros H. apply Matches_seq_inv in H as (s1 & s2 & -> & H1 & _). eauto.
    - intros H. exists s0, "". rewrite str_app_nil_r. auto. }
  revert st. induction text as [|c text IH]; intros st Hparse Hm; cbn [RegExp.parse] in Hparse.
  - injection Hparse as <-. apply Hflush. exact Hm.
  - destruct (RegExp.step c st) as [[st1|]|] eqn:Hstep; try discriminate.
    destruct (IH st1 Hparse Hm) as (s1 & s2 & -> & H1).
    assert (RegExp.before st1 = RegExp.before st \/
            RegExp.before st1 = RegExp.flush st) as [E|E].
    { unfold RegExp.step, RegExp.push_atom in Hstep.
      repeat match type of Hstep with
             | (if ?b then _ else _) = _ => destruct b
             | match ?l with _ => _ end = _ => destruct l as [[? []]|]
             end; simplify_eq; cbn; auto. }
    + rewrite E in H1. eauto.
    + rewrite E in H1. apply Hflush in H1 as (s3 & s4 & -> & H3).
      exists s3, (s4 +:+ s2). rewrite str_app_assoc. auto.
Qed.

Lemma comments_pattern_prefix text key :
  pattern_test ("^comments.*task=" +:+ text) key = true ->
  String.prefix "comments" key = true.
Proof.
  unfold pattern_test, RegExp.compile.
  change ("^comments.*task=" +:+ text) with (String "^" ("comments.*task=" +:+ text)).
  cbv iota beta.
  assert (RegExp.parse ("comments.*task=" +:+ text) RegExp.start
          = RegExp.parse ("*task=" +:+ text)
              {| RegExp.before := seq_literal RegExp.PEmpty "comments";
                 RegExp.last := Some (RegExp.PAny, RegExp.Bare) |}) as -> by reflexivity.
  destruct (RegExp.parse _ _) as [[p|]|] eqn:Hparse; try discriminate.
  cbn [RegExp.test RegExp.anchored RegExp.pattern]. intros Htest.
  apply matches_prefix_spec in Htest as (s1 & s2 & -> & Hm).
  destruct (parse_before _ _ _ _ Hparse Hm) as (s3 & s4 & -> & Hlit).
  cbn [RegExp.before] in Hlit.
  apply Matches_seq_literal in Hlit as (s0 & H0 & ->).
  apply Matches_empty_inv in H0 as ->.
  apply prefix_spec. exists (s4 +:+ s2).
  rewrite str_app_nil_l, str_app_assoc. reflexivity.
Qed.

Ltac expose_text :=
  repeat (rewrite str_app_cons in * ); rewrite ?str_app_nil_l in *.

Lemma kept_not_dropped w op key :
  read_key op = Ok key ->
  In (family op) (kept_families w) ->
  dropped_by w key = false.
Proof.
  intros Hkey Hkept. apply read_key_shape in Hkey.
  destruct w as [l d|t d|t|t c n|t d]; cbn [dropped_by kept_families] in *.
  - destruct op; cbn [family In] in *;
      try (exfalso; repeat destruct Hkept as [Hkept|Hkept]; discriminate || assumption);
      destruct Hkey as [->|[r ->]]; expose_text; reflexivity.
  - destruct (createCacheKey_shape "task" [("id", t); ("markdown", JBool false)])
      as [E0|[r0 E0]];
      destruct (createCacheKey_shape "task" [("id", t); ("markdown", JBool true)])
        as [E1|[r1 E1]];
      unfold getTask_cacheKey; rewrite E0, E1;
      destruct op; cbn [family In] in *;
      try (exfalso; repeat destruct Hkept as [Hkept|Hkept]; discriminate || assumption);
      destruct Hkey as [->|[r ->]]; expose_text; reflexivity.
  - destruct op; cbn [family In] in *;
      try (exfalso; repeat destruct Hkept as [Hkept|Hkept]; discriminate || assumption);
      destruct Hkey as [->|[r ->]]; expose_text; reflexivity.
  - destruct (pattern_test _ key) eqn:Htest; [|reflexivity].
    apply comments_pattern_prefix in Htest.
    destruct op; cbn [family In] in *;
      try (exfalso; repeat destruct Hkept as [Hkept|Hkept]; discriminate || assumption);
      destruct Hkey as [->|[r ->]]; expose_text; discriminate Htest.
  - destruct op; cbn [family In] in *;
      try (exfalso; repeat destruct Hkept as [Hkept|Hkept]; discriminate || assumption);
      destruct Hkey as [->|[r ->]]; expose_text; reflexivity.
Qed.

Lemma family_prefix op key :
  read_key op = Ok key -> String.prefix (family op) key = true.
Proof.
  intros H. apply read_key_shape in H as [->|[r ->]]; apply prefix_spec.
  - exists "". rewrite str_app_nil_r. reflexivity.
  - eexists. reflexivity.
Qed.

(** C3. Invalidation completeness for task creation: once [createTask] has
    returned, no entry whose key begins with [tasks] or [search] is left
    in the cache, in particular none of those that [getTasks] and
    [searchTasks] made, and a later [getOrFetch] on such a key runs its
    producer. *)
Theorem createTask_invalidation net config listId data st result st' :
  createTask net config listId data st = (Ok result, st') ->
  (forall key,
     String.prefix "tasks" key = true \/ String.prefix "search" key = true ->
     PluginCache.entries (cache st') !! key = None /\ must_refetch key st') /\
  (forall op key,
     read_key op = Ok key -> family op = "tasks" \/ family op = "search" ->
     PluginCache.entries (cache st') !! key = None /\ must_refetch key st').
Proof.
  intros Hrun.
  destruct (write_run net config (CreateTask listId data) _ _ _ Hrun) as [[_ Hdrop] _].
  assert (forall key,
            String.prefix "tasks" key = true \/ String.prefix "search" key = true ->
            PluginCache.entries (cache st') !! key = None /\ must_refetch key st') as Hkeys.
  { intros key Hkey.
    assert (PluginCache.entries (cache st') !! key = None) as Habs.
    { rewrite Hdrop. cbn [dropped_by]. destruct Hkey as [-> | ->]; [reflexivity|].
      rewrite orb_true_r. reflexivity. }
    split; [exact Habs|apply must_refetch_absent; exact Habs]. }
  split; [exact Hkeys|].
  intros op key Hkey Hfamily. apply Hkeys.
  pose proof (family_prefix op key Hkey) as Hprefix.
  destruct Hfamily as [E|E]; rewrite E in Hprefix; auto.
Qed.

(** C4. Targeted task invalidation: once [updateTask] has returned, neither
    the markdown-on nor the markdown-off entry of that task is left in the
    cache, nor any entry whose key begins with [tasks] or [search]; a
    later [getOrFetch] on any of these keys runs its producer. *)
Theorem updateTask_invalidation net config taskId data st result st' :
  updateTask net config taskId data st = (Ok result, st') ->
  (forall includeMarkdown,
     read_key (GetTask taskId includeMarkdown) = Ok (getTask_cacheKey taskId includeMarkdown) /\
     PluginCache.entries (cache st') !! getTask_cacheKey taskId includeMarkdown = None /\
     must_refetch (getTask_cacheKey taskId includeMarkdown) st') /\
  (forall key,
     String.prefix "tasks" key = true \/ String.prefix "search" key = true ->
     PluginCache.entries (cache st') !! key = None /\ must_refetch key st').
Proof.
  intros Hrun.
  destruct (write_run net config (UpdateTask taskId data) _ _ _ Hrun) as [[_ Hdrop] _].
  split.
  - intros includeMarkdown. split; [reflexivity|].
    assert (PluginCache.entries (cache st') !! getTask_cacheKey taskId includeMarkdown
            = None) as Habs.
    { rewrite Hdrop. cbn [dropped_by].
      destruct includeMarkdown; rewrite String.eqb_refl; rewrite ?orb_true_r; reflexivity. }
    split; [exact Habs|apply must_refetch_absent; exact Habs].
  - intros key Hkey.
    assert (PluginCache.entries (cache st') !! key = None) as Habs.
    { rewrite Hdrop. cbn [dropped_by].
      destruct Hkey as [-> | ->]; rewrite ?orb_true_r; reflexivity. }
    split; [exact Habs|apply must_refetch_absent; exact Habs].
Qed.

(** ** The limits of the pattern fragment *)

Lemma fragment_text_app a b : fragment_text (a +:+ b) = fragment_text a && fragment_text b.
Proof.
  induction a as [|c a IH]; [reflexivity|].
  rewrite str_app_cons. cbn [fragment_text]. rewrite IH, andb_assoc. reflexivity.
Qed.

Lemma ascii_text_app a b : ascii_text (a +:+ b) = ascii_text a && ascii_text b.
Proof.
  induction a as [|c a IH]; [reflexivity|].
  rewrite str_app_cons. cbn [ascii_text]. rewrite IH, andb_assoc. reflexivity.
Qed.

Lemma fragment_text_ascii s : fragment_text s = true -> ascii_text s = true.
Proof.
  induction s as [|c s IH]; [reflexivity|]. cbn [fragment_text ascii_text].
  unfold fragment_char. intros H. apply andb_true_iff in H as [Hc Hs].
  apply andb_true_iff in Hc as [Hc _]. rewrite Hc, (IH Hs). reflexivity.
Qed.

(** Text of the fragment is read to its end. *)
Lemma step_fragment c st : fragment_char c = true -> RegExp.step c st <> None.
Proof.
  unfold fragment_char, RegExp.step, RegExp.syntax_char. cbn [existsb].
  intros H. apply andb_true_iff in H as [_ H]. apply negb_true_iff in H.
  repeat (apply orb_false_iff in H as [? H]).
  destruct (Ascii.eqb c "."); [discriminate|].
  destruct (Ascii.eqb c "*"); [destruct (RegExp.last st) as [[a []]|]; discriminate|].
  destruct (Ascii.eqb c "+"); [destruct (RegExp.last st) as [[a []]|]; discriminate|].
  destruct (Ascii.eqb c "?"); [destruct (RegExp.last st) as [[a []]|]; discriminate|].
  cbn [orb].
  repeat match goal with E : Ascii.eqb c _ = false |- _ => rewrite E; clear E end.
  cbn [orb]. discriminate.
Qed.

Lemma parse_fragment s st : fragment_text s = true -> RegExp.parse s st <> None.
Proof.
  revert st. induction s as [|c s IH]; intros st H; cbn [RegExp.parse]; [discriminate|].
  cbn [fragment_text] in H. apply andb_true_iff in H as [Hc Hs].
  pose proof (step_fragment c st Hc) as Hstep.
  destruct (RegExp.step c st) as [[st1|]|]; [apply IH; exact Hs|discriminate|contradiction].
Qed.

Lemma exact_on_keys_ascii source re c :
  ascii_text source = true ->
  forallb (fun kv => ascii_text kv.1) (map_to_list (PluginCache.entries c)) = true ->
  exact_on_keys source re c = true.
Proof.
  intros Hsrc Hkeys. unfold exact_on_keys, RegExp.exact. rewrite Hsrc.
  rewrite forallb_forall in *. intros kv Hkv. rewrite (Hkeys kv Hkv), orb_true_r.
  reflexivity.
Qed.

Lemma exact_on_keys_plain source re c :
  ascii_text source = true -> RegExp.uses_any (RegExp.pattern re) = false ->
  exact_on_keys source re c = true.
Proof.
  intros Hsrc Hany. unfold exact_on_keys, RegExp.exact. rewrite Hsrc, Hany.
  apply forallb_forall. intros kv _. reflexivity.
Qed.

Lemma covered_bind {A B} (m : M A) (k : A -> M B) st :
  covered m st -> (forall a st1, m st = (Ok a, st1) -> covered (k a) st1) ->
  covered (bind m k) st.
Proof.
  intros Hm Hk e st' H. apply bind_inv in H as [(a & st1 & Hrun & H)|(e' & Hrun & [= ->])].
  - exact (Hk a st1 Hrun e st' H).
  - exact (Hm e' st' Hrun).
Qed.

Lemma covered_ret {A} (a : A) st : covered (ret a) st.
Proof. intros e st' [=]. Qed.

Lemma covered_request net config method endpoint body st :
  covered (request net config method endpoint body) st.
Proof.
  intros e st'. rewrite request_answer. unfold answer. cbv zeta.
  destruct (ok _); [destruct (json _)|]; intros [= <- _]; discriminate.
Qed.

Lemma covered_cache_invalidate key st : covered (cache_invalidate key) st.
Proof.
  intros e st'. unfold cache_invalidate.
  destruct (PluginCache.invalidate key (cache st)). discriminate.
Qed.

Lemma covered_literal_pattern source re st :
  RegExp.compile source = RegExp.Regex re ->
  ascii_text source = true -> RegExp.uses_any (RegExp.pattern re) = false ->
  covered (cache_invalidatePattern source) st.
Proof.
  intros Hre Hsrc Hany e st'. unfold cache_invalidatePattern.
  rewrite Hre, (exact_on_keys_plain source re _ Hsrc Hany).
  destruct (PluginCache.invalidatePattern re (cache st)). discriminate.
Qed.

Lemma covered_comments_pattern taskId st :
  fragment_text taskId = true -> ascii_keys st = true ->
  covered (cache_invalidatePattern ("^comments.*task=" +:+ taskId)) st.
Proof.
  intros Hid Hkeys e st'. unfold cache_invalidatePattern.
  assert (ascii_text ("^comments.*task=" +:+ taskId) = true) as Hsrc
    by (rewrite ascii_text_app, (fragment_text_ascii _ Hid); reflexivity).
  destruct (RegExp.compile _) as [re| |] eqn:Hre.
  - rewrite (exact_on_keys_ascii _ re _ Hsrc Hkeys).
    destruct (PluginCache.invalidatePattern re (cache st)). discriminate.
  - intros [= <- _]. discriminate.
  - exfalso. unfold RegExp.compile in Hre.
    change ("^comments.*task=" +:+ taskId)
      with (String "^" ("comments.*task=" +:+ taskId)) in Hre.
    cbv iota beta in Hre.
    pose proof (parse_fragment ("comments.*task=" +:+ taskId) RegExp.start) as Hparse.
    rewrite fragment_text_app, Hid in Hparse. specialize (Hparse eq_refl).
    destruct (RegExp.parse _ _) as [[p|]|]; [discriminate Hre..|contradiction].
Qed.

Lemma in_model_covered net config w st :
  in_model w st = true -> covered (write net config w) st.
Proof.
  assert (forall source text s,
            source = String "^" text -> literal text = true -> ascii_text text = true ->
            covered (cache_invalidatePattern source) s) as Hlit.
  { intros source text s -> Hl Ha.
    apply (covered_literal_pattern _
             {| RegExp.anchored := true; RegExp.pattern := seq_literal RegExp.PEmpty text |}).
    - unfold RegExp.compile. rewrite parse_literal by exact Hl. reflexivity.
    - cbn [ascii_text]. rewrite Ha. reflexivity.
    - cbn [RegExp.pattern]. clear Hl Ha.
      assert (forall p, RegExp.uses_any p = false ->
                RegExp.uses_any (seq_literal p text) = false) as H.
      { induction text as [|c text IH]; intros p Hp; cbn [seq_literal]; [exact Hp|].
        apply IH. cbn. rewrite Hp. reflexivity. }
      apply H. reflexivity. }
  destruct w as [listId data|taskId data|taskId|taskId commentText notifyAll|taskId data];
    cbn [in_model write]; intros Hin;
    unfold createTask, updateTask, deleteTask, addComment, createTimeEntry.
  - apply covered_bind; [apply covered_request|]. intros a s1 _.
    apply covered_bind; [apply (Hlit _ "tasks"); reflexivity|]. intros _ s2 _.
    apply covered_bind; [apply (Hlit _ "search"); reflexivity|]. intros _ s3 _.
    apply covered_ret.
  - apply covered_bind; [apply covered_request|]. intros a s1 _.
    apply covered_bind; [apply covered_cache_invalidate|]. intros _ s2 _.
    apply covered_bind; [apply covered_cache_invalidate|]. intros _ s3 _.
    apply covered_bind; [apply (Hlit _ "tasks"); reflexivity|]. intros _ s4 _.
    apply covered_bind; [apply (Hlit _ "search"); reflexivity|]. intros _ s5 _.
    apply covered_ret.
  - apply covered_bind; [|intros; apply covered_ret].
    apply covered_bind; [apply covered_request|]. intros a s1 _.
    apply covered_bind; [apply (Hlit _ "task"); reflexivity|]. intros _ s2 _.
    apply covered_bind; [apply (Hlit _ "search"); reflexivity|]. intros _ s3 _.
    apply covered_ret.
  - destruct taskId as [| | | |id| |]; try discriminate Hin.
    apply andb_true_iff in Hin as [Hid Hkeys]. cbn [to_string].
    apply covered_bind; [apply covered_request|]. intros a s1 Hreq.
    apply request_frame in Hreq as (Hc & _ & _).
    apply covered_bind; [|intros; apply covered_ret].
    apply covered_comments_pattern; [exact Hid|].
    unfold ascii_keys in *. rewrite Hc. exact Hkeys.
  - apply covered_bind; [apply covered_request|]. intros a s1 _.
    apply covered_bind; [apply (Hlit _ "time_entries"); reflexivity|]. intros _ s2 _.
    apply covered_ret.
Qed.


Lemma createTask_invalidation_witness :
  PluginCache.entries (cache Examples.tasks_cached) !! "tasks:list=L1"
  = Some {| PluginCache.value := JArr []; PluginCache.expires := 300000 |} /\
  PluginCache.entries
    (cache (createTask Examples.net_empty Examples.config (JStr "L1") Examples.new_task
              Examples.tasks_cached).2) !! "tasks:list=L1" = None.
Proof.
  split; [vm_compute; reflexivity|].
  refine (proj1 (proj1 (createTask_invalidation Examples.net_empty Examples.config
                          (JStr "L1") Examples.new_task Examples.tasks_cached
                          Examples.empty_result _ _)
                   "tasks:list=L1" (or_introl eq_refl))).
  vm_compute. reflexivity.
Defined.

Lemma updateTask_invalidation_witness :
  is_Some (PluginCache.entries (cache Examples.task_cached) !! "task:id=t1&markdown=true") /\
  PluginCache.entries
    (cache (updateTask Examples.net_empty Examples.config (JStr "t1") Examples.new_task
              Examples.task_cached).2) !! "task:id=t1&markdown=true" = None.
Proof.
  split; [vm_compute; eexists; reflexivity|].
  refine (proj1 (proj2 (proj1 (updateTask_invalidation Examples.net_empty Examples.config
                                 (JStr "t1") Examples.new_task Examples.task_cached
                                 Examples.empty_result _ _) true))).
  vm_compute. reflexivity.
Defined.



(** C9 fails on the code: after [getTaskComments("a+b")] has cached the
    comments of task [a+b], [addComment("a+b", ...)] returns and leaves that
    entry in place, and the next [getTaskComments("a+b")] is served from the
    cache without any request. *)
Theorem addComment_keeps_own_entry :
  let run := addComment Examples.net_empty Examples.config (JStr "a+b") (JStr "hi") false
               (Examples.comments_cached "a+b") in
  getTaskComments_cacheKey (JStr "a+b") JUndefined = "comments:task=a+b" /\
  run.1 = Ok Examples.empty_result /\
  req_body <$> last (sent run.2)
  = Some (Some (JObj [("comment_text", JStr "hi"); ("notify_all", JBool false)])) /\
  PluginCache.entries (cache run.2) !! "comments:task=a+b"
  = Some {| PluginCache.value := JArr []; PluginCache.expires := 300000 |} /\
  getTaskComments Examples.net_empty Examples.config (JStr "a+b") JUndefined run.2
  = (Ok (JArr []), run.2).
Proof. cbv zeta. repeat split; vm_compute; reflexivity. Qed.

(** ** Cache keys: same parameters, same key *)

Lemma lookup_field_absent k fields :
  ~ In k (keys fields) -> lookup_field k fields = JUndefined.
Proof.
  induction fields as [|[k' v] fields IH]; cbn; [reflexivity|].
  intros Hk. destruct (String.eqb_spec k k') as [->|Hne]; [tauto|].
  apply IH. tauto.
Qed.

Lemma lookup_field_defined k fields :
  is_undefined (lookup_field k fields) = false -> In k (keys fields).
Proof.
  intros H. destruct (in_dec string_dec k (keys fields)) as [Hin|Hout]; [exact Hin|].
  rewrite lookup_field_absent in H by exact Hout. discriminate.
Qed.

Lemma keys_set_field k v fields :
  keys (set_field k v fields) = if bool_decide (k ∈ keys fields) then keys fields
                                else keys fields ++ [k].
Proof.
  induction fields as [|[k' v'] fields IH]; cbn; [reflexivity|].
  destruct (String.eqb_spec k k') as [->|Hne]; cbn.
  - rewrite bool_decide_eq_true_2 by left. reflexivity.
  - unfold keys in *. rewrite IH.
    destruct (bool_decide (k ∈ fields.*1)) eqn:E.
    + apply bool_decide_eq_true in E. rewrite bool_decide_eq_true_2 by (right; exact E).
      reflexivity.
    + apply bool_decide_eq_false in E.
      rewrite bool_decide_eq_false_2 by (rewrite elem_of_cons; tauto). reflexivity.
Qed.

Lemma lookup_set_field k k' v fields :
  lookup_field k (set_field k' v fields) =
  if String.eqb k k' then v else lookup_field k fields.
Proof.
  induction fields as [|[k0 v0] fields IH]; cbn.
  - destruct (String.eqb k k'); reflexivity.
  - destruct (String.eqb_spec k' k0) as [->|Hne]; cbn.
    + destruct (String.eqb k k0); reflexivity.
    + rewrite IH. destruct (String.eqb_spec k k0) as [->|Hne0]; [|reflexivity].
      destruct (String.eqb_spec k0 k'); [congruence|reflexivity].
Qed.

Lemma NoDup_set_field k v fields :
  NoDup (keys fields) -> NoDup (keys (set_field k v fields)).
Proof.
  intros Hnd. rewrite keys_set_field. destruct (bool_decide _) eqn:E; [exact Hnd|].
  apply bool_decide_eq_false in E. apply NoDup_app. split; [exact Hnd|].
  split; [|apply NoDup_singleton].
  intros x Hx Hx'. apply list_elem_of_singleton in Hx'. subst. tauto.
Qed.

Lemma spread_spec base o :
  NoDup (keys base) -> NoDup (keys (own_fields o)) ->
  NoDup (keys (spread base o)) /\
  forall k, lookup_field k (spread base o) =
            if bool_decide (k ∈ keys (own_fields o)) then lookup_field k (own_fields o)
            else lookup_field k base.
Proof.
  unfold spread. generalize (own_fields o) as extra. intros extra. revert base.
  induction extra as [|[k0 v0] extra IH]; intros base Hbase Hextra; cbn [fold_left].
  - split; [exact Hbase|]. intros k. reflexivity.
  - cbn in Hextra. apply NoDup_cons in Hextra as [Hk0 Hextra].
    destruct (IH (set_field k0 v0 base) (NoDup_set_field _ _ _ Hbase) Hextra) as [Hnd Hlk].
    split; [exact Hnd|]. intros k. rewrite Hlk, lookup_set_field.
    cbn. destruct (String.eqb_spec k k0) as [->|Hne].
    + rewrite bool_decide_eq_false_2 by exact Hk0.
      rewrite bool_decide_eq_true_2 by left. reflexivity.
    + destruct (bool_decide (k ∈ keys extra)) eqn:E.
      * apply bool_decide_eq_true in E. rewrite bool_decide_eq_true_2 by (right; exact E).
        reflexivity.
      * apply bool_decide_eq_false in E.
        rewrite bool_decide_eq_false_2 by (rewrite elem_of_cons; tauto). reflexivity.
Qed.

Lemma present_keys_perm p1 p2 :
  NoDup (keys p1) -> NoDup (keys p2) ->
  (forall k, lookup_field k p1 = lookup_field k p2) ->
  List.filter (fun k => negb (is_undefined (lookup_field k p1))) (keys p1)
  ≡ₚ List.filter (fun k => negb (is_undefined (lookup_field k p2))) (keys p2).
Proof.
  intros H1 H2 Hsame. apply NoDup_Permutation.
  - apply NoDup_ListNoDup, List.NoDup_filter, NoDup_ListNoDup, H1.
  - apply NoDup_ListNoDup, List.NoDup_filter, NoDup_ListNoDup, H2.
  - intros k. rewrite !list_elem_of_In, !filter_In, !negb_true_iff. rewrite Hsame.
    split; intros [_ Hdef]; (split; [apply lookup_field_defined|exact Hdef]).
    + exact Hdef.
    + rewrite Hsame. exact Hdef.
Qed.

Lemma createCacheKey_ext operation p1 p2 :
  NoDup (keys p1) -> NoDup (keys p2) ->
  (forall k, lookup_field k p1 = lookup_field k p2) ->
  createCacheKey operation p1 = createCacheKey operation p2.
Proof.
  intros H1 H2 Hsame. unfold createCacheKey. cbv zeta.
  assert (merge_sort String.le
            (List.filter (fun k => negb (is_undefined (lookup_field k p1))) (keys p1))
          = merge_sort String.le
              (List.filter (fun k => negb (is_undefined (lookup_field k p2))) (keys p2)))
    as ->.
  { apply (Sorted_unique String.le); try apply Sorted_merge_sort; try apply _.
    rewrite !merge_sort_Permutation. apply present_keys_perm; assumption. }
  assert (forall l, map (fun k => k +:+ "=" +:+ to_string (lookup_field k p1)) l
                    = map (fun k => k +:+ "=" +:+ to_string (lookup_field k p2)) l) as ->.
  { intros l. apply map_ext. intros k. rewrite Hsame. reflexivity. }
  reflexivity.
Qed.

Lemma lookup_own_fields k o : lookup_field k (own_fields o) = opt_prop k o.
Proof. destruct o; reflexivity. Qed.

Lemma own_fields_or_else o : own_fields (or_else o (JObj [])) = own_fields o.
Proof.
  unfold or_else. destruct o as [| |b|n|s|items|fields]; cbn; try reflexivity;
    [destruct b|destruct (n =? 0)|destruct (String.eqb s "")]; reflexivity.
Qed.

Lemma wf_own_fields o : wf_options o -> NoDup (keys (own_fields o)).
Proof. destruct o; cbn; intros H; try exact H; constructor. Qed.

Lemma same_call_key op1 op2 : same_call op1 op2 -> read_key op1 = read_key op2.
Proof.
  destruct 1 as [ | | | | | |l o1 o2 (W1 & W2 & Hsame)| |q o1 o2 (W1 & W2 & Hsame)
                |t o1 o2 (W1 & W2 & Hsame) Ht1 Ht2|o1 o2 (W1 & W2 & Hsame)| | ];
    try reflexivity; cbn [read_key].
  - unfold getTasks_cacheParams. cbv zeta. rewrite !Hsame. reflexivity.
  - unfold searchTasks_cacheParams. cbv zeta. rewrite !Hsame. reflexivity.
  - f_equal. unfold getTaskComments_cacheKey.
    assert (NoDup (keys [("task", t)])) as Hbase by (apply NoDup_singleton).
    destruct (spread_spec [("task", t)] o1 Hbase (wf_own_fields _ W1)) as [N1 L1].
    destruct (spread_spec [("task", t)] o2 Hbase (wf_own_fields _ W2)) as [N2 L2].
    apply createCacheKey_ext; [exact N1|exact N2|].
    intros k. rewrite L1, L2, !lookup_own_fields, Hsame.
    assert (forall o o', ~ In "task" (keys (own_fields o')) ->
              k ∈ keys (own_fields o') -> k ∉ keys (own_fields o) ->
              opt_prop k o = lookup_field k [("task", t)]) as Habsent.
    { intros o o' Ht Hk' Hk. rewrite <- lookup_own_fields.
      rewrite lookup_field_absent by (rewrite <- list_elem_of_In; exact Hk).
      cbn. destruct (String.eqb_spec k "task") as [->|_]; [|reflexivity].
      exfalso. apply Ht. apply list_elem_of_In. exact Hk'. }
    destruct (bool_decide (k ∈ keys (own_fields o1))) eqn:E1;
      destruct (bool_decide (k ∈ keys (own_fields o2))) eqn:E2; try reflexivity.
    + apply bool_decide_eq_true in E1. apply bool_decide_eq_false in E2.
      exact (Habsent o2 o1 Ht1 E1 E2).
    + apply bool_decide_eq_false in E1. apply bool_decide_eq_true in E2.
      symmetry. rewrite <- Hsame. exact (Habsent o1 o2 Ht2 E2 E1).
  - f_equal. rewrite !own_fields_or_else.
    apply createCacheKey_ext; try (apply wf_own_fields; assumption).
    intros k. rewrite !lookup_own_fields. apply Hsame.
Qed.

(** ** Cache keys: different parameters, different key *)

Lemma free_of_app c s t : free_of c (s +:+ t) = free_of c s && free_of c t.
Proof.
  induction s as [|d s IH]; [reflexivity|].
  rewrite str_app_cons. cbn. rewrite IH, andb_assoc. reflexivity.
Qed.

(** Two texts free of [c], each followed by nothing or by [c]: equal wholes
    have equal parts. *)
Lemma split_at c x y t u :
  free_of c x = true -> free_of c y = true ->
  (t = "" \/ exists t', t = String c t') ->
  (u = "" \/ exists u', u = String c u') ->
  x +:+ t = y +:+ u -> x = y /\ t = u.
Proof.
  revert y. induction x as [|a x IH]; intros y Hx Hy Ht Hu E.
  - destruct y as [|b y]; [auto|].
    rewrite str_app_nil_l, str_app_cons in E. cbn in Hy.
    apply andb_true_iff in Hy as [Hb _]. apply negb_true_iff in Hb.
    destruct Ht as [->|[t' ->]]; [discriminate|]. injection E as -> _.
    rewrite Ascii.eqb_refl in Hb. discriminate.
  - destruct y as [|b y].
    + rewrite str_app_nil_l, str_app_cons in E. cbn in Hx.
      apply andb_true_iff in Hx as [Ha _]. apply negb_true_iff in Ha.
      destruct Hu as [->|[u' ->]]; [discriminate|]. injection E as -> _.
      rewrite Ascii.eqb_refl in Ha. discriminate.
    + rewrite !str_app_cons in E. injection E as -> E. cbn in Hx, Hy.
      apply andb_true_iff in Hx as [_ Hx]. apply andb_true_iff in Hy as [_ Hy].
      destruct (IH y Hx Hy Ht Hu E) as [-> ->]. auto.
Qed.

Lemma join_cons sep x xs :
  join sep (x :: xs) = x +:+ match xs with [] => "" | _ => sep +:+ join sep xs end.
Proof. destruct xs; cbn [join]; [rewrite str_app_nil_r|]; reflexivity. Qed.

Lemma join_inj c xs ys :
  Forall (fun x => free_of c x = true /\ x <> "") xs ->
  Forall (fun x => free_of c x = true /\ x <> "") ys ->
  join (String c "") xs = join (String c "") ys -> xs = ys.
Proof.
  intros Hxs. revert ys. induction Hxs as [|x xs [Hx Hx0] Hxs IH]; intros ys Hys E.
  - destruct Hys as [|y ys [Hy Hy0] Hys]; [reflexivity|].
    rewrite join_cons in E. cbn [join] in E. symmetry in E.
    apply str_app_eq_nil in E as [-> _]. congruence.
  - destruct Hys as [|y ys [Hy Hy0] Hys].
    + rewrite join_cons in E. cbn [join] in E.
      apply str_app_eq_nil in E as [-> _]. congruence.
    + rewrite !join_cons in E.
      apply (split_at c) in E as [-> E]; try assumption.
      * f_equal. destruct xs as [|x' xs], ys as [|y' ys]; try discriminate; [reflexivity|].
        rewrite !str_app_cons, !str_app_nil_l in E. injection E as E.
        apply IH; assumption.
      * destruct xs; [left; reflexivity|right; eexists; reflexivity].
      * destruct ys; [left; reflexivity|right; eexists; reflexivity].
Qed.

Lemma free_of_join c sep xs :
  free_of c sep = true -> Forall (fun x => free_of c x = true) xs ->
  free_of c (join sep xs) = true.
Proof.
  intros Hsep. induction 1 as [|x xs Hx Hxs IH]; [reflexivity|].
  rewrite join_cons, free_of_app, Hx. destruct xs; [reflexivity|].
  rewrite free_of_app, Hsep, IH. reflexivity.
Qed.

Lemma pretty_N_char_free c x :
  c = "&"%char \/ c = ","%char \/ c = "="%char ->
  Ascii.eqb (pretty_N_char x) c = false.
Proof.
  intros [->|[->| ->]]; unfold pretty_N_char; repeat case_match; reflexivity.
Qed.

Lemma pretty_N_go_free c x s :
  c = "&"%char \/ c = ","%char \/ c = "="%char ->
  free_of c s = true -> free_of c (pretty_N_go x s) = true.
Proof.
  intros Hc. revert s. induction (N.lt_wf_0 x) as [x _ IH]; intros s Hs.
  destruct (decide (x = 0)%N) as [->|Hx].
  - rewrite pretty_N_go_0. exact Hs.
  - rewrite pretty_N_go_step by lia. apply IH.
    + apply N.div_lt; lia.
    + cbn. rewrite pretty_N_char_free by exact Hc. exact Hs.
Qed.

Lemma pretty_Z_free c (n : Z) :
  c = "&"%char \/ c = ","%char \/ c = "="%char ->
  free_of c (pretty n) = true.
Proof.
  intros Hc.
  assert (forall x : N, free_of c (pretty x) = true) as HN.
  { intros x. unfold pretty, pretty_N. destruct (decide (x = 0)%N).
    - destruct Hc as [->|[->| ->]]; reflexivity.
    - apply pretty_N_go_free; [exact Hc|reflexivity]. }
  destruct n as [|p|p]; unfold pretty, pretty_Z.
  - destruct Hc as [->|[->| ->]]; reflexivity.
  - apply HN.
  - rewrite free_of_app. change (pretty p) with (pretty (N.pos p)). rewrite HN.
    destruct Hc as [->|[->| ->]]; reflexivity.
Qed.

Lemma entries_inj p1 p2 ks1 ks2 :
  Forall (fun k => free_of "=" k = true) ks1 ->
  Forall (fun k => free_of "=" k = true) ks2 ->
  map (fun k => k +:+ "=" +:+ to_string (lookup_field k p1)) ks1
  = map (fun k => k +:+ "=" +:+ to_string (lookup_field k p2)) ks2 ->
  ks1 = ks2 /\
  Forall (fun k => to_string (lookup_field k p1) = to_string (lookup_field k p2)) ks1.
Proof.
  intros H1. revert ks2. induction H1 as [|k1 ks1 Hk1 H1 IH]; intros ks2 H2 E.
  - destruct ks2; [auto|discriminate].
  - destruct H2 as [|k2 ks2 Hk2 H2]; [discriminate|].
    cbn [map] in E. injection E as Ehd Etl.
    apply (split_at "=") in Ehd as [-> Ev]; try assumption;
      try (right; eexists; reflexivity).
    injection Ev as Ev. destruct (IH ks2 H2 Etl) as [-> Hrest].
    split; [reflexivity|]. constructor; assumption.
Qed.

Lemma str_app_inv_nil s t : s = s +:+ t -> t = "".
Proof.
  intros E. rewrite <- (str_app_nil_r s) in E at 1.
  apply (inj (String.app s)) in E. congruence.
Qed.

Lemma createCacheKey_inj operation p1 p2 :
  Forall (fun k => free_of "=" k = true /\ free_of "&" k = true) (keys p1) ->
  Forall (fun k => free_of "=" k = true /\ free_of "&" k = true) (keys p2) ->
  (forall k, free_of "&" (to_string (lookup_field k p1)) = true) ->
  (forall k, free_of "&" (to_string (lookup_field k p2)) = true) ->
  createCacheKey operation p1 = createCacheKey operation p2 ->
  forall k, shown (lookup_field k p1) = shown (lookup_field k p2).
Proof.
  intros K1 K2 V1 V2. unfold createCacheKey. cbv zeta.
  set (present1 := List.filter _ (keys p1)). set (present2 := List.filter _ (keys p2)).
  set (ks1 := merge_sort String.le present1). set (ks2 := merge_sort String.le present2).
  assert (forall k, k ∈ ks1 <-> is_undefined (lookup_field k p1) = false) as M1.
  { intros k. unfold ks1. rewrite merge_sort_Permutation. unfold present1.
    rewrite list_elem_of_In, filter_In, negb_true_iff. split; [tauto|].
    intros H. split; [apply lookup_field_defined|]; exact H. }
  assert (forall k, k ∈ ks2 <-> is_undefined (lookup_field k p2) = false) as M2.
  { intros k. unfold ks2. rewrite merge_sort_Permutation. unfold present2.
    rewrite list_elem_of_In, filter_In, negb_true_iff. split; [tauto|].
    intros H. split; [apply lookup_field_defined|]; exact H. }
  assert (forall p ks, (forall k, k ∈ ks -> In k (keys p)) ->
            Forall (fun k => free_of "=" k = true /\ free_of "&" k = true) (keys p) ->
            (forall k, free_of "&" (to_string (lookup_field k p)) = true) ->
            Forall (fun k => free_of "=" k = true) ks /\
            Forall (fun x => free_of "&" x = true /\ x <> "")
              (map (fun k => k +:+ "=" +:+ to_string (lookup_field k p)) ks)) as Hclean.
  { intros p ks Hsub Kp Vp. rewrite Forall_forall in Kp. split.
    - apply Forall_forall. intros k Hk. apply Kp, list_elem_of_In, Hsub. exact Hk.
    - apply Forall_forall. intros x Hx. apply list_elem_of_In, in_map_iff in Hx as (k & <- & Hk).
      apply list_elem_of_In in Hk. split.
      + rewrite !free_of_app, Vp. destruct (Kp k) as [_ ->]; [|reflexivity].
        apply list_elem_of_In, Hsub. exact Hk.
      + intros E. apply str_app_eq_nil in E as [_ E]. discriminate. }
  assert (forall k, k ∈ ks1 -> In k (keys p1)) as S1.
  { intros k Hk. apply lookup_field_defined, M1, Hk. }
  assert (forall k, k ∈ ks2 -> In k (keys p2)) as S2.
  { intros k Hk. apply lookup_field_defined, M2, Hk. }
  destruct (Hclean p1 ks1 S1 K1 V1) as [E1 R1].
  destruct (Hclean p2 ks2 S2 K2 V2) as [E2 R2].
  intros Hkey.
  assert (map (fun k => k +:+ "=" +:+ to_string (lookup_field k p1)) ks1
          = map (fun k => k +:+ "=" +:+ to_string (lookup_field k p2)) ks2) as Hmaps.
  { destruct (map _ ks1) as [|x xs] eqn:X1; destruct (map _ ks2) as [|y ys] eqn:X2.
    - reflexivity.
    - apply str_app_inv_nil in Hkey. discriminate.
    - symmetry in Hkey. apply str_app_inv_nil in Hkey. discriminate.
    - apply (inj (String.app operation)) in Hkey.
      apply (inj (String.app ":")) in Hkey.
      apply (join_inj "&"); assumption. }
  destruct (entries_inj p1 p2 ks1 ks2 E1 E2 Hmaps) as [Eks Hvals].
  intros k. unfold shown.
  destruct (is_undefined (lookup_field k p1)) eqn:U1;
    destruct (is_undefined (lookup_field k p2)) eqn:U2; try reflexivity.
  - apply M2 in U2. rewrite <- Eks in U2. apply M1 in U2. congruence.
  - apply M1 in U1. rewrite Eks in U1. apply M2 in U1. congruence.
  - apply M1 in U1. rewrite Forall_forall in Hvals. rewrite (Hvals k U1). reflexivity.
Qed.

Lemma array_join_plain items :
  forallb plain_element items = true ->
  exists texts,
    items = map JStr texts /\ array_join "," items = join "," texts /\
    Forall (fun x => free_of "," x = true /\ x <> "") texts /\
    Forall (fun x => free_of "&" x = true) texts.
Proof.
  induction items as [|v items IH]; cbn [forallb]; intros H.
  - exists []. repeat split; constructor.
  - apply andb_true_iff in H as [Hv H]. destruct (IH H) as (texts & -> & Hjoin & Hc & Ha).
    destruct v as [| | | |s| |]; try discriminate Hv. cbn in Hv.
    apply andb_true_iff in Hv as [Hv Hamp]. apply andb_true_iff in Hv as [Hne Hcomma].
    exists (s :: texts). split; [reflexivity|]. split.
    + unfold array_join in *. cbn [map nullish to_string]. rewrite !join_cons, Hjoin.
      destruct texts; reflexivity.
    + split; constructor; try assumption. split; [exact Hcomma|].
      intros ->. discriminate Hne.
Qed.

Lemma shown_typed_inj ty v1 v2 :
  has_type ty v1 = true -> has_type ty v2 = true ->
  shown (cache_param ty v1) = shown (cache_param ty v2) -> v1 = v2.
Proof.
  destruct ty, v1 as [| |b1|n1|s1|items1|f1]; try discriminate;
    destruct v2 as [| |b2|n2|s2|items2|f2]; try discriminate;
    cbn; intros H1 H2 E; try reflexivity; try discriminate E.
  - destruct b1, b2; try reflexivity; discriminate E.
  - injection E as E. apply (inj pretty) in E. congruence.
  - congruence.
  - destruct (array_join_plain _ H1) as (t1 & -> & J1 & C1 & _).
    destruct (array_join_plain _ H2) as (t2 & -> & J2 & C2 & _).
    unfold shown in E. cbn in E. injection E as E. rewrite J1, J2 in E.
    apply (join_inj ",") in E; [congruence|assumption..].
Qed.

Lemma cache_param_amp_free ty v :
  has_type ty v = true -> free_of "&" (to_string (cache_param ty v)) = true.
Proof.
  destruct ty, v as [| |b|n|s|items|f]; try discriminate; cbn; intros H;
    try reflexivity; try exact H; try (apply pretty_Z_free; auto).
  - destruct b; reflexivity.
  - destruct (array_join_plain _ H) as (texts & -> & -> & _ & A).
    apply free_of_join; [reflexivity|exact A].
Qed.

Lemma lookup_schema (g : string * FieldType -> JValue) schema k :
  lookup_field k (map (fun ft => (ft.1, g ft)) schema) = JUndefined \/
  exists ty, In (k, ty) schema /\
    lookup_field k (map (fun ft => (ft.1, g ft)) schema) = g (k, ty).
Proof.
  induction schema as [|[f ty] schema IH]; cbn; [auto|].
  destruct (String.eqb_spec k f) as [->|Hne].
  - right. exists ty. auto.
  - destruct IH as [E|(ty' & Hin & E)]; [auto|]. right. exists ty'. auto.
Qed.

Lemma lookup_schema_NoDup (g : string * FieldType -> JValue) schema f ty :
  NoDup schema.*1 -> In (f, ty) schema ->
  lookup_field f (map (fun ft => (ft.1, g ft)) schema) = g (f, ty).
Proof.
  induction schema as [|[f0 ty0] schema IH]; cbn; [tauto|].
  intros Hnd [E|Hin].
  - injection E as -> ->. rewrite String.eqb_refl. reflexivity.
  - apply NoDup_cons in Hnd as [Hf0 Hnd].
    destruct (String.eqb_spec f f0) as [->|_]; [|apply IH; assumption].
    exfalso. apply Hf0. apply list_elem_of_In, in_map_iff. exists (f0, ty). auto.
Qed.

(** Typed parameters free of the key's separators are recovered from the
    key. *)
Lemma typed_key_inj operation schema (args1 args2 : string -> JValue) :
  NoDup schema.*1 ->
  Forall (fun k => free_of "=" k = true /\ free_of "&" k = true) schema.*1 ->
  well_typed schema args1 = true -> well_typed schema args2 = true ->
  createCacheKey operation (map (fun ft => (ft.1, cache_param ft.2 (args1 ft.1))) schema)
  = createCacheKey operation (map (fun ft => (ft.1, cache_param ft.2 (args2 ft.1))) schema) ->
  forall f ty, In (f, ty) schema -> args1 f = args2 f.
Proof.
  intros Hnd Hclean T1 T2 Hkey f ty Hin.
  unfold well_typed in T1, T2. rewrite forallb_forall in T1, T2.
  assert (forall args,
            (forall ft, In ft schema -> has_type ft.2 (args ft.1) = true) ->
            forall k, free_of "&" (to_string (lookup_field k
              (map (fun ft => (ft.1, cache_param ft.2 (args ft.1))) schema))) = true) as Hfree.
  { intros args T k.
    destruct (lookup_schema (fun ft => cache_param ft.2 (args ft.1)) schema k)
      as [->|(ty' & Hin' & ->)]; [reflexivity|].
    apply cache_param_amp_free. exact (T _ Hin'). }
  assert (forall args, keys (map (fun ft => (ft.1, cache_param ft.2 (args ft.1))) schema)
                       = schema.*1) as Hkeys.
  { intros args. unfold keys. rewrite <- list_fmap_compose. reflexivity. }
  pose proof (createCacheKey_inj operation _ _
                ltac:(rewrite Hkeys; exact Hclean) ltac:(rewrite Hkeys; exact Hclean)
                (Hfree args1 T1) (Hfree args2 T2) Hkey f) as Hshown.
  rewrite !(lookup_schema_NoDup (fun ft => cache_param ft.2 (_ ft.1)) schema f ty Hnd Hin)
    in Hshown.
  cbn [fst snd] in Hshown.
  exact (shown_typed_inj ty _ _ (T1 _ Hin) (T2 _ Hin) Hshown).
Qed.

Lemma schema_clean :
  Forall (fun k => free_of "=" k = true /\ free_of "&" k = true) getTasks_schema.*1 /\
  Forall (fun k => free_of "=" k = true /\ free_of "&" k = true) searchTasks_schema.*1 /\
  NoDup getTasks_schema.*1 /\ NoDup searchTasks_schema.*1.
Proof.
  repeat split;
    try (apply Forall_forall; intros k Hk; apply list_elem_of_In in Hk; cbn in Hk;
         repeat destruct Hk as [<-|Hk]; try (destruct Hk); split; reflexivity);
    apply (bool_decide_unpack _); vm_compute; exact I.
Qed.

Lemma opt_join_typed v :
  has_type TStrArr v = true -> opt_join v = Ok (cache_param TStrArr v).
Proof. destruct v; try discriminate; reflexivity. Qed.

Lemma getTasks_cacheParams_typed l o :
  well_typed getTasks_schema (argument "list" l o) = true ->
  getTasks_cacheParams l o
  = Ok (map (fun ft => (ft.1, cache_param ft.2 (argument "list" l o ft.1))) getTasks_schema).
Proof.
  intros T. unfold well_typed in T. rewrite forallb_forall in T.
  pose proof (T ("statuses", TStrArr) ltac:(cbn; tauto)) as Hs.
  pose proof (T ("assignees", TStrArr) ltac:(cbn; tauto)) as Ha.
  change (has_type TStrArr (opt_prop "statuses" o) = true) in Hs.
  change (has_type TStrArr (opt_prop "assignees" o) = true) in Ha.
  unfold getTasks_cacheParams. cbv zeta.
  rewrite (opt_join_typed _ Hs), (opt_join_typed _ Ha). reflexivity.
Qed.

Lemma searchTasks_cacheParams_typed q o :
  well_typed searchTasks_schema (argument "query" q o) = true ->
  searchTasks_cacheParams q o
  = Ok (map (fun ft => (ft.1, cache_param ft.2 (argument "query" q o ft.1)))
          searchTasks_schema).
Proof.
  intros T. unfold well_typed in T. rewrite forallb_forall in T.
  pose proof (T ("list_ids", TStrArr) ltac:(cbn; tauto)) as Hl.
  pose proof (T ("space_ids", TStrArr) ltac:(cbn; tauto)) as Hs.
  pose proof (T ("folder_ids", TStrArr) ltac:(cbn; tauto)) as Hf.
  pose proof (T ("statuses", TStrArr) ltac:(cbn; tauto)) as Ht.
  change (has_type TStrArr (opt_prop "list_ids" o) = true) in Hl.
  change (has_type TStrArr (opt_prop "space_ids" o) = true) in Hs.
  change (has_type TStrArr (opt_prop "folder_ids" o) = true) in Hf.
  change (has_type TStrArr (opt_prop "statuses" o) = true) in Ht.
  unfold searchTasks_cacheParams. cbv zeta.
  rewrite (opt_join_typed _ Hl), (opt_join_typed _ Hs), (opt_join_typed _ Hf),
    (opt_join_typed _ Ht). reflexivity.
Qed.

Lemma getTasks_key_inj l1 o1 l2 o2 :
  well_typed getTasks_schema (argument "list" l1 o1) = true ->
  well_typed getTasks_schema (argument "list" l2 o2) = true ->
  read_key (GetTasks l1 o1) = read_key (GetTasks l2 o2) ->
  forall f ty, In (f, ty) getTasks_schema ->
    argument "list" l1 o1 f = argument "list" l2 o2 f.
Proof.
  intros T1 T2 Hkey. cbn [read_key] in Hkey.
  rewrite (getTasks_cacheParams_typed _ _ T1), (getTasks_cacheParams_typed _ _ T2) in Hkey.
  cbn [bind_r] in Hkey. injection Hkey as Hkey.
  destruct schema_clean as (C & _ & N & _).
  exact (typed_key_inj "tasks" getTasks_schema _ _ N C T1 T2 Hkey).
Qed.

Lemma searchTasks_key_inj q1 o1 q2 o2 :
  well_typed searchTasks_schema (argument "query" q1 o1) = true ->
  well_typed searchTasks_schema (argument "query" q2 o2) = true ->
  read_key (SearchTasks q1 o1) = read_key (SearchTasks q2 o2) ->
  forall f ty, In (f, ty) searchTasks_schema ->
    argument "query" q1 o1 f = argument "query" q2 o2 f.
Proof.
  intros T1 T2 Hkey. cbn [read_key] in Hkey.
  rewrite (searchTasks_cacheParams_typed _ _ T1), (searchTasks_cacheParams_typed _ _ T2)
    in Hkey.
  cbn [bind_r] in Hkey. injection Hkey as Hkey.
  destruct schema_clean as (_ & C & _ & N).
  exact (typed_key_inj "search" searchTasks_schema _ _ N C T1 T2 Hkey).
Qed.

Lemma getTasks_endpoint_args l1 o1 l2 o2 :
  (forall f ty, In (f, ty) getTasks_schema ->
     argument "list" l1 o1 f = argument "list" l2 o2 f) ->
  getTasks_endpoint l1 o1 = getTasks_endpoint l2 o2.
Proof.
  intros Hargs.
  assert (l1 = l2) as -> by exact (Hargs "list" TStr ltac:(cbn; tauto)).
  assert (forall f ty, In (f, ty) getTasks_schema -> f <> "list" ->
            opt_prop f o1 = opt_prop f o2) as Hf.
  { intros f ty Hin Hne. specialize (Hargs f ty Hin). unfold argument in Hargs.
    destruct (String.eqb_spec f "list"); [congruence|exact Hargs]. }
  unfold getTasks_endpoint, getTasks_params. cbv zeta.
  repeat match goal with
         | |- context [opt_prop ?f o1] =>
             rewrite (Hf f _ ltac:(cbn; tauto) ltac:(discriminate))
         end.
  reflexivity.
Qed.

Lemma searchTasks_endpoint_args config q1 o1 q2 o2 :
  (forall f ty, In (f, ty) searchTasks_schema ->
     argument "query" q1 o1 f = argument "query" q2 o2 f) ->
  searchTasks_endpoint config q1 o1 = searchTasks_endpoint config q2 o2.
Proof.
  intros Hargs.
  assert (q1 = q2) as -> by exact (Hargs "query" TStr ltac:(cbn; tauto)).
  assert (forall f ty, In (f, ty) searchTasks_schema -> f <> "query" ->
            opt_prop f o1 = opt_prop f o2) as Hf.
  { intros f ty Hin Hne. specialize (Hargs f ty Hin). unfold argument in Hargs.
    destruct (String.eqb_spec f "query"); [congruence|exact Hargs]. }
  unfold searchTasks_endpoint, searchTasks_params. cbv zeta.
  repeat match goal with
         | |- context [opt_prop ?f o1] =>
             rewrite (Hf f _ ltac:(cbn; tauto) ltac:(discriminate))
         end.
  reflexivity.
Qed.

(** C1 (as amended).  Cache-key determinism and distinctness: two calls of
    the same cached read with the same parameter values (whatever the
    insertion order of the option keys, and whether an optional field is
    omitted or [undefined]) derive the same cache key.  Two calls of
    [getTasks], or of [searchTasks], whose parameters have their declared
    types, with strings free of ["&"] and array elements that are non-empty
    and free of [","] and ["&"], derive different keys as soon as they
    differ in one parameter, in particular as soon as they lead to different
    remote queries. *)
Theorem cache_key_contract (config : ClickUpConfig) :
  (forall op1 op2, same_call op1 op2 -> read_key op1 = read_key op2) /\
  (forall l1 o1 l2 o2,
     well_typed getTasks_schema (argument "list" l1 o1) = true ->
     well_typed getTasks_schema (argument "list" l2 o2) = true ->
     (exists f ty, In (f, ty) getTasks_schema /\
        argument "list" l1 o1 f <> argument "list" l2 o2 f) \/
     read_endpoint config (GetTasks l1 o1) <> read_endpoint config (GetTasks l2 o2) ->
     read_key (GetTasks l1 o1) <> read_key (GetTasks l2 o2)) /\
  (forall q1 o1 q2 o2,
     well_typed searchTasks_schema (argument "query" q1 o1) = true ->
     well_typed searchTasks_schema (argument "query" q2 o2) = true ->
     (exists f ty, In (f, ty) searchTasks_schema /\
        argument "query" q1 o1 f <> argument "query" q2 o2 f) \/
     read_endpoint config (SearchTasks q1 o1) <> read_endpoint config (SearchTasks q2 o2) ->
     read_key (SearchTasks q1 o1) <> read_key (SearchTasks q2 o2)).
Proof.
  split; [exact same_call_key|]. split.
  - intros l1 o1 l2 o2 T1 T2 Hdiff Hkey.
    pose proof (getTasks_key_inj l1 o1 l2 o2 T1 T2 Hkey) as Hargs.
    destruct Hdiff as [(f & ty & Hin & Hne)|Hne].
    + exact (Hne (Hargs f ty Hin)).
    + apply Hne. cbn [read_endpoint]. apply getTasks_endpoint_args. exact Hargs.
  - intros q1 o1 q2 o2 T1 T2 Hdiff Hkey.
    pose proof (searchTasks_key_inj q1 o1 q2 o2 T1 T2 Hkey) as Hargs.
    destruct Hdiff as [(f & ty & Hin & Hne)|Hne].
    + exact (Hne (Hargs f ty Hin)).
    + apply Hne. cbn [read_endpoint]. apply searchTasks_endpoint_args. exact Hargs.
Qed.

Lemma cache_key_contract_witness :
  read_key (GetTasks (JStr "L1") (JObj [("statuses", JArr [JStr "open"])]))
  <> read_key (GetTasks (JStr "L1") example_options).
Proof.
  destruct (cache_key_contract Examples.config) as (_ & Hdistinct & _).
  apply Hdistinct; [reflexivity|reflexivity|].
  left. exists "due_date_lt", TNum. split; [cbn; tauto|discriminate].
Defined.

(** C1, as first stated, fails: the status [a,b] and the two statuses [a]
    and [b] are joined to the same cache parameter, hence to the same key
    whatever the key function, while the two calls send different queries. *)
Lemma joined_arrays_collide :
  getTasks_cacheParams (JStr "L1") Examples.one_status
  = getTasks_cacheParams (JStr "L1") Examples.two_statuses /\
  read_key (GetTasks (JStr "L1") Examples.one_status)
  = read_key (GetTasks (JStr "L1") Examples.two_statuses) /\
  read_endpoint Examples.config (GetTasks (JStr "L1") Examples.one_status)
  = Ok "/list/L1/task?statuses%5B%5D=a%2Cb" /\
  read_endpoint Examples.config (GetTasks (JStr "L1") Examples.two_statuses)
  = Ok "/list/L1/task?statuses%5B%5D=a&statuses%5B%5D=b".
Proof. repeat split; vm_compute; reflexivity. Qed.

(** ** The workspace traversal *)

Lemma single_param_key operation k v :
  createCacheKey operation [(k, v)]
  = if is_undefined v then operation
    else operation +:+ ":" +:+ k +:+ "=" +:+ to_string v.
Proof.
  unfold createCacheKey. cbn. rewrite String.eqb_refl.
  destruct (is_undefined v); cbn; [reflexivity|]. rewrite String.eqb_refl. reflexivity.
Qed.

Lemma is_undefined_true v : is_undefined v = true -> v = JUndefined.
Proof. destruct v; cbn; congruence. Qed.

Lemma hierarchy_ok config op :
  hierarchy op -> exists key endpoint,
    read_key op = Ok key /\ read_endpoint config op = Ok endpoint.
Proof. destruct op; cbn; try contradiction; eauto. Qed.

Lemma Ok_inj {A} (a b : A) : Ok a = Ok b -> a = b.
Proof. congruence. Qed.

Lemma hierarchy_key_inj config op op' key :
  hierarchy op -> hierarchy op' ->
  read_key op = Ok key -> read_key op' = Ok key ->
  read_endpoint config op = read_endpoint config op' /\
  forall result, read_decode op result = read_decode op' result.
Proof.
  destruct op, op'; cbn [hierarchy]; try contradiction; intros _ _;
    cbn [read_key read_endpoint read_decode]; rewrite ?single_param_key;
    repeat match goal with
           | |- context [is_undefined ?v] =>
               let E := fresh "E" in
               destruct (is_undefined v) eqn:E; [apply is_undefined_true in E; subst v|]
           end;
    intros E' Hk; rewrite <- Hk in E'; clear Hk; apply Ok_inj in E';
    expose_text; try discriminate E';
    try (injection E' as E'; rewrite ?E'); auto.
Qed.

Lemma answer_stateless net h1 h2 req :
  stateless net -> answer net h1 req = answer net h2 req.
Proof. intros H. unfold answer. rewrite (H h1 h2). reflexivity. Qed.

Lemma read_run net config op st key endpoint :
  stateless net ->
  read_key op = Ok key -> read_endpoint config op = Ok endpoint ->
  read net config op st =
  match hit st key with
  | Some v => (Ok v, st)
  | None =>
      let st1 := with_sent (sent st ++ [request_of config "GET" endpoint JUndefined]) st in
      match fetched net config op with
      | Ok v =>
          (Ok v,
           if PluginCache.enabled (cache st)
           then with_cache (PluginCache.store key v (now st + read_ttl op) (cache st)) st1
           else st1)
      | Throw e => (Throw e, st1)
      end
  end.
Proof.
  intros Hnet Hkey Hep. rewrite read_unfold, Hkey. unfold cached, getOrFetch, hit, fetched.
  cbv zeta. destruct (if _ && _ then _ else _); [reflexivity|].
  rewrite fetch_run, Hep. cbv zeta. cbn [bind_r].
  rewrite (answer_stateless net (sent st) [] _ Hnet).
  destruct (bind_r _ _); reflexivity.
Qed.

Lemma read_ttl_pos op : 0 < read_ttl op.
Proof. destruct op; reflexivity. Qed.

Lemma served_eq net config op st key endpoint :
  stateless net ->
  read_key op = Ok key -> read_endpoint config op = Ok endpoint ->
  served net config st op =
  match hit st key with
  | Some v => Ok v
  | None => fetched net config op
  end.
Proof.
  intros Hnet Hkey Hep. unfold served.
  rewrite (read_run net config op st key endpoint Hnet Hkey Hep).
  destruct (hit st key); [reflexivity|]. cbv zeta.
  destruct (fetched net config op); reflexivity.
Qed.

Lemma served_after_read net config op' st op :
  stateless net -> hierarchy op' -> hierarchy op ->
  served net config (read net config op' st).2 op = served net config st op.
Proof.
  intros Hnet H' H.
  destruct (hierarchy_ok config op' H') as (key' & ep' & Hkey' & Hep').
  destruct (hierarchy_ok config op H) as (key & ep & Hkey & Hep).
  rewrite !(served_eq net config op _ key ep Hnet Hkey Hep).
  rewrite (read_run net config op' st key' ep' Hnet Hkey' Hep').
  destruct (hit st key') as [v'|] eqn:Hhit'; [reflexivity|].
  cbv zeta. destruct (fetched net config op') as [v|e] eqn:Hfetched'; [|reflexivity].
  cbn [snd]. destruct (PluginCache.enabled (cache st)) eqn:Hen; [|reflexivity].
  unfold hit in *. cbn. rewrite Hen in *. cbn [andb] in *.
  destruct (negb (cacheDisabled st)); [|reflexivity].
  rewrite peek_store. destruct (decide (key' = key)) as [->|Hne]; [|reflexivity].
  rewrite Hhit'.
  destruct (Z.ltb_spec (now st) (now st + read_ttl op')) as [Hlt|Hle];
    [|pose proof (read_ttl_pos op'); lia].
  destruct (hierarchy_key_inj config op op' key H H' Hkey Hkey') as [Eep Edec].
  assert (fetched net config op = fetched net config op') as ->.
  { unfold fetched. rewrite Eep. destruct (read_endpoint config op'); [|reflexivity].
    cbn [bind_r]. destruct (answer _ _ _); [|reflexivity]. cbn [bind_r]. apply Edec. }
  rewrite Hfetched'. reflexivity.
Qed.

Lemma requests_app config ops1 ops2 :
  requests config (ops1 ++ ops2) = requests config ops1 ++ requests config ops2.
Proof. unfold requests. apply flat_map_app. Qed.

Lemma prop_r_Ok k v x : prop_r k v = Ok x -> opt_prop k v = x.
Proof. destruct v; cbn; congruence. Qed.

Lemma map_r_singleton {A B} (f : A -> Result B) items :
  map_r (fun x => bind_r (f x) (fun y => Ok [y])) items
  = bind_r (map_r f items) (fun ys => Ok (map (fun y => [y]) ys)).
Proof.
  induction items as [|x items IH]; cbn [map_r bind_r]; [reflexivity|].
  destruct (f x); cbn [bind_r]; [|reflexivity].
  rewrite IH. destruct (map_r f items); reflexivity.
Qed.

Lemma concat_singletons {A} (ys : list A) : concat (map (fun y => [y]) ys) = ys.
Proof. induction ys as [|y ys IH]; cbn; [|rewrite IH]; reflexivity. Qed.

Lemma flat_map_nil {A B} (l : list A) : flat_map (fun _ => @nil B) l = [].
Proof. induction l; cbn; auto. Qed.

Lemma flat_map_singleton {A B} (f : A -> B) l : flat_map (fun x => [f x]) l = map f l.
Proof. induction l as [|x l IH]; cbn; [|rewrite IH]; reflexivity. Qed.

Section Tracking.

Context (net : Network) (config : ClickUpConfig) (view : ReadOp -> Result JValue).
Context (Hnet : stateless net).

Local Abbreviation tracks := (tracks net config view).

Lemma tracks_silent {A} (m : M A) r :
  (forall st, m st = (r, st)) -> tracks m r [].
Proof.
  intros Hm st Hst. rewrite Hm. cbn. split; [reflexivity|]. split; [exact Hst|].
  intros Hoff. split; [exact Hoff|]. intros _ _. rewrite app_nil_r. reflexivity.
Qed.

Lemma tracks_ret {A} (a : A) : tracks (ret a) (Ok a) [].
Proof. apply tracks_silent. reflexivity. Qed.

Lemma tracks_lift {A} (r : Result A) : tracks (lift r) r [].
Proof. apply tracks_silent. reflexivity. Qed.

Lemma tracks_weaken {A} (m : M A) r r' reads reads' :
  tracks m r reads -> r = r' -> (forall a, r' = Ok a -> reads = reads') ->
  tracks m r' reads'.
Proof.
  intros Hm <- Hreads st Hst. destruct (Hm st Hst) as (Hr & Hagree & Hoff).
  split; [exact Hr|]. split; [exact Hagree|].
  intros Hst_off. destruct (Hoff Hst_off) as [Hoff' Hsent]. split; [exact Hoff'|].
  intros a Ha. rewrite <- (Hreads a Ha). exact (Hsent a Ha).
Qed.

Lemma tracks_bind {A B} (m : M A) (k : A -> M B) r (k' : A -> Result B) reads reads' :
  tracks m r reads ->
  (forall a, r = Ok a -> tracks (k a) (k' a) (reads' a)) ->
  tracks (bind m k) (bind_r r k') (reads ++ from_ok r reads').
Proof.
  intros Hm Hk st Hst. destruct (Hm st Hst) as (Hr & Hagree & Hoff).
  unfold bind. destruct (m st) as [[a|e] st1]; cbn [fst snd] in *; subst r; cbn [bind_r from_ok].
  - destruct (Hk a eq_refl st1 Hagree) as (Hr2 & Hagree2 & Hoff2).
    split; [exact Hr2|]. split; [exact Hagree2|].
    intros Hst_off. destruct (Hoff Hst_off) as [Hoff1 Hsent1].
    destruct (Hoff2 Hoff1) as [Hoff3 Hsent2]. split; [exact Hoff3|].
    intros b Hb. rewrite (Hsent2 b Hb), (Hsent1 a eq_refl), requests_app, app_assoc.
    reflexivity.
  - split; [reflexivity|]. split; [exact Hagree|].
    intros Hst_off. destruct (Hoff Hst_off) as [Hoff1 _]. split; [exact Hoff1|].
    intros b Hb. discriminate Hb.
Qed.

Lemma tracks_read op : hierarchy op -> tracks (read net config op) (view op) [op].
Proof.
  intros Hop st Hst. split; [exact (Hst op Hop)|]. split.
  - intros op0 Hop0. rewrite served_after_read by assumption. exact (Hst op0 Hop0).
  - intros Hoff. destruct (hierarchy_ok config op Hop) as (key & endpoint & Hkey & Hep).
    destruct (read_caching_off net config op st key Hoff Hkey) as (_ & Hfetch & Hnext).
    split; [exact Hnext|]. intros _ _. rewrite Hfetch, fetch_run, Hep. cbn.
    unfold requests. cbn. rewrite Hep. reflexivity.
Qed.

Lemma tracks_for_of_append (body : JValue -> list JValue -> M (list JValue))
    (g : JValue -> Result (list JValue)) (t : JValue -> list ReadOp) items :
  (forall x acc, In x items ->
     tracks (body x acc) (bind_r (g x) (fun ys => Ok (acc ++ ys))) (t x)) ->
  forall acc,
    tracks (for_of items body acc)
      (bind_r (map_r g items) (fun yss => Ok (acc ++ concat yss)))
      (flat_map t items).
Proof.
  induction items as [|x items IH]; intros Hbody acc; cbn [for_of map_r flat_map].
  - eapply tracks_weaken; [apply tracks_ret| |reflexivity].
    cbn. rewrite app_nil_r. reflexivity.
  - eapply tracks_weaken.
    + eapply tracks_bind; [apply Hbody; left; reflexivity|].
      intros acc' _. apply IH. intros y acc0 Hy. apply Hbody. right. exact Hy.
    + destruct (g x) as [ys|e]; cbn [bind_r]; [|reflexivity].
      destruct (map_r g items); cbn [bind_r concat]; [|reflexivity].
      rewrite app_assoc. reflexivity.
    + intros a Ha. destruct (g x) as [ys|e]; cbn [bind_r from_ok] in *; [reflexivity|].
      discriminate Ha.
Qed.

Lemma tracks_push_each (f : JValue -> Result JValue) lists acc :
  tracks (push_each f lists acc)
    (bind_r (map_r f lists) (fun ys => Ok (acc ++ ys))) [].
Proof.
  unfold push_each. eapply tracks_weaken.
  - apply (tracks_for_of_append _ (fun x => bind_r (f x) (fun y => Ok [y])) (fun _ => [])).
    intros x acc0 _. eapply tracks_weaken.
    + eapply tracks_bind; [apply tracks_lift|]. intros item _. apply tracks_ret.
    + destruct (f x); reflexivity.
    + intros a _. destruct (f x); reflexivity.
  - rewrite map_r_singleton. destruct (map_r f lists); cbn [bind_r]; [|reflexivity].
    rewrite concat_singletons. reflexivity.
  - intros a _. apply flat_map_nil.
Qed.


Lemma tracks_folder space folder acc :
  tracks
    (let* folderId := lift (prop_r "id" folder) in
     let* lists := getLists net config folderId in
     let* lists := lift (iterate lists) in
     push_each (fun list =>
       bind_r (prop_r "name" space) (fun spaceName =>
       bind_r (prop_r "name" folder) (fun folderName =>
       Ok (annotate_folder spaceName folderName list)))) lists acc)
    (bind_r (lists_of_folder view space folder) (fun ys => Ok (acc ++ ys)))
    [GetLists (id_of folder)].
Proof.
  eapply tracks_weaken.
  - eapply tracks_bind; [apply tracks_lift|]. intros folderId _.
    eapply tracks_bind; [apply (tracks_read (GetLists folderId) I)|]. intros lists _.
    eapply tracks_bind; [apply tracks_lift|]. intros lists' _.
    apply tracks_push_each.
  - unfold lists_of_folder.
    destruct (prop_r "id" folder) as [folderId|]; cbn [bind_r]; [|reflexivity].
    destruct (view (GetLists folderId)) as [lists|]; cbn [bind_r]; [|reflexivity].
    destruct (iterate lists) as [lists'|]; cbn [bind_r]; reflexivity.
  - intros a Ha. unfold id_of.
    destruct (prop_r "id" folder) as [folderId|] eqn:Hid; cbn [bind_r from_ok] in *;
      [|unfold lists_of_folder in Ha; rewrite Hid in Ha; discriminate Ha].
    rewrite (prop_r_Ok _ _ _ Hid).
    destruct (view (GetLists folderId)) as [lists|]; cbn [from_ok]; [|reflexivity].
    destruct (iterate lists); reflexivity.
Qed.

Lemma tracks_space space acc :
  tracks
    (let* spaceId := lift (prop_r "id" space) in
     let* folderlessLists := getFolderlessLists net config spaceId in
     let* folderlessLists := lift (iterate folderlessLists) in
     let* allLists :=
       push_each (fun list =>
         bind_r (prop_r "name" space) (fun spaceName =>
         Ok (annotate_space spaceName list))) folderlessLists acc in
     let* folders := getFolders net config spaceId in
     let* folders := lift (iterate folders) in
     for_of folders (fun folder allLists =>
       let* folderId := lift (prop_r "id" folder) in
       let* lists := getLists net config folderId in
       let* lists := lift (iterate lists) in
       push_each (fun list =>
         bind_r (prop_r "name" space) (fun spaceName =>
         bind_r (prop_r "name" folder) (fun folderName =>
         Ok (annotate_folder spaceName folderName list)))) lists allLists)
       allLists)
    (bind_r (lists_of_space view space) (fun ys => Ok (acc ++ ys)))
    (reads_of_space view space).
Proof.
  eapply tracks_weaken.
  - eapply tracks_bind; [apply tracks_lift|]. intros spaceId _.
    eapply tracks_bind; [apply (tracks_read (GetFolderlessLists spaceId) I)|].
    intros folderless _.
    eapply tracks_bind; [apply tracks_lift|]. intros folderless' _.
    eapply tracks_bind; [apply tracks_push_each|]. intros allLists _.
    eapply tracks_bind; [apply (tracks_read (GetFolders spaceId) I)|]. intros folders _.
    eapply tracks_bind; [apply tracks_lift|]. intros folders' _.
    apply (tracks_for_of_append _ (lists_of_folder view space)
             (fun folder => [GetLists (id_of folder)])).
    intros folder acc0 _. apply tracks_folder.
  - unfold lists_of_space.
    destruct (prop_r "id" space) as [spaceId|]; cbn [bind_r]; [|reflexivity].
    destruct (view (GetFolderlessLists spaceId)) as [folderless|]; cbn [bind_r];
      [|reflexivity].
    destruct (iterate folderless) as [folderless'|]; cbn [bind_r]; [|reflexivity].
    destruct (map_r _ folderless') as [direct|]; cbn [bind_r]; [|reflexivity].
    destruct (view (GetFolders spaceId)) as [folders|]; cbn [bind_r]; [|reflexivity].
    destruct (iterate folders) as [folders'|]; cbn [bind_r]; [|reflexivity].
    destruct (map_r _ folders') as [nested|]; cbn [bind_r]; [|reflexivity].
    rewrite app_assoc. reflexivity.
  - intros a Ha. unfold reads_of_space, items_of, id_of, lists_of_space in *.
    destruct (prop_r "id" space) as [spaceId|] eqn:Hid; cbn [bind_r from_ok] in *;
      [|discriminate Ha].
    rewrite (prop_r_Ok _ _ _ Hid).
    destruct (view (GetFolderlessLists spaceId)) as [folderless|]; cbn [bind_r from_ok] in *;
      [|discriminate Ha].
    destruct (iterate folderless) as [folderless'|]; cbn [bind_r from_ok] in *;
      [|discriminate Ha].
    destruct (map_r _ folderless') as [direct|]; cbn [bind_r from_ok] in *;
      [|discriminate Ha].
    destruct (view (GetFolders spaceId)) as [folders|]; cbn [bind_r from_ok] in *;
      [|discriminate Ha].
    destruct (iterate folders) as [folders'|]; cbn [bind_r from_ok] in *;
      [|discriminate Ha].
    cbn. rewrite flat_map_singleton. reflexivity.
Qed.

Lemma tracks_getAllLists :
  tracks (getAllLists net config) (all_lists view) (all_reads view).
Proof.
  unfold getAllLists. eapply tracks_weaken.
  - eapply tracks_bind; [apply (tracks_read GetSpaces I)|]. intros spaces _.
    eapply tracks_bind; [apply tracks_lift|]. intros spaces' _.
    eapply tracks_bind.
    + apply (tracks_for_of_append _ (lists_of_space view) (reads_of_space view)).
      intros space acc _. apply tracks_space.
    + intros allLists _. apply tracks_ret.
  - unfold all_lists.
    destruct (view GetSpaces) as [spaces|]; cbn [bind_r]; [|reflexivity].
    destruct (iterate spaces) as [spaces'|]; cbn [bind_r]; [|reflexivity].
    destruct (map_r _ spaces'); reflexivity.
  - intros a Ha. unfold all_reads, items_of, all_lists in *.
    destruct (view GetSpaces) as [spaces|]; cbn [bind_r from_ok] in *; [|discriminate Ha].
    destruct (iterate spaces) as [spaces'|]; cbn [bind_r from_ok] in *; [|discriminate Ha].
    destruct (map_r _ spaces'); cbn [bind_r from_ok] in *; [|discriminate Ha].
    cbn. rewrite !app_nil_r. reflexivity.
Qed.

End Tracking.

(** ** The traversal as a sequence of reads *)

Lemma sequence_app net config t1 t2 st st' :
  sequence net config (t1 ++ t2) st st' <->
  exists st1, sequence net config t1 st st1 /\ sequence net config t2 st1 st'.
Proof.
  revert st. induction t1 as [|[op v] t1 IH]; intros st; cbn [app sequence].
  - split; [intros H; exists st; auto|intros (st1 & -> & H); exact H].
  - rewrite IH. split.
    + intros (Hv & st1 & H1 & H2). exists st1. auto.
    + intros (st1 & (Hv & H1) & H2). split; [exact Hv|]. exists st1. auto.
Qed.

Lemma sequence_one net config op v st st' :
  sequence net config [(op, v)] st st' <-> read net config op st = (Ok v, st').
Proof.
  cbn [sequence]. destruct (read net config op st) as [r st1]. cbn [fst snd]. split.
  - intros [-> ->]. reflexivity.
  - intros [= -> ->]. auto.
Qed.

Lemma items_of_iterate v items : iterate v = Ok items -> items_of (Ok v) = items.
Proof. unfold items_of. cbn [bind_r]. intros ->. reflexivity. Qed.

Lemma prop_r_present k v : nullish v = false -> prop_r k v = Ok (opt_prop k v).
Proof. destruct v; cbn; congruence. Qed.

Lemma prop_r_nullish k v x : prop_r k v = Ok x -> nullish v = false.
Proof. destruct v; cbn; congruence. Qed.

Lemma push_each_run f lists acc st :
  push_each f lists acc st = (bind_r (map_r f lists) (fun ys => Ok (acc ++ ys)), st).
Proof.
  unfold push_each. revert acc.
  induction lists as [|x lists IH]; intros acc; cbn [for_of map_r bind_r].
  - unfold ret. rewrite app_nil_r. reflexivity.
  - unfold bind at 1. unfold bind at 1, lift, ret.
    destruct (f x) as [y|e]; cbn [bind_r]; [|reflexivity].
    rewrite IH. destruct (map_r f lists) as [ys|e]; cbn [bind_r]; [|reflexivity].
    rewrite <- app_assoc. reflexivity.
Qed.

Lemma map_r_total {A B} (f : A -> B) (items : list A) :
  map_r (fun x => Ok (f x)) items = Ok (map f items).
Proof.
  induction items as [|x items IH]; cbn [map_r map bind_r]; [reflexivity|].
  rewrite IH. reflexivity.
Qed.

Lemma bind_run {A B} (m : M A) (k : A -> M B) st a st1 :
  m st = (Ok a, st1) -> bind m k st = k a st1.
Proof. unfold bind. intros ->. reflexivity. Qed.

(** A loop that visits: when each round is a visit that appends its
    output, the loop is the visits in order, one after the other. *)
Lemma for_of_visits net config {V} (body : JValue -> list JValue -> M (list JValue))
    (item_of : V -> JValue) (good : V -> Prop)
    (reads : V -> list (ReadOp * JValue)) (out : V -> list JValue) :
  (forall x acc st acc' st',
     body x acc st = (Ok acc', st') <->
     exists v, item_of v = x /\ good v /\ sequence net config (reads v) st st' /\
               acc' = acc ++ out v) ->
  forall items acc st acc' st',
    for_of items body acc st = (Ok acc', st') <->
    exists vs, map item_of vs = items /\ Forall good vs /\
               sequence net config (flat_map reads vs) st st' /\
               acc' = acc ++ flat_map out vs.
Proof.
  intros Hbody. induction items as [|x items IH]; intros acc st acc' st'; cbn [for_of].
  - unfold ret. split.
    + intros [= <- <-]. exists []. cbn. rewrite app_nil_r. auto.
    + intros (vs & Hvs & _ & Hseq & ->). destruct vs; [|discriminate Hvs].
      cbn in *. subst. rewrite app_nil_r. reflexivity.
  - split.
    + intros H. apply bind_inv in H as [(acc1 & st1 & Hstep & H)|(e & _ & [=])].
      apply Hbody in Hstep as (v & <- & Hgood & Hseq & ->).
      apply IH in H as (vs & <- & Hgoods & Hseqs & ->).
      exists (v :: vs). cbn [map flat_map]. split; [reflexivity|].
      split; [constructor; assumption|]. split.
      * apply sequence_app. exists st1. auto.
      * rewrite app_assoc. reflexivity.
    + intros (vs & Hvs & Hgoods & Hseq & ->). destruct vs as [|v vs]; [discriminate Hvs|].
      cbn [map flat_map] in *. injection Hvs as <- <-.
      apply Forall_cons in Hgoods as [Hgood Hgoods].
      apply sequence_app in Hseq as (st1 & Hseq1 & Hseq2).
      rewrite (bind_run _ _ st (acc ++ out v) st1).
      * apply IH. exists vs. rewrite app_assoc. auto.
      * apply Hbody. exists v. auto.
Qed.

Section Visits.

Context (net : Network) (config : ClickUpConfig).

(** The rounds of the two loops of [getAllLists]. *)
Local Abbreviation folder_round space :=
  (fun folder allLists =>
     let* folderId := lift (prop_r "id" folder) in
     let* lists := getLists net config folderId in
     let* lists := lift (iterate lists) in
     push_each (fun list =>
       bind_r (prop_r "name" space) (fun spaceName =>
       bind_r (prop_r "name" folder) (fun folderName =>
       Ok (annotate_folder spaceName folderName list)))) lists allLists).

Local Abbreviation space_round :=
  (fun space allLists =>
     let* spaceId := lift (prop_r "id" space) in
     let* folderlessLists := getFolderlessLists net config spaceId in
     let* folderlessLists := lift (iterate folderlessLists) in
     let* allLists :=
       push_each (fun list =>
         bind_r (prop_r "name" space) (fun spaceName =>
         Ok (annotate_space spaceName list))) folderlessLists allLists in
     let* folders := getFolders net config spaceId in
     let* folders := lift (iterate folders) in
     for_of folders (folder_round space) allLists).

Lemma folder_step space folder acc st acc' st' :
  nullish space = false ->
  folder_round space folder acc st = (Ok acc', st') <->
  exists f, visited_folder f = folder /\ folder_visited f /\
            sequence net config (folder_reads f) st st' /\
            acc' = acc ++ folder_lists space f.
Proof.
  intros Hspace. split.
  - intros H.
    apply bind_inv in H as [(folderId & st1 & Hid & H)|(e & _ & [=])].
    unfold lift in Hid. injection Hid as Hid <-.
    apply bind_inv in H as [(lists & st2 & Hread & H)|(e & _ & [=])].
    apply bind_inv in H as [(items & st3 & Hitems & H)|(e & _ & [=])].
    unfold lift in Hitems. injection Hitems as Hitems <-.
    rewrite push_each_run in H.
    pose proof (prop_r_nullish _ _ _ Hid) as Hfolder.
    rewrite (prop_r_present "name" space Hspace),
      (prop_r_present "name" folder Hfolder) in H.
    cbn [bind_r] in H. rewrite map_r_total in H. cbn [bind_r] in H.
    injection H as <- <-.
    exists {| visited_folder := folder; lists_read := lists |}.
    unfold folder_visited, folder_reads, folder_lists, iterable, id_of.
    cbn [visited_folder lists_read].
    rewrite (items_of_iterate _ _ Hitems), (prop_r_Ok _ _ _ Hid).
    split; [reflexivity|]. split; [split; [exact Hfolder|eauto]|].
    split; [apply sequence_one; exact Hread|reflexivity].
  - intros ([folder' lists] & Hf & [Hfolder [items Hitems]] & Hseq & ->).
    cbn [visited_folder lists_read] in *. subst folder'.
    unfold folder_reads, folder_lists, id_of in *. cbn [visited_folder lists_read] in *.
    apply sequence_one in Hseq. cbn [read] in Hseq.
    unfold bind at 1, lift. rewrite (prop_r_present "id" folder Hfolder).
    rewrite (bind_run _ _ st lists st' Hseq).
    unfold bind at 1. rewrite Hitems.
    rewrite push_each_run.
    rewrite (prop_r_present "name" space Hspace),
      (prop_r_present "name" folder Hfolder).
    cbn [bind_r]. rewrite map_r_total. cbn [bind_r].
    rewrite (items_of_iterate _ _ Hitems). reflexivity.
Qed.

Lemma space_step space acc st acc' st' :
  space_round space acc st = (Ok acc', st') <->
  exists s, visited_space s = space /\ space_visited s /\
            sequence net config (space_reads s) st st' /\
            acc' = acc ++ space_lists s.
Proof.
  split.
  - intros H.
    apply bind_inv in H as [(spaceId & st1 & Hid & H)|(e & _ & [=])].
    unfold lift in Hid. injection Hid as Hid <-.
    pose proof (prop_r_nullish _ _ _ Hid) as Hspace.
    apply bind_inv in H as [(folderless & st2 & Hread1 & H)|(e & _ & [=])].
    apply bind_inv in H as [(items & st3 & Hitems & H)|(e & _ & [=])].
    unfold lift in Hitems. injection Hitems as Hitems <-.
    apply bind_inv in H as [(acc1 & st4 & Hpush & H)|(e & _ & [=])].
    rewrite push_each_run, (prop_r_present "name" space Hspace) in Hpush.
    cbn [bind_r] in Hpush. rewrite map_r_total in Hpush. cbn [bind_r] in Hpush.
    injection Hpush as <- <-.
    apply bind_inv in H as [(folders & st5 & Hread2 & H)|(e & _ & [=])].
    apply bind_inv in H as [(folders' & st6 & Hfolders & H)|(e & _ & [=])].
    unfold lift in Hfolders. injection Hfolders as Hfolders <-.
    apply (for_of_visits net config (folder_round space) visited_folder folder_visited
             folder_reads (folder_lists space)) in H;
      [|intros; apply folder_step; exact Hspace].
    destruct H as (fs & Hfs & Hgood & Hseq & ->).
    exists {| visited_space := space; folderless_read := folderless;
              folders_read := folders; folder_visits := fs |}.
    unfold space_visited, space_reads, space_lists, iterable, id_of.
    cbn [visited_space folderless_read folders_read folder_visits].
    rewrite (items_of_iterate _ _ Hitems), (prop_r_Ok _ _ _ Hid), Hfs.
    split; [reflexivity|]. split; [split; [exact Hspace|]; split; [eauto|]; auto|].
    split; [|rewrite app_assoc; reflexivity].
    change (?a :: ?b :: ?l) with ([a] ++ [b] ++ l).
    apply sequence_app. exists st2. split; [apply sequence_one; exact Hread1|].
    apply sequence_app. exists st5. split; [apply sequence_one; exact Hread2|exact Hseq].
  - intros ([space' folderless folders fs] & Hs & (Hspace & [items Hitems] & Hfolders & Hgood)
            & Hseq & ->).
    cbn [visited_space folderless_read folders_read folder_visits] in *. subst space'.
    unfold space_reads, space_lists, id_of in *.
    cbn [visited_space folderless_read folders_read folder_visits] in *.
    change (?a :: ?b :: ?l) with ([a] ++ [b] ++ l) in Hseq.
    apply sequence_app in Hseq as (st2 & Hread1 & Hseq).
    apply sequence_app in Hseq as (st5 & Hread2 & Hseq).
    apply sequence_one in Hread1, Hread2. cbn [read] in Hread1, Hread2.
    set (round := folder_round space).
    unfold bind at 1, lift. rewrite (prop_r_present "id" space Hspace).
    rewrite (bind_run _ _ st folderless st2 Hread1).
    unfold bind at 1. rewrite Hitems.
    unfold bind at 1. rewrite push_each_run, (prop_r_present "name" space Hspace).
    cbn [bind_r]. rewrite map_r_total. cbn [bind_r].
    rewrite (bind_run _ _ st2 folders st5 Hread2).
    unfold bind at 1. rewrite Hfolders.
    subst round.
    apply (for_of_visits net config (folder_round space) visited_folder folder_visited
             folder_reads (folder_lists space));
      [intros; apply folder_step; exact Hspace|].
    exists fs. rewrite (items_of_iterate _ _ Hitems), app_assoc. auto.
Qed.

(** [getAllLists] returns exactly when its reads, made one after the other,
    return and can be run over, and then returns the lists of the spaces
    in order. *)
Lemma getAllLists_visits st lists st' :
  getAllLists net config st = (Ok lists, st') <->
  exists spaces visits,
    traversed net config st spaces visits st' /\
    lists = JArr (flat_map space_lists visits).
Proof.
  unfold getAllLists, traversed. split.
  - intros H.
    apply bind_inv in H as [(spaces & st1 & Hread & H)|(e & _ & [=])].
    apply bind_inv in H as [(items & st2 & Hitems & H)|(e & _ & [=])].
    unfold lift in Hitems. injection Hitems as Hitems <-.
    apply bind_inv in H as [(all & st3 & Hloop & H)|(e & _ & [=])].
    unfold ret in H. injection H as <- <-.
    apply (for_of_visits net config space_round visited_space space_visited space_reads
             space_lists) in Hloop; [|intros; apply space_step].
    destruct Hloop as (visits & Hvisits & Hgood & Hseq & ->).
    exists spaces, visits. rewrite Hvisits. split; [|reflexivity].
    split; [exact Hitems|]. split; [exact Hgood|].
    change (?a :: ?l) with ([a] ++ l). apply sequence_app. exists st1.
    split; [apply sequence_one; exact Hread|exact Hseq].
  - intros (spaces & visits & (Hitems & Hgood & Hseq) & ->).
    change (?a :: ?l) with ([a] ++ l) in Hseq.
    apply sequence_app in Hseq as (st1 & Hread & Hseq).
    apply sequence_one in Hread. cbn [read] in Hread.
    set (round := space_round).
    rewrite (bind_run _ _ st spaces st1 Hread).
    unfold bind at 1, lift. rewrite Hitems.
    assert (for_of (map visited_space visits) round [] st1
            = (Ok ([] ++ flat_map space_lists visits), st')) as Hloop.
    { subst round. apply (for_of_visits net config space_round visited_space space_visited space_reads
               space_lists); [intros; apply space_step|].
      exists visits. auto. }
    unfold bind. rewrite Hloop. reflexivity.
Qed.

(** With caching off, the reads of a sequence send their requests in order. *)
Lemma sequence_requests trace st st' :
  caching_off st -> Forall hierarchy trace.*1 ->
  sequence net config trace st st' ->
  caching_off st' /\ sent st' = sent st ++ requests config trace.*1.
Proof.
  revert st. induction trace as [|[op v] trace IH]; intros st Hoff Hops; cbn [sequence].
  - intros ->. split; [exact Hoff|]. cbn. rewrite app_nil_r. reflexivity.
  - intros [Hv Hseq]. cbn [fmap list_fmap fst] in Hops.
    apply Forall_cons in Hops as [Hop Hops].
    destruct (hierarchy_ok config op Hop) as (key & endpoint & Hkey & Hep).
    destruct (read_caching_off net config op st key Hoff Hkey) as (_ & Hfetch & Hnext).
    destruct (IH _ Hnext Hops Hseq) as [Hoff' Hsent]. split; [exact Hoff'|].
    rewrite Hsent, Hfetch, fetch_run, Hep. cbn [snd with_sent sent].
    change ((op, v) :: trace).*1 with ([op] ++ trace.*1).
    rewrite requests_app, app_assoc. unfold requests at 2. cbn [flat_map].
    rewrite Hep, app_nil_r. reflexivity.
Qed.

Lemma space_reads_hierarchy visits :
  Forall hierarchy ((GetSpaces, JNull) :: flat_map space_reads visits).*1.
Proof.
  cbn [fmap list_fmap fst]. constructor; [exact I|].
  apply Forall_forall. intros op Hop. apply list_elem_of_In in Hop.
  apply in_map_iff in Hop as ([op' v] & <- & Hop).
  apply in_flat_map in Hop as (s & _ & Hop). unfold space_reads in Hop.
  destruct Hop as [[= <- _]|[[= <- _]|Hop]]; try exact I.
  apply in_flat_map in Hop as (f & _ & [[= <- _]|[]]). exact I.
Qed.

End Visits.



(** ** [addComment] on task ids without pattern syntax *)

Lemma literal_app a b : literal (a +:+ b) = literal a && literal b.
Proof.
  induction a as [|c a IH]; [reflexivity|].
  rewrite str_app_cons. cbn [literal]. rewrite IH, andb_assoc. reflexivity.
Qed.

(** For a task id made of characters without meaning in pattern syntax, the
    pattern of [addComment] matches the key under which
    [getTaskComments(taskId)] caches. *)
Lemma comments_pattern_matches_own_key taskId :
  literal taskId = true ->
  pattern_test ("^comments.*task=" +:+ taskId)
    (getTaskComments_cacheKey (JStr taskId) JUndefined) = true.
Proof.
  intros Hlit. unfold getTaskComments_cacheKey, spread. cbn [own_fields fold_left].
  rewrite single_param_key. cbn [is_undefined to_string].
  unfold pattern_test, RegExp.compile.
  change ("^comments.*task=" +:+ taskId) with (String "^" ("comments.*task=" +:+ taskId)).
  cbv iota beta.
  assert (RegExp.parse ("comments.*task=" +:+ taskId) RegExp.start
          = RegExp.parse ("task=" +:+ taskId)
              {| RegExp.before := seq_literal RegExp.PEmpty "comments";
                 RegExp.last := Some (RegExp.PStar RegExp.PAny, RegExp.Quantified) |})
    as -> by reflexivity.
  rewrite parse_literal by (rewrite literal_app, Hlit; reflexivity).
  cbn [RegExp.test RegExp.anchored RegExp.pattern].
  apply matches_prefix_spec. exists ("comments:" +:+ "task=" +:+ taskId), "".
  split; [rewrite str_app_nil_r; reflexivity|].
  apply Matches_seq_literal. exists "comments:". split; [|reflexivity].
  unfold RegExp.flush. cbn [RegExp.last RegExp.before].
  change "comments:" with ("comments" +:+ ":"). apply MSeq.
  - apply Matches_seq_literal. exists "". split; [constructor|reflexivity].
  - change ":" with (":" +:+ ""). apply MStarApp; [|apply MStarNil].
    apply MAny. reflexivity.
Qed.

Lemma addComment_invalidates_plain_id net config taskId commentText notifyAll st result st' :
  literal taskId = true ->
  addComment net config (JStr taskId) commentText notifyAll st = (Ok result, st') ->
  PluginCache.entries (cache st') !! getTaskComments_cacheKey (JStr taskId) JUndefined = None.
Proof.
  intros Hlit Hrun.
  destruct (write_run net config (AddComment (JStr taskId) commentText notifyAll)
              _ _ _ Hrun) as [[_ Hdrop] _].
  rewrite Hdrop. cbn [dropped_by to_string].
  rewrite comments_pattern_matches_own_key by exact Hlit. reflexivity.
Qed.

(** ** A session

    [getSpaces()] twice, [createTask("L1", {name: "x"})], then
    [getTasks("L1", {})] twice: three requests in all, the second
    [getSpaces] and the second [getTasks] being served from the cache. *)
Example session_sends_three_requests :
  let session :=
    getSpaces Examples.net_empty Examples.config >>
    getSpaces Examples.net_empty Examples.config >>
    createTask Examples.net_empty Examples.config (JStr "L1") Examples.new_task >>
    getTasks Examples.net_empty Examples.config (JStr "L1") (JObj []) >>
    getTasks Examples.net_empty Examples.config (JStr "L1") (JObj []) in
  (session (initial 0)).1 = Ok (JArr []) /\
  map (fun req => (req_method req, req_url req)) (sent (session (initial 0)).2)
  = [ ("GET", "https://api.clickup.com/api/v2/team/9001/space");
      ("POST", "https://api.clickup.com/api/v2/list/L1/task");
      ("GET", "https://api.clickup.com/api/v2/list/L1/task") ].
Proof. cbv zeta. split; vm_compute; reflexivity. Qed.

(** ** The outcomes of the constructor *)

(** X1. The constructor has three outcomes.  On a parsed configuration that
    is [null] it throws a TypeError (the read of [rawConfig.clickup]); on
    any other value it either throws the error naming [clickup.apiKey] and
    [clickup.teamId], or returns a configuration whose key and workspace id
    are both present and non-empty. *)
Theorem loadConfig_outcomes (rawConfig : JValue) :
  (nullish rawConfig = true -> loadConfig rawConfig = Throw TypeError) /\
  (forall e, loadConfig rawConfig = Throw e ->
     e = if nullish rawConfig then TypeError else missing_config) /\
  (forall cfg, loadConfig rawConfig = Ok cfg ->
     truthy (apiKey cfg) = true /\ truthy (teamId cfg) = true).
Proof.
  destruct (nullish rawConfig) eqn:Hraw.
  - assert (loadConfig rawConfig = Throw TypeError) as ->
      by (destruct rawConfig; try discriminate Hraw; reflexivity).
    split; [reflexivity|]. split; [intros e [= <-]; reflexivity|discriminate].
  - rewrite loadConfig_run by exact Hraw. cbv zeta.
    split; [discriminate|].
    destruct (yields_both _) eqn:Hboth.
    + split; [discriminate|]. intros cfg [= <-].
      unfold yields_both in Hboth. apply andb_true_iff in Hboth. exact Hboth.
    + split; [intros e [= <-]; reflexivity|discriminate].
Qed.

Lemma loadConfig_outcomes_witness :
  truthy (JStr "pk_1") = true /\ truthy (JStr "9001") = true.
Proof.
  exact (proj2 (proj2 (loadConfig_outcomes Examples.direct_config))
           {| apiKey := JStr "pk_1"; teamId := JStr "9001" |} eq_refl).
Defined.

(** ** The requests of the operations *)

Section Emits.

Context (P : Request -> Prop).

Lemma emits_silent {A} (m : M A) :
  (forall st, sent (m st).2 = sent st) -> emits P m.
Proof.
  intros Hm st r st' Hrun. exists []. split; [|constructor].
  rewrite app_nil_r. specialize (Hm st). rewrite Hrun in Hm. exact Hm.
Qed.

Lemma emits_ret {A} (a : A) : emits P (ret a).
Proof. apply emits_silent. reflexivity. Qed.

Lemma emits_throw {A} e : emits P (@throw A e).
Proof. apply emits_silent. reflexivity. Qed.

Lemma emits_lift {A} (r : Result A) : emits P (lift r).
Proof. apply emits_silent. reflexivity. Qed.

Lemma emits_bind {A B} (m : M A) (k : A -> M B) :
  emits P m -> (forall a, emits P (k a)) -> emits P (bind m k).
Proof.
  intros Hm Hk st r st' Hrun.
  apply bind_inv in Hrun as [(a & st1 & Hm1 & Hk1)|(e & Hm1 & ->)].
  - destruct (Hm _ _ _ Hm1) as (new1 & Hs1 & HP1).
    destruct (Hk a _ _ _ Hk1) as (new2 & Hs2 & HP2).
    exists (new1 ++ new2). split; [rewrite Hs2, Hs1, app_assoc; reflexivity|].
    apply Forall_app. auto.
  - exact (Hm _ _ _ Hm1).
Qed.

Lemma emits_request net config method endpoint body :
  P (request_of config method endpoint body) ->
  emits P (request net config method endpoint body).
Proof.
  intros HP st r st' Hrun. rewrite request_answer in Hrun. injection Hrun as _ <-.
  eexists. split; [reflexivity|]. constructor; [exact HP|constructor].
Qed.

Lemma emits_getOrFetch key producer ttl bypass :
  emits P producer -> emits P (getOrFetch key producer ttl bypass).
Proof.
  intros Hp st r st' Hrun. unfold getOrFetch in Hrun. cbv zeta in Hrun.
  destruct (if PluginCache.enabled (cache st) && negb bypass
            then PluginCache.peek (now st) key (cache st) else None) as [v|].
  - injection Hrun as _ <-. exists []. split; [by rewrite app_nil_r|constructor].
  - destruct (producer st) as [[v|e] st1] eqn:Hprod;
      destruct (Hp _ _ _ Hprod) as (new & Hs & HP);
      injection Hrun as _ <-; exists new; split; auto.
    destruct (PluginCache.enabled _); exact Hs.
Qed.

Lemma emits_cached key ttl producer :
  emits P producer -> emits P (cached key ttl producer).
Proof.
  intros Hp st r st' Hrun. unfold cached in Hrun.
  exact (emits_getOrFetch _ _ _ _ Hp _ _ _ Hrun).
Qed.

Lemma emits_for_of {A} items (body : JValue -> A -> M A) acc :
  (forall x a, emits P (body x a)) -> emits P (for_of items body acc).
Proof.
  intros Hb. revert acc. induction items as [|x items IH]; intros acc; simpl.
  - apply emits_ret.
  - apply emits_bind; auto.
Qed.

End Emits.

Ltac emits_step :=
  first
    [ apply emits_bind; [|intros ?]
    | apply emits_cached
    | apply emits_for_of; intros ? ?
    | apply emits_ret
    | apply emits_throw
    | apply emits_lift
    | apply emits_request; eexists; reflexivity ].

Lemma emits_read net config op : emits (read_only config) (read net config op).
Proof.
  destruct op; unfold read, getSpaces, getSpace, getFolders, getLists,
    getFolderlessLists, getList, getTasks, getTask, searchTasks, getTaskComments,
    getTimeEntries, getAuthorizedUser, getTeamMembers, fetch_list;
    repeat emits_step.
  match goal with
  | |- emits _ (match ?v with JArr _ => _ | _ => _ end) => destruct v
  end; repeat emits_step.
Qed.

(** X2. Reading never modifies: every request sent by a cached read, by
    [getAllLists] or by [searchSpaces], whatever the state of the cache and
    whatever the outcome, is a GET without body to an address under the
    base URL, carrying the configured key in [Authorization]; and these
    operations only add to the log of requests. *)
Theorem reads_send_only_get (net : Network) (config : ClickUpConfig) :
  (forall op, emits (read_only config) (read net config op)) /\
  emits (read_only config) (getAllLists net config) /\
  (forall query, emits (read_only config) (searchSpaces net config query)).
Proof.
  pose proof (emits_read net config GetSpaces) as Hs.
  pose proof (fun x => emits_read net config (GetFolderlessLists x)) as Hfl.
  pose proof (fun x => emits_read net config (GetFolders x)) as Hfo.
  pose proof (fun x => emits_read net config (GetLists x)) as Hl.
  cbn [read] in Hs, Hfl, Hfo, Hl.
  split; [apply emits_read|]. split.
  - unfold getAllLists, push_each. repeat first [emits_step | apply Hs | apply Hfl | apply Hfo | apply Hl].
  - intros query. unfold searchSpaces.
    apply emits_bind; [exact Hs|]. intros spaces.
    destruct (negb (truthy query)); [apply emits_ret|].
    apply emits_bind; [apply emits_lift|]. intros lowerQuery.
    destruct spaces; repeat emits_step.
Qed.

(** ** The request of a mutation *)

Lemma sent_bind_silent {A B} (m : M A) (k : A -> M B) st :
  (forall a s, sent (k a s).2 = sent s) -> sent (bind m k st).2 = sent (m st).2.
Proof. intros Hk. unfold bind. destruct (m st) as [[a|e] st1]; [apply Hk|reflexivity]. Qed.

Lemma sent_cache_invalidate key st : sent (cache_invalidate key st).2 = sent st.
Proof. reflexivity. Qed.

Lemma sent_cache_invalidatePattern source st :
  sent (cache_invalidatePattern source st).2 = sent st.
Proof.
  unfold cache_invalidatePattern. destruct (RegExp.compile source); try reflexivity.
  destruct (exact_on_keys _ _ _); reflexivity.
Qed.

Lemma write_split net config op :
  exists k : JValue -> M JValue,
    (forall a s, sent (k a s).2 = sent s) /\
    forall st,
      write net config op st =
      let st1 := with_sent (sent st ++ [write_request config op]) st in
      match answer net (sent st) (write_request config op) with
      | Ok result => k result st1
      | Throw e => (Throw e, st1)
      end.
Proof.
  destruct op as [listId data|taskId data|taskId|taskId commentText notifyAll|taskId data].
  - exists (fun result =>
              cache_invalidatePattern "^tasks" >>
              cache_invalidatePattern "^search" >> ret result).
    split.
    + intros a s. rewrite sent_bind_silent; [apply sent_cache_invalidatePattern|].
      intros _ s1. rewrite sent_bind_silent; [apply sent_cache_invalidatePattern|].
      reflexivity.
    + intros st. cbn [write write_request]. unfold createTask. unfold bind at 1.
      rewrite request_answer. cbv zeta. destruct (answer _ _ _); reflexivity.
  - exists (fun result =>
              cache_invalidate (getTask_cacheKey taskId false) >>
              cache_invalidate (getTask_cacheKey taskId true) >>
              cache_invalidatePattern "^tasks" >>
              cache_invalidatePattern "^search" >> ret result).
    split.
    + intros a s. rewrite sent_bind_silent; [apply sent_cache_invalidate|].
      intros _ s1. rewrite sent_bind_silent; [apply sent_cache_invalidate|].
      intros _ s2. rewrite sent_bind_silent; [apply sent_cache_invalidatePattern|].
      intros _ s3. rewrite sent_bind_silent; [apply sent_cache_invalidatePattern|].
      reflexivity.
    + intros st. cbn [write write_request]. unfold updateTask. unfold bind at 1.
      rewrite request_answer. cbv zeta. destruct (answer _ _ _); reflexivity.
  - exists (fun _ =>
              (cache_invalidatePattern "^task" >>
               cache_invalidatePattern "^search" >> ret tt) >> ret JUndefined).
    split.
    + intros a s. rewrite sent_bind_silent; [|reflexivity].
      rewrite sent_bind_silent; [apply sent_cache_invalidatePattern|].
      intros _ s1. rewrite sent_bind_silent; [apply sent_cache_invalidatePattern|].
      reflexivity.
    + intros st. cbn [write write_request]. unfold deleteTask. unfold bind at 1 2.
      rewrite request_answer. cbv zeta. destruct (answer _ _ _); reflexivity.
  - exists (fun result =>
              cache_invalidatePattern ("^comments.*task=" +:+ to_string taskId) >>
              ret result).
    split.
    + intros a s. rewrite sent_bind_silent; [apply sent_cache_invalidatePattern|].
      reflexivity.
    + intros st. cbn [write write_request]. unfold addComment. unfold bind at 1.
      rewrite request_answer. cbv zeta. destruct (answer _ _ _); reflexivity.
  - exists (fun result => cache_invalidatePattern "^time_entries" >> ret result).
    split.
    + intros a s. rewrite sent_bind_silent; [apply sent_cache_invalidatePattern|].
      reflexivity.
    + intros st. cbn [write write_request]. unfold createTimeEntry. unfold bind at 1.
      rewrite request_answer. cbv zeta. destruct (answer _ _ _); reflexivity.
Qed.

(** X3. Every mutation sends exactly one request, whatever its outcome: the
    POST, PUT or DELETE of [write_request].  When the response to it is not
    2xx, or is 2xx with a body that is not JSON, the mutation throws that
    error and leaves the cache, the caching switch and the clock as they
    were: nothing is invalidated by a mutation that was not acknowledged. *)
Theorem write_sends_one_request (net : Network) (config : ClickUpConfig) (op : WriteOp)
    (st : State) :
  sent (write net config op st).2 = sent st ++ [write_request config op] /\
  (forall e, answer net (sent st) (write_request config op) = Throw e ->
     write net config op st
     = (Throw e, with_sent (sent st ++ [write_request config op]) st)).
Proof.
  destruct (write_split net config op) as (k & Hk & Hrun).
  rewrite Hrun. cbv zeta. split.
  - destruct (answer _ _ _); [rewrite Hk|]; reflexivity.
  - intros e ->. reflexivity.
Qed.

Lemma write_sends_one_request_witness :
  let op := DeleteTask (JStr "t1") in
  write Examples.net_404 Examples.config op Examples.task_cached
  = (Throw (Error "ClickUp API error (404): Task not found"),
     with_sent (sent Examples.task_cached ++ [write_request Examples.config op])
       Examples.task_cached).
Proof.
  exact (proj2 (write_sends_one_request Examples.net_404 Examples.config
                  (DeleteTask (JStr "t1")) Examples.task_cached) _ eq_refl).
Defined.

(** ** The query parameters of the reads *)

Lemma set_fresh name value (p : URLSearchParams.t) :
  ~ In name p.*1 -> URLSearchParams.set name value p = p ++ [(name, value)].
Proof.
  induction p as [|[n v] p IH]; cbn; [reflexivity|].
  intros Hfresh. destruct (String.eqb_spec n name) as [->|Hne]; [tauto|].
  rewrite IH by tauto. reflexivity.
Qed.

Lemma set_when_fresh c name value (p : URLSearchParams.t) :
  ~ In name p.*1 -> set_when c name value p = p ++ param_if c name value.
Proof.
  intros Hfresh. unfold set_when, param_if. destruct c.
  - apply set_fresh. exact Hfresh.
  - rewrite app_nil_r. reflexivity.
Qed.

Lemma names_param_if n c name value : In n (param_if c name value).*1 -> n = name.
Proof. unfold param_if. destruct c; cbn; [intros [<-|[]]; reflexivity|tauto]. Qed.

Lemma names_params_each n name v : In n (params_each name v).*1 -> n = name.
Proof.
  unfold params_each. destruct v; cbn; try tauto.
  intros H. apply in_map_iff in H as (nv & <- & Hnv).
  apply in_map_iff in Hnv as (x & <- & _). reflexivity.
Qed.

Lemma append_each_spec name v p :
  append_each name v p =
  if listable v then Ok (p ++ params_each name v) else Throw TypeError.
Proof.
  unfold append_each, listable, params_each.
  destruct v as [| |b|n|s|items|fields]; cbn [truthy negb];
    rewrite ?app_nil_r; try reflexivity.
  - destruct b; cbn; rewrite ?app_nil_r; reflexivity.
  - destruct (n =? 0); cbn; rewrite ?app_nil_r; reflexivity.
  - destruct (String.eqb s ""); cbn; rewrite ?app_nil_r; reflexivity.
  - rewrite append_fold. reflexivity.
Qed.

(** Solves [~ In name p.*1] for a [p] made of [param_if] and [params_each]
    pieces under other names. *)
Ltac fresh_name :=
  let H := fresh "H" in
  intros H; rewrite ?fmap_app, ?in_app_iff in H;
  repeat match type of H with
         | _ \/ _ => destruct H as [H|H]
         end;
  first [ apply names_param_if in H; discriminate H
        | apply names_params_each in H; discriminate H
        | destruct H ].

(** X4. The query parameters of [getTasks] are exactly these, in this
    order: [archived] and [page] whenever they are defined (so
    [archived=false], [page=0] and even [null] are sent), [include_closed],
    [reverse] and [subtasks] as [true] when truthy, [order_by] when
    non-empty, one [statuses[]] and one [assignees[]] parameter per element,
    and each of the six date bounds when it is not zero; no parameter is
    sent twice under a scalar name.  A truthy [statuses] or [assignees] that
    is not an array makes the call throw a TypeError. *)
Theorem getTasks_params_spec (options : JValue) :
  let o k := opt_prop k options in
  getTasks_params options =
  if listable (o "statuses") && listable (o "assignees") then
    Ok (param_if (negb (is_undefined (o "archived"))) "archived" (to_string (o "archived")) ++
        param_if (truthy (o "include_closed")) "include_closed" "true" ++
        param_if (negb (is_undefined (o "page"))) "page" (to_string (o "page")) ++
        param_if (truthy (o "order_by")) "order_by" (to_string (o "order_by")) ++
        param_if (truthy (o "reverse")) "reverse" "true" ++
        param_if (truthy (o "subtasks")) "subtasks" "true" ++
        params_each "statuses[]" (o "statuses") ++
        params_each "assignees[]" (o "assignees") ++
        param_if (truthy (o "due_date_gt")) "due_date_gt" (to_string (o "due_date_gt")) ++
        param_if (truthy (o "due_date_lt")) "due_date_lt" (to_string (o "due_date_lt")) ++
        param_if (truthy (o "date_created_gt")) "date_created_gt"
          (to_string (o "date_created_gt")) ++
        param_if (truthy (o "date_created_lt")) "date_created_lt"
          (to_string (o "date_created_lt")) ++
        param_if (truthy (o "date_updated_gt")) "date_updated_gt"
          (to_string (o "date_updated_gt")) ++
        param_if (truthy (o "date_updated_lt")) "date_updated_lt"
          (to_string (o "date_updated_lt")))
  else Throw TypeError.
Proof.
  intros o. subst o. unfold getTasks_params. cbv zeta beta.
  unfold URLSearchParams.empty.
  rewrite (set_when_fresh _ "archived" _ []) by fresh_name. rewrite app_nil_l.
  rewrite (set_when_fresh _ "include_closed") by fresh_name.
  rewrite (set_when_fresh _ "page") by fresh_name.
  rewrite (set_when_fresh _ "order_by") by fresh_name.
  rewrite (set_when_fresh _ "reverse") by fresh_name.
  rewrite (set_when_fresh _ "subtasks") by fresh_name.
  rewrite append_each_spec.
  destruct (listable (opt_prop "statuses" options)); cbn [bind_r andb]; [|reflexivity].
  rewrite append_each_spec.
  destruct (listable (opt_prop "assignees" options)); cbn [bind_r]; [|reflexivity].
  rewrite (set_when_fresh _ "due_date_gt") by fresh_name.
  rewrite (set_when_fresh _ "due_date_lt") by fresh_name.
  rewrite (set_when_fresh _ "date_created_gt") by fresh_name.
  rewrite (set_when_fresh _ "date_created_lt") by fresh_name.
  rewrite (set_when_fresh _ "date_updated_gt") by fresh_name.
  rewrite (set_when_fresh _ "date_updated_lt") by fresh_name.
  rewrite <- !app_assoc. reflexivity.
Qed.

Lemma getTasks_params_spec_witness :
  getTasks_params (JObj [("archived", JBool false); ("page", JNum 0);
                         ("include_closed", JBool false); ("due_date_gt", JNum 0)])
  = Ok [("archived", "false"); ("page", "0")].
Proof.
  exact (getTasks_params_spec
           (JObj [("archived", JBool false); ("page", JNum 0);
                  ("include_closed", JBool false); ("due_date_gt", JNum 0)])).
Defined.

Lemma searchTasks_params_eq query options :
  searchTasks_params query options =
  if listable (opt_prop "list_ids" options) && listable (opt_prop "space_ids" options)
     && listable (opt_prop "folder_ids" options) && listable (opt_prop "statuses" options)
  then
    Ok (param_if (truthy query) "query" (to_string query) ++
        param_if (truthy (opt_prop "include_closed" options)) "include_closed" "true" ++
        param_if (negb (is_undefined (opt_prop "page" options))) "page"
          (to_string (opt_prop "page" options)) ++
        params_each "list_ids[]" (opt_prop "list_ids" options) ++
        params_each "space_ids[]" (opt_prop "space_ids" options) ++
        params_each "folder_ids[]" (opt_prop "folder_ids" options) ++
        params_each "statuses[]" (opt_prop "statuses" options))
  else Throw TypeError.
Proof.
  unfold searchTasks_params. cbv zeta beta. unfold URLSearchParams.empty.
  rewrite (set_when_fresh _ "query" _ []) by fresh_name. rewrite app_nil_l.
  rewrite (set_when_fresh _ "include_closed") by fresh_name.
  rewrite (set_when_fresh _ "page") by fresh_name.
  rewrite append_each_spec.
  destruct (listable (opt_prop "list_ids" options)); cbn [bind_r andb]; [|reflexivity].
  rewrite append_each_spec.
  destruct (listable (opt_prop "space_ids" options)); cbn [bind_r andb]; [|reflexivity].
  rewrite append_each_spec.
  destruct (listable (opt_prop "folder_ids" options)); cbn [bind_r andb]; [|reflexivity].
  rewrite append_each_spec.
  destruct (listable (opt_prop "statuses" options)); cbn [bind_r andb]; [|reflexivity].
  rewrite <- !app_assoc. reflexivity.
Qed.

(** X5. The query parameters of [searchTasks] are exactly these, in this
    order: [query] when it is not empty, [include_closed=true] when that
    option is truthy, [page] whenever it is defined, then one [list_ids[]],
    [space_ids[]], [folder_ids[]] and [statuses[]] parameter per element.
    The option [assigned_to_me] is never sent: two searches that differ only
    in it send the same request.  A truthy array filter that is not an
    array makes the call throw a TypeError. *)
Theorem searchTasks_params_spec (config : ClickUpConfig) (query options : JValue) :
  let o k := opt_prop k options in
  searchTasks_params query options =
  (if listable (o "list_ids") && listable (o "space_ids") && listable (o "folder_ids")
      && listable (o "statuses")
   then
     Ok (param_if (truthy query) "query" (to_string query) ++
         param_if (truthy (o "include_closed")) "include_closed" "true" ++
         param_if (negb (is_undefined (o "page"))) "page" (to_string (o "page")) ++
         params_each "list_ids[]" (o "list_ids") ++
         params_each "space_ids[]" (o "space_ids") ++
         params_each "folder_ids[]" (o "folder_ids") ++
         params_each "statuses[]" (o "statuses"))
   else Throw TypeError) /\
  (forall options',
     (forall k, k <> "assigned_to_me" -> opt_prop k options' = opt_prop k options) ->
     searchTasks_endpoint config query options' = searchTasks_endpoint config query options).
Proof.
  intros o. subst o. cbv beta. split.
  - apply searchTasks_params_eq.
  - intros options' Hsame. unfold searchTasks_endpoint, searchTasks_params. cbv zeta.
    rewrite !Hsame by discriminate. reflexivity.
Qed.

Lemma searchTasks_params_spec_witness :
  searchTasks_endpoint Examples.config (JStr "rates") (JObj [("assigned_to_me", JBool true)])
  = searchTasks_endpoint Examples.config (JStr "rates") (JObj []).
Proof.
  refine (proj2 (searchTasks_params_spec Examples.config (JStr "rates") (JObj [])) _ _).
  intros k Hk. cbn. destruct (String.eqb_spec k "assigned_to_me"); [contradiction|reflexivity].
Defined.

(** X6. The query parameters of [getTimeEntries] are exactly the options
    that are truthy, each once, in the order [start_date], [end_date],
    [assignee], [include_task_tags], [include_location_names], [space_id],
    [folder_id], [list_id], [task_id]; the two flags are sent as [true].
    Those of [getTaskComments] are [start] and [start_id] when truthy.  An
    option that is [0], empty or [false] is not sent. *)
Theorem getTimeEntries_params_spec (options : JValue) :
  let o k := opt_prop k options in
  getTimeEntries_params options =
    param_if (truthy (o "start_date")) "start_date" (to_string (o "start_date")) ++
    param_if (truthy (o "end_date")) "end_date" (to_string (o "end_date")) ++
    param_if (truthy (o "assignee")) "assignee" (to_string (o "assignee")) ++
    param_if (truthy (o "include_task_tags")) "include_task_tags" "true" ++
    param_if (truthy (o "include_location_names")) "include_location_names" "true" ++
    param_if (truthy (o "space_id")) "space_id" (to_string (o "space_id")) ++
    param_if (truthy (o "folder_id")) "folder_id" (to_string (o "folder_id")) ++
    param_if (truthy (o "list_id")) "list_id" (to_string (o "list_id")) ++
    param_if (truthy (o "task_id")) "task_id" (to_string (o "task_id")) /\
  getTaskComments_params options =
    param_if (truthy (o "start")) "start" (to_string (o "start")) ++
    param_if (truthy (o "start_id")) "start_id" (to_string (o "start_id")).
Proof.
  intros o. subst o. cbv beta. split.
  - unfold getTimeEntries_params. cbv zeta beta. unfold URLSearchParams.empty.
    rewrite (set_when_fresh _ "start_date" _ []) by fresh_name. rewrite app_nil_l.
    rewrite (set_when_fresh _ "end_date") by fresh_name.
    rewrite (set_when_fresh _ "assignee") by fresh_name.
    rewrite (set_when_fresh _ "include_task_tags") by fresh_name.
    rewrite (set_when_fresh _ "include_location_names") by fresh_name.
    rewrite (set_when_fresh _ "space_id") by fresh_name.
    rewrite (set_when_fresh _ "folder_id") by fresh_name.
    rewrite (set_when_fresh _ "list_id") by fresh_name.
    rewrite (set_when_fresh _ "task_id") by fresh_name.
    rewrite <- !app_assoc. reflexivity.
  - unfold getTaskComments_params. cbv zeta beta. unfold URLSearchParams.empty.
    rewrite (set_when_fresh _ "start" _ []) by fresh_name. rewrite app_nil_l.
    rewrite (set_when_fresh _ "start_id") by fresh_name. reflexivity.
Qed.

(** ** Reads check their arguments before they fetch *)

Lemma opt_join_Ok v x : opt_join v = Ok x -> listable v = true.
Proof. destruct v; cbn; intros H; try discriminate H; reflexivity. Qed.

Lemma opt_join_Throw v e : opt_join v = Throw e -> e = TypeError.
Proof. destruct v; cbn; intros H; try discriminate H; congruence. Qed.

Lemma getTasks_params_defined options :
  listable (opt_prop "statuses" options) = true ->
  listable (opt_prop "assignees" options) = true ->
  exists params, getTasks_params options = Ok params.
Proof.
  intros H1 H2. unfold getTasks_params. cbv zeta.
  rewrite append_each_spec, H1. cbn [bind_r]. rewrite append_each_spec, H2. cbn [bind_r].
  eexists. reflexivity.
Qed.

(** X7. Every cached read either rejects its arguments before anything
    happens, or can build its request.  Building the cache key fails only
    for [getTasks] and [searchTasks], only with a TypeError (an array filter
    that is neither absent nor an array), and then the call throws it
    without sending a request or touching the cache; once the key is built
    the endpoint is defined, so that a miss always sends its single
    request. *)
Theorem reads_validate_before_fetching (net : Network) (config : ClickUpConfig)
    (op : ReadOp) :
  (forall key, read_key op = Ok key ->
     exists endpoint, read_endpoint config op = Ok endpoint) /\
  (forall e, read_key op = Throw e ->
     e = TypeError /\
     (forall st, read net config op st = (Throw TypeError, st)) /\
     ((exists listId options, op = GetTasks listId options) \/
      (exists query options, op = SearchTasks query options))).
Proof.
  assert (forall e, read_key op = Throw e -> e = TypeError ->
            forall st, read net config op st = (Throw TypeError, st)) as Hthrow.
  { intros e He -> st. rewrite read_unfold, He. reflexivity. }
  destruct op; cbn [read_key read_endpoint] in *;
    try (split; [intros key _; eexists; reflexivity|intros e He; discriminate He]).
  - unfold getTasks_cacheParams, getTasks_endpoint in *. cbv zeta in *.
    destruct (opt_join (opt_prop "statuses" options)) as [s|e1] eqn:H1; cbn [bind_r] in *.
    + destruct (opt_join (opt_prop "assignees" options)) as [a|e2] eqn:H2; cbn [bind_r] in *.
      * split; [|intros e He; discriminate He]. intros key _.
        destruct (getTasks_params_defined options (opt_join_Ok _ _ H1) (opt_join_Ok _ _ H2))
          as [params ->].
        cbn [bind_r]. eexists. reflexivity.
      * split; [intros key He; discriminate He|]. intros e [= <-].
        pose proof (opt_join_Throw _ _ H2) as ->. eauto 10.
    + split; [intros key He; discriminate He|]. intros e [= <-].
      pose proof (opt_join_Throw _ _ H1) as ->. eauto 10.
  - unfold searchTasks_cacheParams, searchTasks_endpoint in *. cbv zeta in *.
    rewrite searchTasks_params_eq.
    destruct (opt_join (opt_prop "list_ids" options)) as [l|e1] eqn:H1; cbn [bind_r] in *.
    2:{ split; [intros key He; discriminate He|]. intros e [= <-].
        pose proof (opt_join_Throw _ _ H1) as ->. eauto 10. }
    destruct (opt_join (opt_prop "space_ids" options)) as [s|e2] eqn:H2; cbn [bind_r] in *.
    2:{ split; [intros key He; discriminate He|]. intros e [= <-].
        pose proof (opt_join_Throw _ _ H2) as ->. eauto 10. }
    destruct (opt_join (opt_prop "folder_ids" options)) as [f|e3] eqn:H3; cbn [bind_r] in *.
    2:{ split; [intros key He; discriminate He|]. intros e [= <-].
        pose proof (opt_join_Throw _ _ H3) as ->. eauto 10. }
    destruct (opt_join (opt_prop "statuses" options)) as [t|e4] eqn:H4; cbn [bind_r] in *.
    2:{ split; [intros key He; discriminate He|]. intros e [= <-].
        pose proof (opt_join_Throw _ _ H4) as ->. eauto 10. }
    split; [|intros e He; discriminate He]. intros key _.
    rewrite (opt_join_Ok _ _ H1), (opt_join_Ok _ _ H2), (opt_join_Ok _ _ H3),
      (opt_join_Ok _ _ H4). cbn [andb bind_r]. eexists. reflexivity.
Qed.

Lemma reads_validate_before_fetching_witness :
  read Examples.net_empty Examples.config
    (GetTasks (JStr "L1") (JObj [("statuses", JStr "open")])) (initial 0)
  = (Throw TypeError, initial 0).
Proof.
  exact (proj1 (proj2 (proj2 (reads_validate_before_fetching Examples.net_empty
                                Examples.config
                                (GetTasks (JStr "L1") (JObj [("statuses", JStr "open")])))
                         TypeError eq_refl)) (initial 0)).
Defined.

(** ** The body of [createTimeEntry] *)

Lemma fold_set_field_fresh (extra base : list (string * JValue)) :
  NoDup (keys (base ++ extra)) ->
  fold_left (fun acc kv => set_field kv.1 kv.2 acc) extra base = base ++ extra.
Proof.
  revert base. induction extra as [|[k v] extra IH]; intros base Hnd; cbn [fold_left fst snd].
  - rewrite app_nil_r. reflexivity.
  - assert (set_field k v base = base ++ [(k, v)]) as ->.
    { assert (k ∉ keys base) as Hk.
      { unfold keys in *. rewrite fmap_app in Hnd. apply NoDup_app in Hnd as (_ & Hdisj & _).
        intros Hin. apply (Hdisj k Hin). cbn. left. }
      clear -Hk. induction base as [|[k' v'] base IH]; cbn; [reflexivity|].
      unfold keys in *. cbn in Hk. rewrite not_elem_of_cons in Hk. destruct Hk as [Hne Hk].
      destruct (String.eqb_spec k k'); [contradiction|]. rewrite IH by exact Hk. reflexivity. }
    rewrite IH; rewrite <- app_assoc; [reflexivity|exact Hnd].
Qed.

Lemma spread_fresh fields : NoDup (keys fields) -> spread [] (JObj fields) = fields.
Proof. intros Hnd. unfold spread. cbn [own_fields]. apply (fold_set_field_fresh fields []). exact Hnd. Qed.

(** X8. [createTimeEntry(taskId, data)] posts [{...data, tid: taskId}] to the
    time entries of the workspace: the body carries the task id under [tid]
    whatever [data] holds under that name, every other field of [data] as it
    is, and nothing else. *)
Theorem createTimeEntry_body (net : Network) (config : ClickUpConfig)
    (taskId : JValue) (fields : list (string * JValue)) (st : State) :
  NoDup (keys fields) ->
  exists body,
    sent (createTimeEntry net config taskId (JObj fields) st).2
    = sent st ++
      [ {| req_method := "POST";
           req_url := baseUrl +:+ "/team/" +:+ to_string (teamId config) +:+ "/time_entries";
           req_headers := [ ("Authorization", to_string (apiKey config));
                            ("Content-Type", "application/json") ];
           req_body := Some (JObj body) |} ] /\
    lookup_field "tid" body = taskId /\
    (forall k, k <> "tid" -> lookup_field k body = lookup_field k fields) /\
    (forall k, In k (keys body) <-> k = "tid" \/ In k (keys fields)) /\
    NoDup (keys body).
Proof.
  intros Hnd. exists (set_field "tid" taskId fields).
  destruct (write_split net config (CreateTimeEntry taskId (JObj fields))) as (k & Hk & Hrun).
  cbn [write write_request] in Hrun. rewrite spread_fresh in Hrun by exact Hnd.
  split; [|split; [|split; [|split]]].
  - rewrite Hrun. cbv zeta. destruct (answer _ _ _); rewrite ?Hk; reflexivity.
  - rewrite lookup_set_field. reflexivity.
  - intros k0 Hk0. rewrite lookup_set_field.
    destruct (String.eqb_spec k0 "tid"); [contradiction|reflexivity].
  - intros k0. rewrite keys_set_field. destruct (bool_decide _) eqn:E.
    + apply bool_decide_eq_true in E. rewrite list_elem_of_In in E.
      split; [auto|]. intros [->|H]; assumption.
    + rewrite in_app_iff. cbn. intuition congruence.
  - apply NoDup_set_field. exact Hnd.
Qed.

Lemma createTimeEntry_body_witness :
  exists body,
    sent (createTimeEntry Examples.net_empty Examples.config (JStr "t1")
            (JObj [("start", JNum 1000); ("tid", JStr "other"); ("duration", JNum 60000)])
            (initial 0)).2
    = [ {| req_method := "POST";
           req_url := "https://api.clickup.com/api/v2/team/9001/time_entries";
           req_headers := [ ("Authorization", "pk_1");
                            ("Content-Type", "application/json") ];
           req_body := Some (JObj body) |} ] /\
    lookup_field "tid" body = JStr "t1".
Proof.
  destruct (createTimeEntry_body Examples.net_empty Examples.config (JStr "t1")
              [("start", JNum 1000); ("tid", JStr "other"); ("duration", JNum 60000)]
              (initial 0)) as (body & Hsent & Htid & _).
  - apply (bool_decide_unpack _). vm_compute. exact I.
  - exists body. split; [exact Hsent|exact Htid].
Defined.

(** ** What [deleteTask] and [createTimeEntry] invalidate *)

(** X9. Once [deleteTask] has returned, no entry whose key begins with
    [task] or with [search] is left in the cache: the single-task entries
    of every task (not only of the deleted one), every task list and every
    search result are gone, and a later [getOrFetch] on such a key runs its
    producer; every other entry, the cached comments of the deleted task
    among them, is as it was. *)
Theorem deleteTask_invalidation (net : Network) (config : ClickUpConfig)
    (taskId : JValue) (st st' : State) :
  deleteTask net config taskId st = (Ok tt, st') ->
  (forall key,
     String.prefix "task" key = true \/ String.prefix "search" key = true ->
     PluginCache.entries (cache st') !! key = None /\ must_refetch key st') /\
  (forall op key,
     read_key op = Ok key -> In (family op) ["task"; "tasks"; "search"] ->
     PluginCache.entries (cache st') !! key = None /\ must_refetch key st') /\
  (forall key,
     String.prefix "task" key = false -> String.prefix "search" key = false ->
     PluginCache.entries (cache st') !! key = PluginCache.entries (cache st) !! key) /\
  (forall id options,
     PluginCache.entries (cache st') !! getTaskComments_cacheKey id options
     = PluginCache.entries (cache st) !! getTaskComments_cacheKey id options).
Proof.
  intros Hrun.
  assert (write net config (DeleteTask taskId) st = (Ok JUndefined, st')) as Hwrite.
  { cbn [write]. unfold bind. rewrite Hrun. reflexivity. }
  destruct (write_run net config (DeleteTask taskId) _ _ _ Hwrite) as [[_ Hdrop] _].
  cbn [dropped_by] in Hdrop.
  assert (forall key,
            String.prefix "task" key = true \/ String.prefix "search" key = true ->
            PluginCache.entries (cache st') !! key = None /\ must_refetch key st') as Hkeys.
  { intros key Hkey.
    assert (PluginCache.entries (cache st') !! key = None) as Habs.
    { rewrite Hdrop. destruct Hkey as [-> | ->]; rewrite ?orb_true_r; reflexivity. }
    split; [exact Habs|apply must_refetch_absent; exact Habs]. }
  assert (forall key,
            String.prefix "task" key = false -> String.prefix "search" key = false ->
            PluginCache.entries (cache st') !! key = PluginCache.entries (cache st) !! key)
    as Hframe.
  { intros key H1 H2. rewrite Hdrop, H1, H2. reflexivity. }
  split; [exact Hkeys|]. split; [|split; [exact Hframe|]].
  - intros op key Hkey Hfamily. apply Hkeys.
    pose proof (family_prefix op key Hkey) as Hprefix.
    cbn [In] in Hfamily. destruct Hfamily as [E|[E|[E|[]]]]; rewrite <- E in Hprefix.
    + auto.
    + left. apply prefix_spec in Hprefix as [rest ->]. reflexivity.
    + auto.
  - intros id options.
    pose proof (family_prefix (GetTaskComments id options) _ eq_refl) as Hprefix.
    cbn [family] in Hprefix. apply prefix_spec in Hprefix as [rest E].
    apply Hframe; rewrite E; reflexivity.
Qed.

Lemma deleteTask_invalidation_witness :
  PluginCache.entries
    (cache (deleteTask Examples.net_empty Examples.config (JStr "t2")
              Examples.task_cached).2) !! "task:id=t1&markdown=true" = None.
Proof.
  refine (proj1 (proj1 (deleteTask_invalidation Examples.net_empty Examples.config
                          (JStr "t2") Examples.task_cached _ _)
                   "task:id=t1&markdown=true" (or_introl eq_refl))).
  vm_compute. reflexivity.
Defined.

(** X10. Once [createTimeEntry] has returned, no entry whose key begins with
    [time_entries] is left in the cache, whatever filters it was cached
    under, and a later [getOrFetch] on such a key runs its producer; every
    other entry is as it was. *)
Theorem createTimeEntry_invalidation (net : Network) (config : ClickUpConfig)
    (taskId data result : JValue) (st st' : State) :
  createTimeEntry net config taskId data st = (Ok result, st') ->
  (forall options key,
     read_key (GetTimeEntries options) = Ok key ->
     PluginCache.entries (cache st') !! key = None /\ must_refetch key st') /\
  (forall key,
     PluginCache.entries (cache st') !! key =
     if String.prefix "time_entries" key then None
     else PluginCache.entries (cache st) !! key).
Proof.
  intros Hrun.
  destruct (write_run net config (CreateTimeEntry taskId data) _ _ _ Hrun) as [[_ Hdrop] _].
  cbn [dropped_by] in Hdrop. split; [|exact Hdrop].
  intros options key Hkey.
  pose proof (family_prefix _ key Hkey) as Hprefix. cbn [family] in Hprefix.
  assert (PluginCache.entries (cache st') !! key = None) as Habs
    by (rewrite Hdrop, Hprefix; reflexivity).
  split; [exact Habs|apply must_refetch_absent; exact Habs].
Qed.

Lemma createTimeEntry_invalidation_witness :
  PluginCache.entries
    (cache (createTimeEntry Examples.net_empty Examples.config (JStr "t1")
              Scenarios.one_hour Scenarios.time_entries_cached).2) !! "time_entries" = None.
Proof.
  refine (proj1 (proj1 (createTimeEntry_invalidation Examples.net_empty Examples.config
                          (JStr "t1") Scenarios.one_hour Examples.empty_result
                          Scenarios.time_entries_cached _ _)
                   JUndefined "time_entries" eq_refl)).
  vm_compute. reflexivity.
Defined.

(** ** The keys of [getTask] *)

Lemma str_length_app a b : String.length (a +:+ b) = (String.length a + String.length b)%nat.
Proof. induction a as [|c a IH]; [reflexivity|]. rewrite str_app_cons. cbn. rewrite IH. reflexivity. Qed.

Lemma str_app_inj_tail s1 s2 t1 t2 :
  String.length t1 = String.length t2 ->
  s1 +:+ t1 = s2 +:+ t2 -> s1 = s2 /\ t1 = t2.
Proof.
  intros Hlen. revert s2. induction s1 as [|c s1 IH]; intros [|d s2] H.
  - auto.
  - rewrite str_app_nil_l in H. subst t1. rewrite str_app_cons in Hlen.
    cbn in Hlen. rewrite str_length_app in Hlen. lia.
  - rewrite str_app_nil_l in H. subst t2. rewrite str_app_cons in Hlen.
    cbn in Hlen. rewrite str_length_app in Hlen. lia.
  - rewrite !str_app_cons in H. injection H as -> H.
    destruct (IH _ H) as [-> ->]. auto.
Qed.

Lemma getTask_cacheKey_text taskId includeMarkdown :
  is_undefined taskId = false ->
  getTask_cacheKey taskId includeMarkdown
  = "task:id=" +:+ to_string taskId +:+ "&markdown="
    +:+ (if includeMarkdown then "true" else "false").
Proof.
  intros Hdef. unfold getTask_cacheKey, createCacheKey.
  cbn [keys fmap list_fmap fst List.filter lookup_field String.eqb Ascii.eqb Bool.eqb].
  rewrite Hdef. cbn [negb is_undefined].
  change (merge_sort String.le ["id"; "markdown"]) with ["id"; "markdown"].
  cbn [map lookup_field String.eqb Ascii.eqb Bool.eqb join to_string].
  destruct includeMarkdown; reflexivity.
Qed.

(** X11. The two variants of a task never share a cache entry, nor do two
    tasks: for task ids that are given, [getTask] builds the same key for
    two calls exactly when the ids read the same as text and the markdown
    flags are equal, and two calls with the same key send the same
    request.  So a task cached without its markdown description is never
    served to a call that asked for it. *)
Theorem getTask_keys_distinct (config : ClickUpConfig) (id1 id2 : JValue) (m1 m2 : bool) :
  is_undefined id1 = false -> is_undefined id2 = false ->
  (getTask_cacheKey id1 m1 = getTask_cacheKey id2 m2 <->
   to_string id1 = to_string id2 /\ m1 = m2) /\
  (getTask_cacheKey id1 m1 = getTask_cacheKey id2 m2 ->
   read_endpoint config (GetTask id1 m1) = read_endpoint config (GetTask id2 m2)).
Proof.
  intros H1 H2. rewrite !getTask_cacheKey_text by assumption.
  assert ("task:id=" +:+ to_string id1 +:+ "&markdown=" +:+ (if m1 then "true" else "false")
          = "task:id=" +:+ to_string id2 +:+ "&markdown=" +:+ (if m2 then "true" else "false")
          -> to_string id1 = to_string id2 /\ m1 = m2) as Hinj.
  { intros E. expose_text. injection E as E.
    destruct m1, m2.
    - apply str_app_inj_tail in E as [-> _]; auto.
    - exfalso.
      change "&markdown=true" with ("&markdown" +:+ "=true") in E.
      change "&markdown=false" with ("&markdown=" +:+ "false") in E.
      rewrite <- !str_app_assoc in E.
      apply str_app_inj_tail in E as [_ E]; [discriminate E|reflexivity].
    - exfalso.
      change "&markdown=true" with ("&markdown" +:+ "=true") in E.
      change "&markdown=false" with ("&markdown=" +:+ "false") in E.
      rewrite <- !str_app_assoc in E.
      apply str_app_inj_tail in E as [_ E]; [discriminate E|reflexivity].
    - apply str_app_inj_tail in E as [-> _]; auto. }
  split; [split; [exact Hinj|intros [-> ->]; reflexivity]|].
  intros E. apply Hinj in E as [E ->]. cbn [read_endpoint]. rewrite E. reflexivity.
Qed.

Lemma getTask_keys_distinct_witness :
  getTask_cacheKey (JStr "t1") false = getTask_cacheKey (JStr "t1") true <->
  "t1" = "t1" /\ false = true.
Proof.
  exact (proj1 (getTask_keys_distinct Examples.config (JStr "t1") (JStr "t1") false true
                  eq_refl eq_refl)).
Defined.

(** ** What a read does to the cache *)

(** X12. A read changes no cache entry but its own.  Whatever the state and
    the outcome, the entries under every other key, the caching switches and
    the clock are as they were; a read that sends nothing leaves the world
    as it was; a read that fails leaves the whole cache as it was (a failed
    fetch is not cached); and a read that returns after a fetch, caching
    being on, has stored what it returns under its key for the lifetime of
    the operation. *)
Theorem read_touches_own_entry (net : Network) (config : ClickUpConfig) (op : ReadOp)
    (key : string) (st : State) :
  read_key op = Ok key ->
  let run := read net config op st in
  (forall key', key' <> key ->
     PluginCache.entries (cache run.2) !! key' = PluginCache.entries (cache st) !! key') /\
  PluginCache.enabled (cache run.2) = PluginCache.enabled (cache st) /\
  cacheDisabled run.2 = cacheDisabled st /\
  now run.2 = now st /\
  (sent run.2 = sent st -> run.2 = st) /\
  (forall e, run.1 = Throw e -> cache run.2 = cache st) /\
  (forall v, run.1 = Ok v -> sent run.2 <> sent st ->
     PluginCache.enabled (cache st) = true ->
     PluginCache.entries (cache run.2) !! key
     = Some {| PluginCache.value := v; PluginCache.expires := now st + read_ttl op |}).
Proof.
  intros Hkey run. subst run. rewrite read_unfold, Hkey. unfold cached, getOrFetch. cbv zeta.
  assert (forall (l : list Request) (x : Request), l ++ [x] <> l) as Hgrow.
  { intros l x E. apply (f_equal length) in E. rewrite length_app in E. cbn in E. lia. }
  destruct (if _ && _ then _ else _) as [v|].
  { cbn [fst snd]. split; [|split; [|split; [|split; [|split; [|split]]]]];
      try reflexivity; try discriminate.
    intros v0 _ Hsent. contradiction. }
  rewrite fetch_run. destruct (read_endpoint config op) as [endpoint|e].
  2:{ cbn [fst snd]. split; [|split; [|split; [|split; [|split; [|split]]]]];
        try reflexivity; discriminate. }
  cbv zeta. destruct (bind_r _ _) as [v|e]; cbn [fst snd cache with_sent].
  - destruct (PluginCache.enabled (cache st)) eqn:Hen; cbn;
      (split; [|split; [|split; [|split; [|split; [|split]]]]]);
      try reflexivity; try discriminate; try exact Hen;
      try (intros E; apply Hgrow in E; contradiction).
    + intros key' Hne. apply lookup_insert_ne. congruence.
    + intros v0 [= <-] _ _. apply lookup_insert_eq.
  - split; [|split; [|split; [|split; [|split; [|split]]]]];
      try reflexivity; try discriminate.
    intros E. apply Hgrow in E. contradiction.
Qed.

Lemma read_touches_own_entry_witness :
  PluginCache.entries
    (cache (read Examples.net_empty Examples.config (GetTask (JStr "t2") false)
              Examples.task_cached).2) !! "task:id=t1&markdown=true"
  = PluginCache.entries (cache Examples.task_cached) !! "task:id=t1&markdown=true".
Proof.
  refine (proj1 (read_touches_own_entry Examples.net_empty Examples.config
                   (GetTask (JStr "t2") false) "task:id=t2&markdown=false"
                   Examples.task_cached _) "task:id=t1&markdown=true" _).
  - vm_compute. reflexivity.
  - discriminate.
Defined.

(** ** Switching the cache back on *)

(** X13. [enableCache()] turns read-through back on: it clears the flag of
    the client and enables the cache, keeping entries, log and clock; and
    from then on a read that had to fetch its result is served from the
    cache, without a request, for the lifetime of its operation. *)
Theorem enableCache_restores_read_through (net : Network) (config : ClickUpConfig)
    (op : ReadOp) (st : State) :
  let st0 := (enableCache st).2 in
  (cacheDisabled st0 = false /\
   PluginCache.enabled (cache st0) = true /\
   PluginCache.entries (cache st0) = PluginCache.entries (cache st) /\
   sent st0 = sent st /\ now st0 = now st) /\
  (forall v st1 d,
     read net config op st0 = (Ok v, st1) ->
     sent st1 <> sent st0 ->
     0 <= d < read_ttl op ->
     read net config op (later d st1) = (Ok v, later d st1)).
Proof.
  intros st0. split; [repeat split|].
  intros v st1 d Hrun Hsent Hd.
  assert (cacheDisabled st0 = false) as Hflag by reflexivity.
  assert (PluginCache.enabled (cache st0) = true) as Hen by reflexivity.
  clearbody st0. rewrite read_unfold in *.
  destruct (read_key op) as [key|e]; [|discriminate Hrun].
  unfold cached in *. rewrite Hflag in Hrun. unfold getOrFetch in Hrun. cbv zeta in Hrun.
  destruct (if _ && _ then _ else _) as [v0|].
  { injection Hrun as _ <-. contradiction. }
  rewrite fetch_run in Hrun. destruct (read_endpoint config op) as [endpoint|e];
    [|discriminate Hrun].
  cbv zeta in Hrun. destruct (bind_r _ _) as [v0|e]; [|discriminate Hrun].
  cbn [cache with_sent] in Hrun. rewrite Hen in Hrun. injection Hrun as -> <-.
  cbn. rewrite Hflag. apply getOrFetch_hit.
  - cbn. exact Hen.
  - cbn. rewrite peek_store, decide_True by reflexivity.
    destruct (Z.ltb_spec (now st0 + d) (now st0 + read_ttl op)); [reflexivity|lia].
Qed.

Lemma enableCache_restores_read_through_witness :
  let st0 := (enableCache (disableCache (initial 0)).2).2 in
  let st1 := (read Examples.net_empty Examples.config GetSpaces st0).2 in
  read Examples.net_empty Examples.config GetSpaces (later 1000 st1)
  = (Ok (JArr []), later 1000 st1).
Proof.
  intros st0 st1.
  refine (proj2 (enableCache_restores_read_through Examples.net_empty Examples.config
                   GetSpaces (disableCache (initial 0)).2)
            (JArr []) st1 1000 eq_refl _ _).
  - vm_compute. discriminate.
  - unfold read_ttl, TTL.HOUR. lia.
Defined.

(** ** What [addComment] invalidates *)

Lemma no_break_app a b : no_break (a +:+ b) = no_break a && no_break b.
Proof.
  induction a as [|c a IH]; [reflexivity|].
  rewrite str_app_cons. cbn [no_break]. rewrite IH, andb_assoc. reflexivity.
Qed.

Lemma Matches_any_inv s :
  Matches RegExp.PAny s -> exists c, s = String c "" /\ RegExp.line_terminator c = false.
Proof. inversion 1; subst. eauto. Qed.

Lemma Matches_star_any s : Matches (RegExp.PStar RegExp.PAny) s <-> no_break s = true.
Proof.
  split.
  - intros H. remember (RegExp.PStar RegExp.PAny) as p eqn:Hp.
    induction H as [| | | | | | |p' s1 s2 H1 _ H2 IH2]; try discriminate; [reflexivity|].
    injection Hp as ->. rewrite no_break_app, (IH2 eq_refl), andb_true_r.
    apply Matches_any_inv in H1 as (c & -> & Hc). cbn. rewrite Hc. reflexivity.
  - induction s as [|c s IH]; cbn [no_break]; intros H; [constructor|].
    apply andb_true_iff in H as [Hc Hs]. apply negb_true_iff in Hc.
    change (String c s) with (String c "" +:+ s).
    apply MStarApp; [constructor; exact Hc|exact (IH Hs)].
Qed.

Lemma comments_pattern_spec taskId key :
  literal taskId = true ->
  pattern_test ("^comments.*task=" +:+ taskId) key = true <-> comments_key_of taskId key.
Proof.
  intros Hlit. unfold pattern_test, RegExp.compile, comments_key_of.
  change ("^comments.*task=" +:+ taskId) with (String "^" ("comments.*task=" +:+ taskId)).
  cbv iota beta.
  assert (RegExp.parse ("comments.*task=" +:+ taskId) RegExp.start
          = RegExp.parse ("task=" +:+ taskId)
              {| RegExp.before := seq_literal RegExp.PEmpty "comments";
                 RegExp.last := Some (RegExp.PStar RegExp.PAny, RegExp.Quantified) |})
    as -> by reflexivity.
  rewrite parse_literal by (rewrite literal_app, Hlit; reflexivity).
  cbn [RegExp.test RegExp.anchored RegExp.pattern].
  rewrite matches_prefix_spec. unfold RegExp.flush. cbn [RegExp.last RegExp.before].
  split.
  - intros (s1 & s2 & -> & Hm).
    apply Matches_seq_literal in Hm as (s0 & Hm & ->).
    apply Matches_seq_inv in Hm as (s3 & s4 & -> & H3 & H4).
    apply Matches_seq_literal in H3 as (s5 & H5 & ->).
    apply Matches_empty_inv in H5 as ->. apply Matches_star_any in H4.
    exists s4, s2. split; [exact H4|].
    rewrite str_app_nil_l, !str_app_assoc. reflexivity.
  - intros (mid & rest & Hmid & ->).
    exists ("comments" +:+ mid +:+ "task=" +:+ taskId), rest. split.
    + rewrite !str_app_assoc. reflexivity.
    + apply Matches_seq_literal. exists ("comments" +:+ mid).
      split; [|rewrite !str_app_assoc; reflexivity].
      apply MSeq; [|apply Matches_star_any; exact Hmid].
      apply Matches_seq_literal. exists "". split; [constructor|reflexivity].
Qed.

Lemma join_In_split (P : string -> Prop) sep (l : list string) x :
  P "" -> (forall a b, P a -> P b -> P (a +:+ b)) -> P sep ->
  (forall y, In y l -> y <> x -> P y) -> In x l ->
  exists pre post, join sep l = pre +:+ x +:+ post /\ P pre.
Proof.
  intros Hnil Happ Hsep. induction l as [|y l IH]; intros Hl Hin; [destruct Hin|].
  destruct (string_dec y x) as [->|Hne].
  - exists "". destruct l as [|z l].
    + exists "". cbn. rewrite str_app_nil_r. auto.
    + exists (sep +:+ join sep (z :: l)). auto.
  - destruct Hin as [->|Hin]; [contradiction|].
    destruct IH as (pre & post & E & Hpre); [intros z Hz; apply Hl; right; exact Hz|exact Hin|].
    destruct l as [|z l]; [destruct Hin|].
    exists (y +:+ sep +:+ pre), post. split.
    + change (join sep (y :: z :: l)) with (y +:+ sep +:+ join sep (z :: l)).
      rewrite E, !str_app_assoc. reflexivity.
    + apply Happ; [apply Hl; [left; reflexivity|exact Hne]|]. apply Happ; assumption.
Qed.

Lemma comments_key_shape taskId options :
  wf_options options -> ~ In "task" (keys (own_fields options)) ->
  one_line_options options ->
  comments_key_of taskId (getTaskComments_cacheKey (JStr taskId) options).
Proof.
  intros Hwf Htask Hline. unfold getTaskComments_cacheKey, createCacheKey. cbv zeta.
  set (params := spread [("task", JStr taskId)] options).
  assert (NoDup (keys [("task", JStr taskId)])) as Hbase by apply NoDup_singleton.
  destruct (spread_spec [("task", JStr taskId)] options Hbase (wf_own_fields _ Hwf))
    as [Hnd Hlook]. fold params in Hnd, Hlook.
  set (present := List.filter (fun k => negb (is_undefined (lookup_field k params)))
                    (keys params)).
  set (render := fun k => k +:+ "=" +:+ to_string (lookup_field k params)).
  assert (lookup_field "task" params = JStr taskId) as Hmine.
  { rewrite Hlook. rewrite bool_decide_eq_false_2; [reflexivity|].
    rewrite list_elem_of_In. exact Htask. }
  assert (forall k, In k (merge_sort String.le present) <-> In k present) as Hsorted.
  { intros k. rewrite <- !list_elem_of_In. rewrite merge_sort_Permutation. reflexivity. }
  assert (In "task" present) as Hin.
  { apply filter_In. split; [|rewrite Hmine; reflexivity].
    apply lookup_field_defined. rewrite Hmine. reflexivity. }
  assert (In (render "task") (map render (merge_sort String.le present))) as Hx.
  { apply in_map. apply Hsorted. exact Hin. }
  destruct (join_In_split (fun s => no_break s = true) "&"
              (map render (merge_sort String.le present)) (render "task"))
    as (pre & post & E & Hpre); try reflexivity; try exact Hx.
  { intros a b Ha Hb. rewrite no_break_app, Ha, Hb. reflexivity. }
  { intros y Hy Hne. apply in_map_iff in Hy as (k & <- & Hk).
    apply Hsorted in Hk. apply filter_In in Hk as [_ Hdef].
    apply negb_true_iff in Hdef.
    assert (k <> "task") as Hk by (intros ->; apply Hne; reflexivity).
    rewrite Hlook in Hdef. unfold render. rewrite Hlook.
    destruct (bool_decide (k ∈ keys (own_fields options))) eqn:Hopt.
    - apply bool_decide_eq_true in Hopt. rewrite list_elem_of_In in Hopt.
      destruct (Hline k Hopt) as [H1 H2]. rewrite lookup_own_fields.
      rewrite !no_break_app, H1, H2. reflexivity.
    - cbn in Hdef. destruct (String.eqb_spec k "task"); [contradiction|discriminate Hdef]. }
  destruct (map render (merge_sort String.le present)) as [|r0 rs] eqn:Hmap; [destruct Hx|].
  rewrite E. unfold render at 1. rewrite Hmine. cbn [to_string].
  exists (":" +:+ pre), post. split; [exact Hpre|].
  rewrite !str_app_assoc. reflexivity.
Qed.

Lemma comments_pattern_compiles taskId :
  literal taskId = true ->
  exists re, RegExp.compile ("^comments.*task=" +:+ taskId) = RegExp.Regex re.
Proof.
  intros Hlit. unfold RegExp.compile.
  change ("^comments.*task=" +:+ taskId) with (String "^" ("comments.*task=" +:+ taskId)).
  cbv iota beta.
  assert (RegExp.parse ("comments.*task=" +:+ taskId) RegExp.start
          = RegExp.parse ("task=" +:+ taskId)
              {| RegExp.before := seq_literal RegExp.PEmpty "comments";
                 RegExp.last := Some (RegExp.PStar RegExp.PAny, RegExp.Quantified) |})
    as -> by reflexivity.
  rewrite parse_literal by (rewrite literal_app, Hlit; reflexivity).
  eexists. reflexivity.
Qed.

(** For plain ASCII ids and ASCII keys, [addComment] returns what the
    service answered. *)
Lemma addComment_returns net config taskId commentText notifyAll st result :
  literal taskId = true -> ascii_text taskId = true -> ascii_keys st = true ->
  answer net (sent st)
    (write_request config (AddComment (JStr taskId) commentText notifyAll)) = Ok result ->
  exists st', addComment net config (JStr taskId) commentText notifyAll st = (Ok result, st').
Proof.
  intros Hlit Hascii Hkeys Hanswer. cbn [write_request to_string] in Hanswer.
  unfold addComment. unfold bind at 1. rewrite request_answer. cbn [to_string].
  rewrite Hanswer. unfold bind, ret, cache_invalidatePattern.
  destruct (comments_pattern_compiles taskId Hlit) as [re ->].
  rewrite exact_on_keys_ascii.
  - cbn [cache with_sent].
    destruct (PluginCache.invalidatePattern re (cache st)). eexists. reflexivity.
  - rewrite ascii_text_app, Hascii. reflexivity.
  - exact Hkeys.
Qed.

(** X14. For a task id of ASCII text without characters that have a meaning
    in pattern syntax, and a cache whose keys are ASCII text, [addComment],
    once the service has accepted the comment, returns and has dropped
    exactly the entries whose key reads [comments], any text on one line,
    [task=<taskId>], any text: every such entry is gone and a later
    [getOrFetch] on its key runs its producer, and every other entry is as
    it was.  Among the dropped entries are those of [getTaskComments] for
    that task with any pagination options (options that do not define
    [task] and whose names and values are on one line). *)
Theorem addComment_invalidation (net : Network) (config : ClickUpConfig)
    (taskId : string) (commentText : JValue) (notifyAll : bool)
    (st : State) (result : JValue) :
  literal taskId = true -> ascii_text taskId = true -> ascii_keys st = true ->
  answer net (sent st)
    (write_request config (AddComment (JStr taskId) commentText notifyAll)) = Ok result ->
  exists st',
    addComment net config (JStr taskId) commentText notifyAll st = (Ok result, st') /\
    (forall key, comments_key_of taskId key ->
       PluginCache.entries (cache st') !! key = None /\ must_refetch key st') /\
    (forall key, ~ comments_key_of taskId key ->
       PluginCache.entries (cache st') !! key = PluginCache.entries (cache st) !! key) /\
    (forall options,
       wf_options options -> ~ In "task" (keys (own_fields options)) ->
       one_line_options options ->
       PluginCache.entries (cache st') !! getTaskComments_cacheKey (JStr taskId) options
       = None /\
       must_refetch (getTaskComments_cacheKey (JStr taskId) options) st').
Proof.
  intros Hlit Hascii Hascii_keys Hanswer.
  destruct (addComment_returns net config taskId commentText notifyAll st result
              Hlit Hascii Hascii_keys Hanswer) as [st' Hrun].
  exists st'. split; [exact Hrun|].
  destruct (write_run net config (AddComment (JStr taskId) commentText notifyAll)
              _ _ _ Hrun) as [[_ Hdrop] _].
  cbn [dropped_by to_string] in Hdrop.
  assert (forall key, comments_key_of taskId key ->
            PluginCache.entries (cache st') !! key = None /\ must_refetch key st') as Hkeys.
  { intros key Hkey. apply (comments_pattern_spec taskId key Hlit) in Hkey.
    assert (PluginCache.entries (cache st') !! key = None) as Habs
      by (rewrite Hdrop, Hkey; reflexivity).
    split; [exact Habs|apply must_refetch_absent; exact Habs]. }
  split; [exact Hkeys|]. split.
  - intros key Hkey. rewrite Hdrop.
    destruct (pattern_test _ key) eqn:Htest; [|reflexivity].
    apply (comments_pattern_spec taskId key Hlit) in Htest. contradiction.
  - intros options Hwf Htask Hline. apply Hkeys. apply comments_key_shape; assumption.
Qed.

Lemma addComment_invalidation_witness :
  let run := addComment Examples.net_empty Examples.config (JStr "t1") (JStr "hi") false
               (Examples.comments_cached "t1") in
  run.1 = Ok Examples.empty_result /\
  PluginCache.entries (cache run.2)
    !! getTaskComments_cacheKey (JStr "t1") (JObj [("start", JNum 5)]) = None.
Proof.
  intros run.
  destruct (addComment_invalidation Examples.net_empty Examples.config
              "t1" (JStr "hi") false (Examples.comments_cached "t1")
              Examples.empty_result eq_refl eq_refl eq_refl eq_refl)
    as (st' & Hrun & _ & _ & Hoptions).
  assert (run = (Ok Examples.empty_result, st')) as -> by exact Hrun.
  split; [reflexivity|].
  refine (proj1 (Hoptions (JObj [("start", JNum 5)]) _ _ _)).
  - apply (bool_decide_unpack _). vm_compute. exact I.
  - cbn. intuition discriminate.
  - intros k [<-|[]]. split; reflexivity.
Defined.

(** X15. [addComment] builds its pattern from the task id after the comment
    has been posted.  When the id makes the pattern malformed (for
    instance an id that ends in [**]), the call throws a SyntaxError
    although the service has accepted the comment, and the cache is left as
    it was. *)
Theorem addComment_malformed_pattern (net : Network) (config : ClickUpConfig)
    (taskId commentText : JValue) (notifyAll : bool) (st : State) (result : JValue) :
  RegExp.compile ("^comments.*task=" +:+ to_string taskId) = RegExp.Invalid ->
  answer net (sent st)
    (request_of config "POST" ("/task/" +:+ to_string taskId +:+ "/comment")
       (JObj [("comment_text", commentText); ("notify_all", JBool notifyAll)])) = Ok result ->
  addComment net config taskId commentText notifyAll st
  = (Throw SyntaxError,
     with_sent
       (sent st ++
        [request_of config "POST" ("/task/" +:+ to_string taskId +:+ "/comment")
           (JObj [("comment_text", commentText); ("notify_all", JBool notifyAll)])]) st).
Proof.
  intros Hbad Hok. unfold addComment. unfold bind at 1. rewrite request_answer, Hok.
  unfold bind, cache_invalidatePattern. rewrite Hbad. reflexivity.
Qed.

Lemma addComment_malformed_pattern_witness :
  (addComment Examples.net_empty Examples.config (JStr "t1**") (JStr "hi") false
     (Examples.comments_cached "t1**")).1 = Throw SyntaxError /\
  cache (addComment Examples.net_empty Examples.config (JStr "t1**") (JStr "hi") false
           (Examples.comments_cached "t1**")).2
  = cache (Examples.comments_cached "t1**").
Proof.
  rewrite (addComment_malformed_pattern Examples.net_empty Examples.config (JStr "t1**")
             (JStr "hi") false (Examples.comments_cached "t1**") Examples.empty_result
             eq_refl eq_refl).
  split; reflexivity.
Defined.

(** ** The cost of the workspace traversal *)

Lemma requests_length config ops :
  Forall hierarchy ops -> length (requests config ops) = length ops.
Proof.
  induction 1 as [|op ops Hop _ IH]; [reflexivity|].
  unfold requests in *. cbn [flat_map]. rewrite length_app, IH.
  destruct (hierarchy_ok config op Hop) as (key & endpoint & _ & ->). reflexivity.
Qed.

Lemma all_reads_hierarchy view : Forall hierarchy (all_reads view).
Proof.
  unfold all_reads. constructor; [exact I|].
  apply Forall_forall. intros op Hop. apply list_elem_of_In in Hop.
  apply in_flat_map in Hop as (space & _ & Hop).
  unfold reads_of_space in Hop. destruct Hop as [<-|[<-|Hop]]; try exact I.
  apply in_map_iff in Hop as (folder & <- & _). exact I.
Qed.

Lemma length_flat_map {A B} (f : A -> list B) l :
  length (flat_map f l) = sum_list (map (fun x => length (f x)) l).
Proof. induction l as [|x l IH]; cbn; [reflexivity|]. rewrite length_app, IH. reflexivity. Qed.

(** X16. The cost of [getAllLists]: against a service whose answers do not
    depend on earlier requests and with caching off, a traversal that
    returns has sent one request for the spaces and, for every space, two
    requests (its folderless lists, its folders) and one more for each of
    its folders. *)
Theorem getAllLists_request_count (net : Network) (config : ClickUpConfig)
    (st : State) (lists : JValue) :
  stateless net -> caching_off st ->
  (getAllLists net config st).1 = Ok lists ->
  let view := served net config st in
  length (sent (getAllLists net config st).2)
  = (length (sent st) + 1 +
     sum_list (map (fun space =>
                      2 + length (items_of (view (GetFolders (id_of space)))))
                 (items_of (view GetSpaces))))%nat.
Proof.
  intros Hnet Hoff Hrun view.
  destruct (tracks_getAllLists net config view Hnet st (fun op _ => eq_refl))
    as (Hresult & _ & Hsent).
  destruct (Hsent Hoff) as [_ Hreqs].
  rewrite (Hreqs lists) by (rewrite <- Hresult; exact Hrun).
  rewrite length_app, requests_length by apply all_reads_hierarchy.
  unfold all_reads. cbn [length]. rewrite length_flat_map.
  assert (forall space, length (reads_of_space view space)
                        = (2 + length (items_of (view (GetFolders (id_of space)))))%nat) as E.
  { intros space. unfold reads_of_space. cbn [length]. rewrite length_map. reflexivity. }
  rewrite (map_ext _ _ E). lia.
Qed.

Lemma getAllLists_request_count_witness :
  length (sent (getAllLists Examples.net_workspace Examples.config
                  (disableCache (initial 0)).2).2) = 5%nat.
Proof.
  assert (stateless Examples.net_workspace) as Hnet by (intros h1 h2 req; reflexivity).
  assert (caching_off (disableCache (initial 0)).2) as Hoff by (split; reflexivity).
  pose proof (getAllLists_request_count Examples.net_workspace Examples.config
                (disableCache (initial 0)).2 _ Hnet Hoff eq_refl) as Hcount.
  cbv zeta in Hcount. rewrite Hcount. vm_compute. reflexivity.
Defined.

(** ** A traversal served from the cache *)

Section Replaying.

Context (net : Network) (config : ClickUpConfig) (view : ReadOp -> Result JValue).
Context (Hnet : stateless net) (t0 : Z).

Local Abbreviation tracks := (tracks net config view).
Local Abbreviation replays := (replays net config view t0).

Lemma replays_silent {A} (m : M A) r :
  (forall st, m st = (r, st)) -> replays m r [].
Proof.
  intros Hm st Hst. rewrite Hm. cbn [snd]. split.
  - intros Hwarm. split; [exact Hwarm|]. split; [auto|]. intros a _ op [].
  - intros a -> _. reflexivity.
Qed.

Lemma replays_ret {A} (a : A) : replays (ret a) (Ok a) [].
Proof. apply replays_silent. reflexivity. Qed.

Lemma replays_lift {A} (r : Result A) : replays (lift r) r [].
Proof. apply replays_silent. reflexivity. Qed.

Lemma replays_weaken {A} (m : M A) r r' reads reads' :
  replays m r reads -> r = r' -> (forall a, r' = Ok a -> reads = reads') ->
  replays m r' reads'.
Proof.
  intros Hm <- Hreads st Hst. destruct (Hm st Hst) as [Hwarm Hquiet]. split.
  - intros Hw. destruct (Hwarm Hw) as (Hw' & Hmono & Hholds).
    split; [exact Hw'|]. split; [exact Hmono|].
    intros a Ha op Hop. rewrite <- (Hreads a Ha) in Hop. exact (Hholds a Ha op Hop).
  - intros a Ha Hhits. apply Hquiet; [exact Ha|].
    intros op Hop. apply Hhits. rewrite <- (Hreads a Ha). exact Hop.
Qed.

Lemma replays_bind {A B} (m : M A) (k : A -> M B) r (k' : A -> Result B) reads reads' :
  tracks m r reads -> replays m r reads ->
  (forall a, r = Ok a -> replays (k a) (k' a) (reads' a)) ->
  replays (bind m k) (bind_r r k') (reads ++ from_ok r reads').
Proof.
  intros Ht Hm Hk st Hst.
  destruct (Ht st Hst) as (Hr & Hagree & _). destruct (Hm st Hst) as [Hwarm Hquiet].
  unfold bind. destruct (m st) as [[a|e] st1] eqn:Hrun; cbn [fst snd] in *; subst r;
    cbn [bind_r from_ok].
  - destruct (Hk a eq_refl st1 Hagree) as [Hwarm2 Hquiet2]. split.
    + intros Hw. destruct (Hwarm Hw) as (Hw1 & Hmono1 & Hholds1).
      destruct (Hwarm2 Hw1) as (Hw2 & Hmono2 & Hholds2).
      split; [exact Hw2|]. split; [auto|].
      intros b Hb op Hop. apply in_app_iff in Hop as [Hop|Hop].
      * destruct (Hholds1 a eq_refl op Hop) as (key & Hkey & Hpresent).
        exists key. auto.
      * exact (Hholds2 b Hb op Hop).
    + intros b Hb Hhits.
      assert (st1 = st) as ->.
      { specialize (Hquiet a eq_refl (fun op Hop => Hhits op (in_or_app _ _ _ (or_introl Hop)))).
        congruence. }
      apply Hquiet2; [exact Hb|]. intros op Hop. apply Hhits. apply in_app_iff. auto.
  - split.
    + intros Hw. destruct (Hwarm Hw) as (Hw1 & Hmono1 & _).
      split; [exact Hw1|]. split; [exact Hmono1|]. intros b Hb. discriminate Hb.
    + intros b Hb. discriminate Hb.
Qed.

Lemma hierarchy_ttl op : hierarchy op -> TTL.FIFTEEN_MINUTES <= read_ttl op.
Proof. destruct op; cbn; try contradiction; intros _; unfold TTL.HOUR, TTL.FIFTEEN_MINUTES; lia. Qed.

Lemma replays_read op : hierarchy op -> replays (read net config op) (view op) [op].
Proof.
  intros Hop st Hst.
  destruct (hierarchy_ok config op Hop) as (key & endpoint & Hkey & Hep).
  pose proof (Hst op Hop) as Hserved. unfold served in Hserved.
  rewrite (read_run net config op st key endpoint Hnet Hkey Hep) in *.
  split.
  - intros (Hen & Hflag & Hnow & Hlong).
    destruct (hit st key) as [v|] eqn:Hhit.
    + cbn [snd]. split; [repeat split; assumption|]. split; [auto|].
      intros a _ op' [<-|[]]. exists key. split; [exact Hkey|].
      unfold hit in Hhit. rewrite Hen, Hflag in Hhit. cbn in Hhit.
      unfold PluginCache.peek in Hhit. unfold present.
      destruct (PluginCache.entries (cache st) !! key); [eauto|discriminate Hhit].
    + cbv zeta in *. destruct (fetched net config op) as [v|e].
      * rewrite Hen. cbn [snd].
        split; [|split].
        -- repeat split; try assumption.
           intros key' e. cbn. rewrite lookup_insert_Some.
           intros [[_ <-]|[_ He]]; [|exact (Hlong key' e He)].
           cbn. pose proof (hierarchy_ttl op Hop). lia.
        -- intros key' Hp. unfold present in *. cbn.
           rewrite lookup_insert_is_Some. destruct (decide (key = key')); auto.
        -- intros a _ op' [<-|[]]. exists key. split; [exact Hkey|].
           unfold present. cbn. rewrite lookup_insert_eq. eauto.
      * cbn [snd]. split; [repeat split; assumption|]. split; [auto|].
        intros a Ha. cbn [fst] in Hserved. congruence.
  - intros a Ha Hhits. destruct (Hhits op (or_introl eq_refl)) as (key' & v & Hkey' & Hhit).
    assert (key' = key) as -> by congruence.
    rewrite Hhit in *. cbn [fst] in Hserved. congruence.
Qed.

Lemma replays_for_of_append (body : JValue -> list JValue -> M (list JValue))
    (g : JValue -> Result (list JValue)) (t : JValue -> list ReadOp) items :
  (forall x acc, In x items ->
     tracks (body x acc) (bind_r (g x) (fun ys => Ok (acc ++ ys))) (t x)) ->
  (forall x acc, In x items ->
     replays (body x acc) (bind_r (g x) (fun ys => Ok (acc ++ ys))) (t x)) ->
  forall acc,
    replays (for_of items body acc)
      (bind_r (map_r g items) (fun yss => Ok (acc ++ concat yss)))
      (flat_map t items).
Proof.
  induction items as [|x items IH]; intros Htrack Hbody acc; cbn [for_of map_r flat_map].
  - eapply replays_weaken; [apply replays_ret| |reflexivity].
    cbn. rewrite app_nil_r. reflexivity.
  - eapply replays_weaken.
    + eapply replays_bind.
      * apply Htrack. left. reflexivity.
      * apply Hbody. left. reflexivity.
      * intros acc' _. apply IH.
        -- intros y acc0 Hy. apply Htrack. right. exact Hy.
        -- intros y acc0 Hy. apply Hbody. right. exact Hy.
    + destruct (g x) as [ys|e]; cbn [bind_r]; [|reflexivity].
      destruct (map_r g items); cbn [bind_r concat]; [|reflexivity].
      rewrite app_assoc. reflexivity.
    + intros a Ha. destruct (g x) as [ys|e]; cbn [bind_r from_ok] in *; [reflexivity|].
      discriminate Ha.
Qed.

Lemma replays_push_each (f : JValue -> Result JValue) lists acc :
  replays (push_each f lists acc)
    (bind_r (map_r f lists) (fun ys => Ok (acc ++ ys))) [].
Proof.
  unfold push_each. eapply replays_weaken.
  - apply (replays_for_of_append _ (fun x => bind_r (f x) (fun y => Ok [y])) (fun _ => [])).
    + intros x acc0 _. eapply tracks_weaken.
      * eapply tracks_bind; [apply tracks_lift|]. intros item _. apply tracks_ret.
      * destruct (f x); reflexivity.
      * intros a _. destruct (f x); reflexivity.
    + intros x acc0 _. eapply replays_weaken.
      * eapply replays_bind; [apply tracks_lift|apply replays_lift|].
        intros item _. apply replays_ret.
      * destruct (f x); reflexivity.
      * intros a _. destruct (f x); reflexivity.
  - rewrite map_r_singleton. destruct (map_r f lists); cbn [bind_r]; [|reflexivity].
    rewrite concat_singletons. reflexivity.
  - intros a _. apply flat_map_nil.
Qed.

Lemma replays_folder space folder acc :
  replays
    (let* folderId := lift (prop_r "id" folder) in
     let* lists := getLists net config folderId in
     let* lists := lift (iterate lists) in
     push_each (fun list =>
       bind_r (prop_r "name" space) (fun spaceName =>
       bind_r (prop_r "name" folder) (fun folderName =>
       Ok (annotate_folder spaceName folderName list)))) lists acc)
    (bind_r (lists_of_folder view space folder) (fun ys => Ok (acc ++ ys)))
    [GetLists (id_of folder)].
Proof.
  eapply replays_weaken.
  - eapply replays_bind; [apply tracks_lift|apply replays_lift|]. intros folderId _.
    eapply replays_bind;
      [apply (tracks_read net config view Hnet (GetLists folderId) I)
      |apply (replays_read (GetLists folderId) I)|].
    intros lists _.
    eapply replays_bind; [apply tracks_lift|apply replays_lift|]. intros lists' _.
    apply replays_push_each.
  - unfold lists_of_folder.
    destruct (prop_r "id" folder) as [folderId|]; cbn [bind_r]; [|reflexivity].
    destruct (view (GetLists folderId)) as [lists|]; cbn [bind_r]; [|reflexivity].
    destruct (iterate lists) as [lists'|]; cbn [bind_r]; reflexivity.
  - intros a Ha. unfold id_of.
    destruct (prop_r "id" folder) as [folderId|] eqn:Hid; cbn [bind_r from_ok] in *;
      [|unfold lists_of_folder in Ha; rewrite Hid in Ha; discriminate Ha].
    rewrite (prop_r_Ok _ _ _ Hid).
    destruct (view (GetLists folderId)) as [lists|]; cbn [from_ok]; [|reflexivity].
    destruct (iterate lists); reflexivity.
Qed.

Lemma replays_space space acc :
  replays
    (let* spaceId := lift (prop_r "id" space) in
     let* folderlessLists := getFolderlessLists net config spaceId in
     let* folderlessLists := lift (iterate folderlessLists) in
     let* allLists :=
       push_each (fun list =>
         bind_r (prop_r "name" space) (fun spaceName =>
         Ok (annotate_space spaceName list))) folderlessLists acc in
     let* folders := getFolders net config spaceId in
     let* folders := lift (iterate folders) in
     for_of folders (fun folder allLists =>
       let* folderId := lift (prop_r "id" folder) in
       let* lists := getLists net config folderId in
       let* lists := lift (iterate lists) in
       push_each (fun list =>
         bind_r (prop_r "name" space) (fun spaceName =>
         bind_r (prop_r "name" folder) (fun folderName =>
         Ok (annotate_folder spaceName folderName list)))) lists allLists)
       allLists)
    (bind_r (lists_of_space view space) (fun ys => Ok (acc ++ ys)))
    (reads_of_space view space).
Proof.
  eapply replays_weaken.
  - eapply replays_bind; [apply tracks_lift|apply replays_lift|]. intros spaceId _.
    eapply replays_bind;
      [apply (tracks_read net config view Hnet (GetFolderlessLists spaceId) I)
      |apply (replays_read (GetFolderlessLists spaceId) I)|].
    intros folderless _.
    eapply replays_bind; [apply tracks_lift|apply replays_lift|]. intros folderless' _.
    eapply replays_bind; [apply tracks_push_each; exact Hnet|apply replays_push_each|].
    intros allLists _.
    eapply replays_bind;
      [apply (tracks_read net config view Hnet (GetFolders spaceId) I)
      |apply (replays_read (GetFolders spaceId) I)|].
    intros folders _.
    eapply replays_bind; [apply tracks_lift|apply replays_lift|]. intros folders' _.
    apply (replays_for_of_append _ (lists_of_folder view space)
             (fun folder => [GetLists (id_of folder)])).
    + intros folder acc0 _. apply tracks_folder. exact Hnet.
    + intros folder acc0 _. apply replays_folder.
  - unfold lists_of_space.
    destruct (prop_r "id" space) as [spaceId|]; cbn [bind_r]; [|reflexivity].
    destruct (view (GetFolderlessLists spaceId)) as [folderless|]; cbn [bind_r];
      [|reflexivity].
    destruct (iterate folderless) as [folderless'|]; cbn [bind_r]; [|reflexivity].
    destruct (map_r _ folderless') as [direct|]; cbn [bind_r]; [|reflexivity].
    destruct (view (GetFolders spaceId)) as [folders|]; cbn [bind_r]; [|reflexivity].
    destruct (iterate folders) as [folders'|]; cbn [bind_r]; [|reflexivity].
    destruct (map_r _ folders') as [nested|]; cbn [bind_r]; [|reflexivity].
    rewrite app_assoc. reflexivity.
  - intros a Ha. unfold reads_of_space, items_of, id_of, lists_of_space in *.
    destruct (prop_r "id" space) as [spaceId|] eqn:Hid; cbn [bind_r from_ok] in *;
      [|discriminate Ha].
    rewrite (prop_r_Ok _ _ _ Hid).
    destruct (view (GetFolderlessLists spaceId)) as [folderless|]; cbn [bind_r from_ok] in *;
      [|discriminate Ha].
    destruct (iterate folderless) as [folderless'|]; cbn [bind_r from_ok] in *;
      [|discriminate Ha].
    destruct (map_r _ folderless') as [direct|]; cbn [bind_r from_ok] in *;
      [|discriminate Ha].
    destruct (view (GetFolders spaceId)) as [folders|]; cbn [bind_r from_ok] in *;
      [|discriminate Ha].
    destruct (iterate folders) as [folders'|]; cbn [bind_r from_ok] in *;
      [|discriminate Ha].
    cbn. rewrite flat_map_singleton. reflexivity.
Qed.

Lemma replays_getAllLists :
  replays (getAllLists net config) (all_lists view) (all_reads view).
Proof.
  unfold getAllLists. eapply replays_weaken.
  - eapply replays_bind;
      [apply (tracks_read net config view Hnet GetSpaces I)|apply (replays_read GetSpaces I)|].
    intros spaces _.
    eapply replays_bind; [apply tracks_lift|apply replays_lift|]. intros spaces' _.
    eapply replays_bind.
    + apply (tracks_for_of_append net config view _ (lists_of_space view)
               (reads_of_space view)).
      intros space acc _. apply tracks_space. exact Hnet.
    + apply (replays_for_of_append _ (lists_of_space view) (reads_of_space view)).
      * intros space acc _. apply tracks_space. exact Hnet.
      * intros space acc _. apply replays_space.
    + intros allLists _. apply replays_ret.
  - unfold all_lists.
    destruct (view GetSpaces) as [spaces|]; cbn [bind_r]; [|reflexivity].
    destruct (iterate spaces) as [spaces'|]; cbn [bind_r]; [|reflexivity].
    destruct (map_r _ spaces'); reflexivity.
  - intros a Ha. unfold all_reads, items_of, all_lists in *.
    destruct (view GetSpaces) as [spaces|]; cbn [bind_r from_ok] in *; [|discriminate Ha].
    destruct (iterate spaces) as [spaces'|]; cbn [bind_r from_ok] in *; [|discriminate Ha].
    destruct (map_r _ spaces'); cbn [bind_r from_ok] in *; [|discriminate Ha].
    cbn. rewrite !app_nil_r. reflexivity.
Qed.

End Replaying.

Lemma hit_later st d key :
  warm (now st) st -> 0 <= d < TTL.FIFTEEN_MINUTES ->
  hit (later d st) key
  = match PluginCache.entries (cache st) !! key with
    | Some e => Some (PluginCache.value e)
    | None => None
    end.
Proof.
  intros (Hen & Hflag & _ & Hlong) Hd. unfold hit, later. cbn. rewrite Hen, Hflag. cbn.
  unfold PluginCache.peek. destruct (PluginCache.entries (cache st) !! key) as [e|] eqn:He;
    [|reflexivity].
  pose proof (Hlong key e He).
  destruct (Z.ltb_spec (now st + d) (PluginCache.expires e)); [reflexivity|lia].
Qed.



(** ** [searchSpaces] *)

Lemma lowercase_app a b : lowercase (a +:+ b) = lowercase a +:+ lowercase b.
Proof.
  induction a as [|c a IH]; [reflexivity|].
  rewrite str_app_cons. cbn [lowercase]. rewrite IH. reflexivity.
Qed.

Lemma lowercase_split s a b :
  lowercase s = a +:+ b ->
  exists s1 s2, s = s1 +:+ s2 /\ lowercase s1 = a /\ lowercase s2 = b.
Proof.
  revert s. induction a as [|c a IH]; intros s H.
  - exists "", s. auto.
  - destruct s as [|d s]; [discriminate H|].
    rewrite str_app_cons in H. cbn [lowercase] in H. injection H as Hc H.
    destruct (IH s H) as (s1 & s2 & -> & H1 & H2).
    exists (String d s1), s2. cbn [lowercase]. rewrite Hc, H1. auto.
Qed.

Lemma is_infix_spec needle hay :
  is_infix needle hay = true <-> exists before after, hay = before +:+ needle +:+ after.
Proof.
  induction hay as [|c hay IH]; cbn [is_infix].
  - rewrite orb_false_r, prefix_spec. split.
    + intros [rest ->]. exists "", rest. reflexivity.
    + intros (before & after & H). symmetry in H.
      apply str_app_eq_nil in H as [-> H]. exists after. symmetry. exact H.
  - rewrite orb_true_iff, prefix_spec, IH. split.
    + intros [[rest ->]|(before & after & ->)].
      * exists "", rest. reflexivity.
      * exists (String c before), after. reflexivity.
    + intros (before & after & H). destruct before as [|d before].
      * left. exists after. exact H.
      * right. rewrite str_app_cons in H. injection H as _ ->. eauto.
Qed.

Lemma includes_lowercase query name :
  includes (lowercase name) (lowercase query) = true <-> contains_ignoring_case query name.
Proof.
  unfold includes, contains_ignoring_case. rewrite is_infix_spec. split.
  - intros (before & after & H).
    apply lowercase_split in H as (s1 & s23 & -> & _ & H).
    apply lowercase_split in H as (s2 & s3 & -> & H2 & _). eauto.
  - intros (before & part & after & -> & H).
    exists (lowercase before), (lowercase after).
    rewrite !lowercase_app, H. reflexivity.
Qed.

Lemma sublist_filter {A} (g : A -> bool) (l : list A) : sublist (List.filter g l) l.
Proof.
  induction l as [|x l IH]; cbn; [constructor|].
  destruct (g x); [apply sublist_skip|apply sublist_cons]; exact IH.
Qed.

(** X18. [searchSpaces] with a query keeps, in the order of [getSpaces], the
    spaces whose name contains the query, letter case being ignored:
    for a non-empty ASCII query and spaces whose names are ASCII strings,
    a space is returned exactly when some part of its name equals the query
    up to the case of letters, and the state is the one [getSpaces]
    leaves. *)
Theorem searchSpaces_selects (net : Network) (config : ClickUpConfig)
    (query : string) (spaces : list JValue) (st st' : State) :
  getSpaces net config st = (Ok (JArr spaces), st') ->
  query <> "" -> ascii_text query = true ->
  Forall (fun space => exists name,
            prop "name" space = Some (JStr name) /\ ascii_text name = true) spaces ->
  exists kept,
    searchSpaces net config (JStr query) st = (Ok (JArr kept), st') /\
    sublist kept spaces /\
    forall space name,
      In space spaces -> prop "name" space = Some (JStr name) ->
      (In space kept <-> contains_ignoring_case query name).
Proof.
  intros Hspaces Hquery Hascii Hnames.
  set (keep := fun space =>
         match opt_prop "name" space with
         | JStr name => includes (lowercase name) (lowercase query)
         | _ => false
         end).
  exists (List.filter keep spaces).
  assert (forall space name, prop "name" space = Some (JStr name) ->
            opt_prop "name" space = JStr name) as Hopt.
  { intros space name H. destruct space; cbn in *; congruence. }
  split; [|split].
  - unfold searchSpaces. unfold bind at 1. rewrite Hspaces.
    assert (truthy (JStr query) = true) as ->.
    { cbn. destruct (String.eqb_spec query ""); [contradiction|reflexivity]. }
    cbn [negb toLowerCase]. rewrite Hascii. unfold bind at 1, lift at 1.
    assert (filter_r (fun s =>
                        bind_r (prop_r "name" s) (fun name =>
                        bind_r (toLowerCase name) (fun lowerName =>
                        Ok (includes lowerName (lowercase query))))) spaces
            = Ok (List.filter keep spaces)) as ->.
    { clear Hspaces. induction Hnames as [|space spaces (name & Hname & Hn) _ IH];
        [reflexivity|].
      cbn [filter_r List.filter]. unfold prop_r at 1. rewrite Hname. cbn [bind_r toLowerCase].
      rewrite Hn. cbn [bind_r]. rewrite IH. cbn [bind_r].
      assert (keep space = includes (lowercase name) (lowercase query)) as ->
        by (unfold keep; rewrite (Hopt _ _ Hname); reflexivity).
      reflexivity. }
    reflexivity.
  - apply sublist_filter.
  - intros space name Hin Hname. rewrite filter_In. unfold keep.
    rewrite (Hopt _ _ Hname), includes_lowercase. tauto.
Qed.

Lemma searchSpaces_selects_witness :
  exists kept,
    searchSpaces Examples.net_workspace Examples.config (JStr "OP") (initial 0)
    = (Ok (JArr kept), (getSpaces Examples.net_workspace Examples.config (initial 0)).2) /\
    (In (JObj [("id", JStr "s1"); ("name", JStr "Ops")]) kept <->
     contains_ignoring_case "OP" "Ops").
Proof.
  destruct (searchSpaces_selects Examples.net_workspace Examples.config "OP"
              [JObj [("id", JStr "s1"); ("name", JStr "Ops")]] (initial 0)
              (getSpaces Examples.net_workspace Examples.config (initial 0)).2)
    as (kept & Hrun & _ & Hkept).
  - vm_compute. reflexivity.
  - discriminate.
  - reflexivity.
  - repeat constructor. exists "Ops". split; reflexivity.
  - exists kept. split; [exact Hrun|].
    apply Hkept; [left; reflexivity|reflexivity].
Defined.

(** X19. [searchSpaces] does its filtering on the client: whatever the
    query, it leaves the world exactly as [getSpaces] does (same requests,
    same cache), and an error of [getSpaces] is its error; without a query
    (absent or empty) it is [getSpaces]. *)
Theorem searchSpaces_reads_through_getSpaces (net : Network) (config : ClickUpConfig)
    (query : JValue) (st : State) :
  (searchSpaces net config query st).2 = (getSpaces net config st).2 /\
  (forall e, (getSpaces net config st).1 = Throw e ->
     (searchSpaces net config query st).1 = Throw e) /\
  (truthy query = false -> searchSpaces net config query st = getSpaces net config st).
Proof.
  unfold searchSpaces, bind. destruct (getSpaces net config st) as [[spaces|e] st1].
  - split; [|split].
    + destruct (negb (truthy query)); [reflexivity|]. unfold lift.
      destruct (toLowerCase query); [|reflexivity].
      destruct spaces; try reflexivity. destruct (filter_r _ _); reflexivity.
    + discriminate.
    + intros ->. reflexivity.
  - split; [reflexivity|]. split; [intros e0 [= <-]; reflexivity|].
    intros _. reflexivity.
Qed.

(** X20. One space without a name breaks the search: with a non-empty ASCII
    query, when the names that are strings are ASCII and some space returned
    by [getSpaces] has a name that is not a string (absent, [null], a
    number) or is itself [null], [searchSpaces] throws a TypeError,
    whatever the other spaces are. *)
Theorem searchSpaces_nameless_space (net : Network) (config : ClickUpConfig)
    (query : string) (spaces : list JValue) (space : JValue) (st st' : State) :
  getSpaces net config st = (Ok (JArr spaces), st') ->
  query <> "" -> ascii_text query = true ->
  Forall (fun s => forall name, opt_prop "name" s = JStr name -> ascii_text name = true)
    spaces ->
  In space spaces -> (forall name, opt_prop "name" space <> JStr name) ->
  searchSpaces net config (JStr query) st = (Throw TypeError, st').
Proof.
  intros Hspaces Hquery Hascii Hnames Hin Hnameless.
  unfold searchSpaces. unfold bind at 1. rewrite Hspaces.
  assert (truthy (JStr query) = true) as ->.
  { cbn. destruct (String.eqb_spec query ""); [contradiction|reflexivity]. }
  cbn [negb toLowerCase]. rewrite Hascii. unfold bind at 1, lift at 1.
  assert (filter_r (fun s =>
                      bind_r (prop_r "name" s) (fun name =>
                      bind_r (toLowerCase name) (fun lowerName =>
                      Ok (includes lowerName (lowercase query))))) spaces
          = Throw TypeError) as ->; [|reflexivity].
  clear Hspaces. induction Hnames as [|s spaces Hs _ IH]; [destruct Hin|].
  cbn [filter_r].
  assert (forall s0, (forall name, opt_prop "name" s0 <> JStr name) ->
            bind_r (prop_r "name" s0) (fun name =>
            bind_r (toLowerCase name) (fun lowerName =>
            Ok (includes lowerName (lowercase query)))) = Throw TypeError) as Hbad.
  { intros s0 H0. destruct s0 as [| |b|n|s0|items|fields]; try reflexivity.
    cbn [prop_r prop bind_r]. cbn [opt_prop] in H0.
    destruct (lookup_field "name" fields) as [| |b|n|name|items|fields']; try reflexivity.
    exfalso. exact (H0 name eq_refl). }
  destruct (opt_prop "name" s) as [| |b|n|name|items|fields] eqn:E;
    try (rewrite Hbad by (intros name; rewrite E; discriminate); reflexivity).
  assert (prop_r "name" s = Ok (JStr name)) as ->.
  { destruct s; try discriminate E. cbn in *. rewrite E. reflexivity. }
  cbn [bind_r toLowerCase]. rewrite (Hs name eq_refl). cbn [bind_r].
  destruct Hin as [->|Hin]; [exfalso; exact (Hnameless name E)|].
  rewrite (IH Hin). reflexivity.
Qed.

Lemma searchSpaces_nameless_space_witness :
  (searchSpaces Scenarios.net_nameless Examples.config (JStr "ops") (initial 0)).1
  = Throw TypeError.
Proof.
  rewrite (searchSpaces_nameless_space Scenarios.net_nameless Examples.config "ops"
             Scenarios.nameless_spaces (JObj [("id", JStr "s2")]) (initial 0)
             (getSpaces Scenarios.net_nameless Examples.config (initial 0)).2).
  - reflexivity.
  - vm_compute. reflexivity.
  - discriminate.
  - reflexivity.
  - repeat constructor; intros name [= <-]; reflexivity.
  - right. left. reflexivity.
  - intros name. discriminate.
Defined.

(** ** The commands *)

Lemma props_defined v : nullish v = false -> props v = Ok (fun k => opt_prop k v).
Proof. unfold props. intros ->. reflexivity. Qed.

Lemma read_sends net config op st key endpoint :
  fresh_cache st \/ caching_off st ->
  read_key op = Ok key -> read_endpoint config op = Ok endpoint ->
  sent (read net config op st).2 = sent st ++ [request_of config "GET" endpoint JUndefined].
Proof.
  intros [Hfresh|Hoff] Hkey Hep.
  - rewrite read_fresh by exact Hfresh. rewrite Hkey, fetch_run, Hep. cbv zeta.
    destruct (bind_r _ _); reflexivity.
  - destruct (read_caching_off net config op st key Hoff Hkey) as (_ & -> & _).
    rewrite fetch_run, Hep. reflexivity.
Qed.

Lemma truthy_or_else_empty v : truthy (or_else v (JStr "")) = truthy v.
Proof. unfold or_else. destruct (truthy v) eqn:E; [exact E|reflexivity]. Qed.

Lemma param_if_or_else_empty v name :
  param_if (truthy (or_else v (JStr ""))) name (to_string (or_else v (JStr "")))
  = param_if (truthy v) name (to_string v).
Proof.
  rewrite truthy_or_else_empty. unfold or_else. destruct (truthy v); reflexivity.
Qed.

(** X21. The request of the [search] command.  On a cache that is fresh or
    switched off, [search] sends one GET to the task search of the workspace
    whose parameters are exactly: [query] when it is given and not empty,
    [include_closed=true] unless [excludeClosed] is set (closed tasks are
    included by default), [list_ids[]] with the one list when [list] is
    given, [space_ids[]] with the one space when [space] is given. *)
Theorem search_command_request (net : Network) (config : ClickUpConfig)
    (iso_date : JValue -> Result JValue) (args : JValue) (st : State) :
  nullish args = false ->
  fresh_cache st \/ caching_off st ->
  let arg k := opt_prop k args in
  sent (Commands.search net config iso_date args st).2
  = sent st ++
    [ request_of config "GET"
        (with_query ("/team/" +:+ to_string (teamId config) +:+ "/task")
           (param_if (truthy (arg "query")) "query" (to_string (arg "query")) ++
            param_if (negb (truthy (arg "excludeClosed"))) "include_closed" "true" ++
            param_if (truthy (arg "list")) "list_ids[]" (to_string (arg "list")) ++
            param_if (truthy (arg "space")) "space_ids[]" (to_string (arg "space"))))
        JUndefined ].
Proof.
  intros Hargs Hst arg. unfold Commands.search.
  unfold bind at 1, lift at 1. rewrite (props_defined args Hargs).
  change (fun k => opt_prop k args) with arg.
  rewrite sent_bind_silent.
  2:{ intros result s. destruct result; try reflexivity.
      unfold bind, lift, ret. destruct (map_r _ _); reflexivity. }
  set (op := SearchTasks (or_else (arg "query") (JStr "")) (Commands.search_options arg)).
  change (searchTasks net config (or_else (arg "query") (JStr ""))
            (Commands.search_options arg))
    with (read net config op).
  assert (exists key, read_key op = Ok key) as [key Hkey].
  { subst op. cbn [read_key]. unfold searchTasks_cacheParams, Commands.search_options.
    cbv zeta. cbn [opt_prop lookup_field String.eqb Ascii.eqb Bool.eqb].
    destruct (truthy (arg "list")), (truthy (arg "space")); cbn [opt_join bind_r];
      eexists; reflexivity. }
  apply (read_sends net config op st key); [exact Hst|exact Hkey|].
  subst op. cbn [read_endpoint]. unfold searchTasks_endpoint. rewrite searchTasks_params_eq.
  unfold Commands.search_options. cbv zeta.
  cbn [opt_prop lookup_field String.eqb Ascii.eqb Bool.eqb is_undefined negb].
  rewrite param_if_or_else_empty.
  destruct (truthy (arg "list")), (truthy (arg "space"));
    cbn [listable truthy negb andb bind_r params_each map param_if app];
    destruct (truthy (arg "query")), (truthy (arg "excludeClosed"));
    reflexivity.
Qed.

Lemma search_command_request_witness :
  sent (Commands.search Examples.net_empty Examples.config (fun _ => Ok JNull)
          (JObj [("query", JStr "rates")]) (initial 0)).2
  = [ request_of Examples.config "GET" "/team/9001/task?query=rates&include_closed=true"
        JUndefined ].
Proof.
  exact (search_command_request Examples.net_empty Examples.config (fun _ => Ok JNull)
           (JObj [("query", JStr "rates")]) (initial 0) eq_refl
           (or_introl (conj eq_refl eq_refl))).
Defined.

Lemma map_r_Forall2 {A B} (f : A -> Result B) items ys :
  map_r f items = Ok ys -> Forall2 (fun x y => f x = Ok y) items ys.
Proof.
  revert ys. induction items as [|x items IH]; intros ys; cbn [map_r].
  - intros [= <-]. constructor.
  - destruct (f x) as [y|] eqn:Hx; cbn [bind_r]; [|discriminate].
    destruct (map_r f items) as [ys'|]; cbn [bind_r]; [|discriminate].
    intros [= <-]. constructor; [exact Hx|apply IH; reflexivity].
Qed.

(** X22. The answer of the [search] command.  When it returns, [searchTasks],
    called with the query (the empty text when none is given) and the
    options of the command, has returned an array of tasks, and the answer
    has a [count] and a list of [tasks]: the count is the number of these
    tasks and there is one row per task, in the same order.  Each row has
    the eight fields [id], [name], [status], [priority], [list], [url],
    [due_date] and [assignees]; it copies [id], [name] and [url] from the
    task, shows the [status] of its status, the [priority] of its priority
    and the [name] of its list (nothing when the task has none), and its
    [due_date] is [null] when the task has none and the date conversion of
    the platform otherwise. *)
Theorem search_command_answer (net : Network) (config : ClickUpConfig)
    (iso_date : JValue -> Result JValue) (args result : JValue) (st st' : State) :
  Commands.search net config iso_date args st = (Ok result, st') ->
  let arg k := opt_prop k args in
  exists items rows : list JValue,
    searchTasks net config (or_else (arg "query") (JStr "")) (Commands.search_options arg) st
    = (Ok (JArr items), st') /\
    result = JObj [("count", JNum (Z.of_nat (length items))); ("tasks", JArr rows)] /\
    length rows = length items /\
    Forall2 (fun task row =>
               exists fields,
                 row = JObj fields /\
                 keys fields = [ "id"; "name"; "status"; "priority"; "list"; "url";
                                 "due_date"; "assignees" ] /\
                 lookup_field "id" fields = opt_prop "id" task /\
                 lookup_field "name" fields = opt_prop "name" task /\
                 lookup_field "url" fields = opt_prop "url" task /\
                 lookup_field "status" fields = opt_prop "status" (opt_prop "status" task) /\
                 lookup_field "priority" fields
                 = opt_prop "priority" (opt_prop "priority" task) /\
                 lookup_field "list" fields = opt_prop "name" (opt_prop "list" task) /\
                 Ok (lookup_field "due_date" fields)
                 = (if truthy (opt_prop "due_date" task)
                    then iso_date (opt_prop "due_date" task) else Ok JNull))
      items rows.
Proof.
  intros Hrun arg. unfold Commands.search in Hrun.
  apply bind_inv in Hrun as [(arg' & st1 & Harg & Hrun)|(e & _ & [=])].
  unfold lift, props in Harg. destruct (nullish args); [discriminate Harg|].
  injection Harg as <- <-. fold arg in Hrun.
  apply bind_inv in Hrun as [(found & st2 & Hfound & Hrun)|(e & _ & [=])].
  destruct found as [| | | | |items|]; try discriminate Hrun.
  apply bind_inv in Hrun as [(rows & st3 & Hrows & Hrun)|(e & _ & [=])].
  injection Hrun as <- <-. unfold lift in Hrows. injection Hrows as Hrows <-.
  apply map_r_Forall2 in Hrows.
  exists items, rows. split; [exact Hfound|]. split; [reflexivity|]. split.
  - symmetry. exact (Forall2_length _ _ _ Hrows).
  - eapply Forall2_impl; [exact Hrows|]. intros task row Hrow. cbv beta in Hrow.
    unfold Commands.task_summary, props in Hrow.
    destruct (nullish task); [discriminate Hrow|]. cbn [bind_r] in Hrow.
    destruct (if truthy (opt_prop "due_date" task) then _ else _) as [due|] eqn:Hdue;
      [|discriminate Hrow].
    cbn [bind_r] in Hrow.
    destruct (match opt_prop "assignees" task with JArr _ => _ | _ => _ end) as [names|];
      [|discriminate Hrow].
    cbn [bind_r] in Hrow. injection Hrow as <-.
    eexists. split; [reflexivity|]. repeat split; reflexivity.
Qed.

Lemma search_command_answer_witness :
  exists row,
    (Commands.search Scenarios.net_one_task Examples.config (fun _ => Ok JNull)
       (JObj [("query", JStr "rates")]) (initial 0)).1
    = Ok (JObj [("count", JNum 1); ("tasks", JArr [row])]) /\
    opt_prop "id" row = JStr "t1" /\
    opt_prop "status" row = JStr "open" /\
    opt_prop "due_date" row = JNull.
Proof.
  destruct (Commands.search Scenarios.net_one_task Examples.config (fun _ => Ok JNull)
              (JObj [("query", JStr "rates")]) (initial 0)) as [[result|e] st'] eqn:Hrun;
    [|vm_compute in Hrun; discriminate Hrun].
  destruct (search_command_answer Scenarios.net_one_task Examples.config (fun _ => Ok JNull)
              (JObj [("query", JStr "rates")]) result (initial 0) st' Hrun)
    as (items & rows & Hcall & -> & _ & Hrows).
  vm_compute in Hcall. injection Hcall as <- _.
  apply Forall2_cons_inv_l in Hrows as (row & rows' & Hrow & Hrest & ->).
  apply Forall2_nil_inv_l in Hrest as ->.
  destruct Hrow as (fields & -> & _ & Hid & _ & _ & Hstatus & _ & _ & Hdue).
  exists (JObj fields). split; [reflexivity|]. split; [exact Hid|]. split; [exact Hstatus|].
  cbn [opt_prop]. cbn in Hdue. injection Hdue as ->. reflexivity.
Defined.

(** X23. [update-task] sends only the arguments that are truthy.  It sends
    one PUT to the task whose body holds, under the names [name],
    [description], [priority], [status], [due_date] and [list_id], the
    arguments [name], [description], [priority], [status], [dueDate] and
    [list] that are given and neither empty nor zero, and nothing else; an
    empty name or description and a due date of [0] cannot be sent, and
    with nothing to update the body is the empty object. *)
Theorem update_task_body (net : Network) (config : ClickUpConfig)
    (args : JValue) (st : State) :
  nullish args = false ->
  let arg k := opt_prop k args in
  exists updates,
    sent (Commands.update_task net config args st).2
    = sent st ++
      [ {| req_method := "PUT";
           req_url := baseUrl +:+ "/task/" +:+ to_string (arg "id");
           req_headers := [ ("Authorization", to_string (apiKey config));
                            ("Content-Type", "application/json") ];
           req_body := Some (JObj updates) |} ] /\
    (forall field name, In (field, name) update_task_fields ->
       lookup_field field updates = if truthy (arg name) then arg name else JUndefined) /\
    (forall field, In field (keys updates) -> In field update_task_fields.*1) /\
    NoDup (keys updates).
Proof.
  intros Hargs arg. exists (Commands.update_task_updates arg). split; [|split; [|split]].
  - unfold Commands.update_task. unfold bind at 1, lift at 1.
    rewrite (props_defined args Hargs). fold arg.
    destruct (write_split net config
                (UpdateTask (arg "id") (JObj (Commands.update_task_updates arg))))
      as (k & Hk & Hrun).
    cbn [write write_request] in Hrun. rewrite Hrun. cbv zeta.
    destruct (answer _ _ _); rewrite ?Hk; reflexivity.
  - intros field name Hin. unfold update_task_fields in Hin. cbn [In] in Hin.
    unfold Commands.update_task_updates, assign_when. cbv zeta.
    repeat destruct Hin as [[= <- <-]|Hin]; try destruct Hin;
      destruct (truthy (arg "name")), (truthy (arg "description")),
        (truthy (arg "priority")), (truthy (arg "status")), (truthy (arg "dueDate")),
        (truthy (arg "list")); reflexivity.
  - intros field. unfold Commands.update_task_updates, assign_when, update_task_fields.
    cbv zeta.
    destruct (truthy (arg "name")), (truthy (arg "description")),
      (truthy (arg "priority")), (truthy (arg "status")), (truthy (arg "dueDate")),
      (truthy (arg "list")); cbn; tauto.
  - unfold Commands.update_task_updates, assign_when. cbv zeta.
    destruct (truthy (arg "name")), (truthy (arg "description")),
      (truthy (arg "priority")), (truthy (arg "status")), (truthy (arg "dueDate")),
      (truthy (arg "list")); cbn;
      apply (bool_decide_unpack _); vm_compute; exact I.
Qed.

Lemma update_task_body_witness :
  exists updates,
    sent (Commands.update_task Examples.net_empty Examples.config
            (JObj [("id", JStr "t1"); ("name", JStr ""); ("status", JStr "done");
                   ("dueDate", JNum 0)]) (initial 0)).2
    = [ {| req_method := "PUT";
           req_url := "https://api.clickup.com/api/v2/task/t1";
           req_headers := [ ("Authorization", "pk_1");
                            ("Content-Type", "application/json") ];
           req_body := Some (JObj updates) |} ] /\
    lookup_field "name" updates = JUndefined /\
    lookup_field "status" updates = JStr "done" /\
    lookup_field "due_date" updates = JUndefined.
Proof.
  destruct (update_task_body Examples.net_empty Examples.config
              (JObj [("id", JStr "t1"); ("name", JStr ""); ("status", JStr "done");
                     ("dueDate", JNum 0)]) (initial 0) eq_refl)
    as (updates & Hsent & Hfields & _).
  exists updates. split; [exact Hsent|].
  split; [|split].
  - exact (Hfields "name" "name" (or_introl eq_refl)).
  - exact (Hfields "status" "status" (or_intror (or_intror (or_intror (or_introl eq_refl))))).
  - exact (Hfields "due_date" "dueDate"
             (or_intror (or_intror (or_intror (or_intror (or_introl eq_refl)))))).
Defined.

(** X24. On arguments that its schema accepts, [get-list] asks for the list
    named by [id] when [id] is not empty, and by [list] otherwise: on a
    cache that is fresh or switched off it sends one GET to that list.  The
    schema accepts an empty [id] without [list], and the command then
    requests the list called [undefined]. *)
Theorem get_list_choice (net : Network) (config : ClickUpConfig) (st : State) :
  fresh_cache st \/ caching_off st ->
  (forall args,
     Commands.get_list_schema args = true ->
     let id := opt_prop "id" args in
     let list := opt_prop "list" args in
     sent (Commands.get_list net config args st).2
     = sent st ++
       [ request_of config "GET" ("/list/" +:+ to_string (if truthy id then id else list))
           JUndefined ]) /\
  (forall fields,
     lookup_field "id" fields = JStr "" -> lookup_field "list" fields = JUndefined ->
     Commands.get_list_schema (JObj fields) = true /\
     sent (Commands.get_list net config (JObj fields) st).2
     = sent st ++ [ request_of config "GET" "/list/undefined" JUndefined ]).
Proof.
  intros Hst.
  assert (forall a, nullish a = false ->
            sent (Commands.get_list net config a st).2
            = sent st ++
              [ request_of config "GET"
                  ("/list/" +:+ to_string (if truthy (opt_prop "id" a) then opt_prop "id" a
                                           else opt_prop "list" a)) JUndefined ])
    as Hsent.
  { intros a Ha. unfold Commands.get_list. unfold bind, lift. rewrite (props_defined a Ha).
    change (getList net config (or_else (opt_prop "id" a) (opt_prop "list" a)))
      with (read net config (GetList (or_else (opt_prop "id" a) (opt_prop "list" a)))).
    apply (read_sends net config _ st
             (createCacheKey "list" [("id", or_else (opt_prop "id" a) (opt_prop "list" a))]));
      [exact Hst|reflexivity|reflexivity]. }
  split.
  - intros args Hschema id list. apply Hsent.
    destruct args; try discriminate Hschema. reflexivity.
  - intros fields Hid Hlist. split.
    + unfold Commands.get_list_schema. cbn [opt_prop]. rewrite Hid, Hlist. reflexivity.
    + rewrite Hsent by reflexivity. cbn [opt_prop]. rewrite Hid, Hlist. reflexivity.
Qed.

Lemma get_list_choice_witness :
  Commands.get_list_schema (JObj [("id", JStr "")]) = true /\
  sent (Commands.get_list Examples.net_empty Examples.config (JObj [("id", JStr "")])
          (initial 0)).2
  = [ request_of Examples.config "GET" "/list/undefined" JUndefined ].
Proof.
  exact (proj2 (get_list_choice Examples.net_empty Examples.config (initial 0)
                  (or_introl (conj eq_refl eq_refl)))
           [("id", JStr "")] eq_refl eq_refl).
Defined.



(** ** Expiry *)

(** X26. Entries expire.  On a fresh cache, once a read has returned, the
    same read made after more than the lifetime of its operation (an hour
    for spaces, a space, the user and the members; fifteen minutes for
    folders and lists; five minutes for tasks, searches, comments and time
    entries) does not use the entry: it sends its request again. *)
Theorem read_expires (net : Network) (config : ClickUpConfig) (op : ReadOp)
    (st : State) (v : JValue) (st1 : State) (d : Z) (endpoint : string) :
  fresh_cache st ->
  read net config op st = (Ok v, st1) ->
  read_endpoint config op = Ok endpoint ->
  read_ttl op < d ->
  sent (read net config op (later d st1)).2
  = sent st1 ++ [request_of config "GET" endpoint JUndefined].
Proof.
  intros Hfresh Hrun Hep Hd.
  rewrite read_fresh in Hrun by exact Hfresh.
  destruct (read_key op) as [key|e] eqn:Hkey; [|discriminate Hrun].
  rewrite fetch_run, Hep in Hrun. cbv zeta in Hrun.
  destruct (bind_r _ _) as [v'|e]; [|discriminate Hrun].
  injection Hrun as -> <-.
  rewrite read_unfold, Hkey. unfold cached. rewrite getOrFetch_miss.
  - rewrite fetch_run, Hep. cbv zeta. destruct (bind_r _ _); [|reflexivity].
    destruct (PluginCache.enabled _); reflexivity.
  - right. cbn. rewrite peek_store, decide_True by reflexivity.
    destruct (Z.ltb_spec (now st + d) (now st + read_ttl op)); [lia|reflexivity].
Qed.

Lemma read_expires_witness :
  let st1 := (read Examples.net_empty Examples.config GetSpaces (initial 0)).2 in
  length (sent (read Examples.net_empty Examples.config GetSpaces (later 3600001 st1)).2)
  = 2%nat.
Proof.
  intros st1.
  rewrite (read_expires Examples.net_empty Examples.config GetSpaces (initial 0)
             (JArr []) st1 3600001 "/team/9001/space"
             (conj eq_refl eq_refl) eq_refl eq_refl).
  - reflexivity.
  - unfold read_ttl, TTL.HOUR. lia.
Defined.

(** ** Safety of the cache keys *)

(** A key names the operation that made it. *)
Lemma key_names_family op1 op2 key :
  read_key op1 = Ok key -> read_key op2 = Ok key -> family op1 = family op2.
Proof.
  intros H1 H2. apply read_key_shape in H1, H2.
  destruct op1, op2; cbn [family] in *; try reflexivity; exfalso;
    destruct H1 as [->|[r1 ->]], H2 as [E|[r2 E]]; expose_text; discriminate E.
Qed.

Lemma scalar_amp_free ty v :
  ty <> TStrArr -> has_type ty v = true -> free_of "&" (to_string v) = true.
Proof.
  intros Hty H. pose proof (cache_param_amp_free ty v H) as F.
  destruct ty; try exact F. congruence.
Qed.

Lemma scalar_shown_inj ty v1 v2 :
  ty <> TStrArr -> has_type ty v1 = true -> has_type ty v2 = true ->
  shown v1 = shown v2 -> v1 = v2.
Proof.
  intros Hty H1 H2 E. apply (shown_typed_inj ty); [exact H1|exact H2|].
  destruct ty; try exact E. congruence.
Qed.

(** Parameters of scalar declared types are recovered from the key. *)
Lemma scalar_key_inj operation (schema : list (string * FieldType)) p1 p2 :
  Forall (fun k => free_of "=" k = true /\ free_of "&" k = true) schema.*1 ->
  (forall f ty, In (f, ty) schema -> ty <> TStrArr) ->
  (forall k, In k (keys p1) -> In k schema.*1) ->
  (forall k, In k (keys p2) -> In k schema.*1) ->
  (forall f ty, In (f, ty) schema -> has_type ty (lookup_field f p1) = true) ->
  (forall f ty, In (f, ty) schema -> has_type ty (lookup_field f p2) = true) ->
  createCacheKey operation p1 = createCacheKey operation p2 ->
  forall f ty, In (f, ty) schema -> lookup_field f p1 = lookup_field f p2.
Proof.
  intros Hclean Hscalar D1 D2 T1 T2 Hkey f ty Hin.
  assert (forall p, (forall k, In k (keys p) -> In k schema.*1) ->
            Forall (fun k => free_of "=" k = true /\ free_of "&" k = true) (keys p)) as K.
  { intros p D. apply Forall_forall. intros k Hk. apply list_elem_of_In in Hk.
    rewrite Forall_forall in Hclean. apply Hclean, list_elem_of_In, D, Hk. }
  assert (forall p, (forall k, In k (keys p) -> In k schema.*1) ->
            (forall f ty, In (f, ty) schema -> has_type ty (lookup_field f p) = true) ->
            forall k, free_of "&" (to_string (lookup_field k p)) = true) as V.
  { intros p D T k. destruct (in_dec string_dec k (keys p)) as [Hk|Hk].
    - apply D in Hk. apply in_map_iff in Hk as ([k' ty'] & <- & Hk).
      exact (scalar_amp_free ty' _ (Hscalar _ _ Hk) (T _ _ Hk)).
    - rewrite lookup_field_absent by exact Hk. reflexivity. }
  pose proof (createCacheKey_inj operation p1 p2 (K _ D1) (K _ D2) (V _ D1 T1) (V _ D2 T2)
                Hkey f) as E.
  exact (scalar_shown_inj ty _ _ (Hscalar _ _ Hin) (T1 _ _ Hin) (T2 _ _ Hin) E).
Qed.

Lemma well_typed_In schema args f ty :
  well_typed schema args = true -> In (f, ty) schema -> has_type ty (args f) = true.
Proof.
  unfold well_typed. rewrite forallb_forall. intros H Hin. exact (H (f, ty) Hin).
Qed.

Lemma getTimeEntries_key_inj o1 o2 :
  typed_call (GetTimeEntries o1) -> typed_call (GetTimeEntries o2) ->
  read_key (GetTimeEntries o1) = read_key (GetTimeEntries o2) ->
  forall f ty, In (f, ty) getTimeEntries_schema -> opt_prop f o1 = opt_prop f o2.
Proof.
  cbn [typed_call read_key]. intros [(_ & _ & D1) T1] [(_ & _ & D2) T2] Hkey f ty Hin.
  apply Ok_inj in Hkey. rewrite !own_fields_or_else in Hkey.
  rewrite <- !lookup_own_fields.
  apply (scalar_key_inj "time_entries" getTimeEntries_schema _ _) with (ty := ty);
    try assumption.
  - apply Forall_forall. intros k Hk. apply list_elem_of_In in Hk. cbn in Hk.
    repeat destruct Hk as [<-|Hk]; try (destruct Hk); split; reflexivity.
  - intros f' ty' H. cbn in H.
    repeat destruct H as [[= <- <-]|H]; try (destruct H); discriminate.
  - intros f' ty' H. rewrite lookup_own_fields.
    exact (well_typed_In _ (fun k => opt_prop k o1) _ _ T1 H).
  - intros f' ty' H. rewrite lookup_own_fields.
    exact (well_typed_In _ (fun k => opt_prop k o2) _ _ T2 H).
Qed.

Lemma getTimeEntries_endpoint_args config o1 o2 :
  (forall f ty, In (f, ty) getTimeEntries_schema -> opt_prop f o1 = opt_prop f o2) ->
  read_endpoint config (GetTimeEntries o1) = read_endpoint config (GetTimeEntries o2).
Proof.
  intros Hf. cbn [read_endpoint]. unfold getTimeEntries_params. cbv zeta.
  repeat match goal with
         | |- context [opt_prop ?f o1] => rewrite (Hf f _ ltac:(cbn; tauto))
         end.
  reflexivity.
Qed.

Lemma keys_spread base o k :
  In k (keys (spread base o)) -> In k (keys base) \/ In k (keys (own_fields o)).
Proof.
  unfold spread. generalize (own_fields o) as extra. intros extra. revert base.
  induction extra as [|[k0 v0] extra IH]; intros base; cbn [fold_left]; [auto|].
  intros H. apply IH in H as [H|H]; [|right; right; exact H].
  cbn [fst snd] in H. rewrite keys_set_field in H.
  destruct (bool_decide _); [left; exact H|].
  apply in_app_or in H as [H|[<-|[]]]; [left; exact H|right; left; reflexivity].
Qed.

(** The parameters that [getTaskComments] puts into its key are its
    arguments, when the options do not name the task. *)
Lemma getTaskComments_cacheParams_lookup taskId options f :
  declared ["start"; "start_id"] options ->
  lookup_field f (spread [("task", taskId)] options) = argument "task" taskId options f.
Proof.
  intros (_ & Hnd & D).
  destruct (spread_spec [("task", taskId)] options) as [_ ->];
    [apply NoDup_singleton|exact Hnd|].
  unfold argument. destruct (bool_decide _) eqn:E.
  - apply bool_decide_eq_true in E. apply list_elem_of_In in E.
    rewrite lookup_own_fields.
    destruct (String.eqb_spec f "task") as [->|_]; [|reflexivity].
    apply D in E. cbn in E. destruct E as [E|[E|[]]]; discriminate E.
  - apply bool_decide_eq_false in E. rewrite list_elem_of_In in E.
    cbn [lookup_field]. destruct (String.eqb f "task"); [reflexivity|].
    rewrite <- lookup_own_fields, lookup_field_absent by exact E. reflexivity.
Qed.

Lemma getTaskComments_key_inj t1 o1 t2 o2 :
  typed_call (GetTaskComments t1 o1) -> typed_call (GetTaskComments t2 o2) ->
  read_key (GetTaskComments t1 o1) = read_key (GetTaskComments t2 o2) ->
  forall f ty, In (f, ty) getTaskComments_schema ->
    argument "task" t1 o1 f = argument "task" t2 o2 f.
Proof.
  cbn [typed_call read_key]. intros [D1 T1] [D2 T2] Hkey f ty Hin.
  apply Ok_inj in Hkey. unfold getTaskComments_cacheKey in Hkey.
  rewrite <- (getTaskComments_cacheParams_lookup t1 o1 f D1),
          <- (getTaskComments_cacheParams_lookup t2 o2 f D2).
  assert (forall t o, declared ["start"; "start_id"] o ->
            forall k, In k (keys (spread [("task", t)] o)) ->
                      In k getTaskComments_schema.*1) as K.
  { intros t o (_ & _ & D) k Hk. apply keys_spread in Hk as [[<-|[]]|Hk]; [cbn; tauto|].
    right. exact (D _ Hk). }
  apply (scalar_key_inj "comments" getTaskComments_schema _ _) with (ty := ty);
    try assumption; try (apply K; assumption).
  - apply Forall_forall. intros k Hk. apply list_elem_of_In in Hk. cbn in Hk.
    repeat destruct Hk as [<-|Hk]; try (destruct Hk); split; reflexivity.
  - intros f' ty' H. cbn in H.
    repeat destruct H as [[= <- <-]|H]; try (destruct H); discriminate.
  - intros f' ty' H. rewrite getTaskComments_cacheParams_lookup by exact D1.
    exact (well_typed_In _ _ _ _ T1 H).
  - intros f' ty' H. rewrite getTaskComments_cacheParams_lookup by exact D2.
    exact (well_typed_In _ _ _ _ T2 H).
Qed.

Lemma getTaskComments_endpoint_args config t1 o1 t2 o2 :
  (forall f ty, In (f, ty) getTaskComments_schema ->
     argument "task" t1 o1 f = argument "task" t2 o2 f) ->
  read_endpoint config (GetTaskComments t1 o1) = read_endpoint config (GetTaskComments t2 o2).
Proof.
  intros Hargs.
  assert (t1 = t2) as -> by exact (Hargs "task" TStr ltac:(cbn; tauto)).
  assert (opt_prop "start" o1 = opt_prop "start" o2) as E1
    by exact (Hargs "start" TNum ltac:(cbn; tauto)).
  assert (opt_prop "start_id" o1 = opt_prop "start_id" o2) as E2
    by exact (Hargs "start_id" TStr ltac:(cbn; tauto)).
  cbn [read_endpoint]. unfold getTaskComments_params. cbv zeta. rewrite E1, E2.
  reflexivity.
Qed.

(** The text of the key of [getTask] tells the id, as text, and the flag. *)
Lemma getTask_key_inj config id1 m1 id2 m2 :
  getTask_cacheKey id1 m1 = getTask_cacheKey id2 m2 ->
  read_endpoint config (GetTask id1 m1) = read_endpoint config (GetTask id2 m2).
Proof.
  assert (forall m, getTask_cacheKey JUndefined m
                    = "task:markdown=" +:+ (if m then "true" else "false")) as Hno
    by (intros []; vm_compute; reflexivity).
  destruct (is_undefined id1) eqn:U1; destruct (is_undefined id2) eqn:U2;
    try (apply is_undefined_true in U1; subst id1);
    try (apply is_undefined_true in U2; subst id2);
    rewrite ?Hno, ?getTask_cacheKey_text by assumption; intros E.
  - destruct m1, m2; try reflexivity; discriminate E.
  - exfalso. expose_text. discriminate E.
  - exfalso. expose_text. discriminate E.
  - expose_text. injection E as E. cbn [read_endpoint].
    destruct m1, m2.
    + apply str_app_inj_tail in E as [-> _]; auto.
    + exfalso.
      change "&markdown=true" with ("&markdown" +:+ "=true") in E.
      change "&markdown=false" with ("&markdown=" +:+ "false") in E.
      rewrite <- !str_app_assoc in E.
      apply str_app_inj_tail in E as [_ E]; [discriminate E|reflexivity].
    + exfalso.
      change "&markdown=true" with ("&markdown" +:+ "=true") in E.
      change "&markdown=false" with ("&markdown=" +:+ "false") in E.
      rewrite <- !str_app_assoc in E.
      apply str_app_inj_tail in E as [_ E]; [discriminate E|reflexivity].
    + apply str_app_inj_tail in E as [-> _]; auto.
Qed.

(** The key of a read of one identifier tells the identifier, as text. *)
Lemma single_param_key_inj operation k v1 v2 :
  createCacheKey operation [(k, v1)] = createCacheKey operation [(k, v2)] ->
  to_string v1 = to_string v2.
Proof.
  rewrite !single_param_key.
  destruct (is_undefined v1) eqn:U1; destruct (is_undefined v2) eqn:U2;
    try (apply is_undefined_true in U1; subst v1);
    try (apply is_undefined_true in U2; subst v2); intros E.
  - reflexivity.
  - exfalso. apply str_app_inv_nil in E. discriminate E.
  - exfalso. symmetry in E. apply str_app_inv_nil in E. discriminate E.
  - apply (inj (String.app operation)) in E. apply (inj (String.app ":")) in E.
    apply (inj (String.app k)) in E. apply (inj (String.app "=")) in E. exact E.
Qed.

(** X27. A cached answer fits the call that receives it.  Two reads whose
    arguments have their declared types and that build the same cache key
    are calls of the same operation, send the same request and decode the
    response in the same way; so what the cache returns for the key is what
    the call would have fetched when the entry was made.  This holds across
    all thirteen cached reads: no two operations share a key. *)
Theorem same_key_same_request (config : ClickUpConfig) (op1 op2 : ReadOp) (key : string) :
  typed_call op1 -> typed_call op2 ->
  read_key op1 = Ok key -> read_key op2 = Ok key ->
  family op1 = family op2 /\
  read_ttl op1 = read_ttl op2 /\
  read_endpoint config op1 = read_endpoint config op2 /\
  forall result, read_decode op1 result = read_decode op2 result.
Proof.
  intros T1 T2 H1 H2. pose proof (key_names_family _ _ _ H1 H2) as Hfam.
  split; [exact Hfam|].
  assert (read_key op1 = read_key op2) as Hkey by congruence. clear H1 H2.
  destruct op1, op2; try discriminate Hfam; clear Hfam;
    (split; [reflexivity|]); (split; [|reflexivity]).
  - reflexivity.
  - cbn [read_key read_endpoint] in *. apply Ok_inj, single_param_key_inj in Hkey.
    rewrite Hkey. reflexivity.
  - cbn [read_key read_endpoint] in *. apply Ok_inj, single_param_key_inj in Hkey.
    rewrite Hkey. reflexivity.
  - cbn [read_key read_endpoint] in *. apply Ok_inj, single_param_key_inj in Hkey.
    rewrite Hkey. reflexivity.
  - cbn [read_key read_endpoint] in *. apply Ok_inj, single_param_key_inj in Hkey.
    rewrite Hkey. reflexivity.
  - cbn [read_key read_endpoint] in *. apply Ok_inj, single_param_key_inj in Hkey.
    rewrite Hkey. reflexivity.
  - cbn [read_endpoint]. apply getTasks_endpoint_args.
    exact (getTasks_key_inj _ _ _ _ T1 T2 Hkey).
  - apply getTask_key_inj. cbn [read_key] in Hkey. apply Ok_inj in Hkey. exact Hkey.
  - cbn [read_endpoint]. apply searchTasks_endpoint_args.
    exact (searchTasks_key_inj _ _ _ _ T1 T2 Hkey).
  - apply getTaskComments_endpoint_args.
    exact (getTaskComments_key_inj _ _ _ _ T1 T2 Hkey).
  - apply getTimeEntries_endpoint_args.
    exact (getTimeEntries_key_inj _ _ T1 T2 Hkey).
  - reflexivity.
  - reflexivity.
Qed.

Lemma same_key_same_request_witness :
  let op1 := GetTimeEntries (JObj [("task_id", JStr "t1"); ("assignee", JNum 7)]) in
  let op2 := GetTimeEntries (JObj [("assignee", JNum 7); ("task_id", JStr "t1")]) in
  read_key op1 = Ok "time_entries:assignee=7&task_id=t1" /\
  read_endpoint Examples.config op1 = read_endpoint Examples.config op2.
Proof.
  intros op1 op2. split; [reflexivity|].
  refine (proj1 (proj2 (proj2 (same_key_same_request Examples.config op1 op2
                                 "time_entries:assignee=7&task_id=t1" _ _
                                 eq_refl eq_refl)))).
  - split; [split; [exact I|split]|reflexivity].
    + apply (bool_decide_unpack _). vm_compute. exact I.
    + intros k Hk. cbn in Hk. destruct Hk as [<-|[<-|[]]]; cbn; tauto.
  - split; [split; [exact I|split]|reflexivity].
    + apply (bool_decide_unpack _). vm_compute. exact I.
    + intros k Hk. cbn in Hk. destruct Hk as [<-|[<-|[]]]; cbn; tauto.
Defined.
